(** * Conway's Game of Life with a pan/zoom viewport (src/main.py)

    A shallow embedding of [GameOfLifePygame]: the simulation engine
    ([count_neighbors], [step], [reset], [clear]), the viewport
    ([clamp_offsets], [zoom_at], the pixel/cell mappings), what
    [draw_grid] and [draw_ui] draw, and the loop of [run]: the event
    handling, [handle_mouse], the frames and the exit.

    Python integers are [Z]; Python floats are IEEE-754 binary64 values,
    modelled by the rational they denote with every arithmetic result
    rounded to nearest-even ([PyFloat.RN]); numpy arrays are a shape
    together with a list of rows; exceptions are an error monad. *)

From Stdlib Require Import ZArith QArith Qround Qabs Qpower Lia Lqa Bool.
From stdpp Require Import base list strings pretty.

Local Open Scope Z_scope.

(** ** Exceptions *)

Inductive exn : Set :=
| ValueError
| ZeroDivisionError
| OverflowError
| IndexError
| SystemExit.

Inductive result (A : Type) : Type :=
| Ok (a : A)
| Raise (e : exn).
Arguments Ok {A} a.
Arguments Raise {A} e.

Definition bind {A B} (m : result A) (k : A -> result B) : result B :=
  match m with
  | Ok a => k a
  | Raise e => Raise e
  end.

Notation "'try' x ':=' m 'in' k" := (bind m (fun x => k))
  (at level 10, x name, m at level 100, k at level 200).

(** ** Python floats *)

Module PyFloat.

Local Open Scope Q_scope.

(** binary64: 53 bits of precision, least exponent of a subnormal
    -1074, overflow at 2^1024. *)
Definition prec : Z := 53.
Definition emin : Z := -1074.
Definition emax : Z := 1024.

Definition pow2 (e : Z) : Q := 2 ^ e.

(** floor (log2 y) of a positive rational. *)
Definition ilog2 (y : Q) : Z :=
  let c := (Z.log2 (Qnum y) - Z.log2 (Z.pos (Qden y)))%Z in
  if Qle_bool (pow2 c) y then c else (c - 1)%Z.

(** Nearest integer, ties to even. *)
Definition rne (z : Q) : Z :=
  let f := Qfloor z in
  match Qcompare (z - inject_Z f) (1 # 2) with
  | Lt => f
  | Gt => (f + 1)%Z
  | Eq => if Z.even f then f else (f + 1)%Z
  end.

(** The exponent of the unit in the last place of the binade of [y]. *)
Definition ulp_exp (y : Q) : Z := Z.max (ilog2 (Qabs y) - (prec - 1)) emin.

(** Round to nearest representable value, ties to even (no overflow
    check: see [round]). *)
Definition RN (y : Q) : Q :=
  if Qeq_bool y 0 then 0
  else inject_Z (rne (y / pow2 (ulp_exp y))) * pow2 (ulp_exp y).

(** A float is finite, an infinity or not-a-number.  Signed zeros are
    not told apart: nothing in the program observes the sign of zero. *)
Inductive t : Type :=
| Fin (q : Q)
| Inf (negative : bool)
| NaN.

Definition Qneg (q : Q) : bool := negb (Qle_bool 0 q).

Definition round (y : Q) : t :=
  let r := RN y in
  if Qle_bool (pow2 emax) (Qabs r) then Inf (Qneg r) else Fin r.

(** [float(n)] for an int: OverflowError when out of range. *)
Definition of_int (n : Z) : result t :=
  match round (inject_Z n) with
  | Fin q => Ok (Fin q)
  | _ => Raise OverflowError
  end.

(** [a / b] on ints: the correctly rounded quotient. *)
Definition int_truediv (a b : Z) : result t :=
  if (b =? 0)%Z then Raise ZeroDivisionError
  else match round (inject_Z a / inject_Z b) with
       | Fin q => Ok (Fin q)
       | _ => Raise OverflowError
       end.

Definition add (x y : t) : t :=
  match x, y with
  | Fin a, Fin b => round (a + b)
  | NaN, _ | _, NaN => NaN
  | Inf s, Fin _ | Fin _, Inf s => Inf s
  | Inf s1, Inf s2 => if eqb s1 s2 then Inf s1 else NaN
  end.

Definition opp (x : t) : t :=
  match x with
  | Fin a => Fin (- a)
  | Inf s => Inf (negb s)
  | NaN => NaN
  end.

Definition sub (x y : t) : t :=
  match x, y with
  | Fin a, Fin b => round (a - b)
  | _, _ => add x (opp y)
  end.

Definition mul (x y : t) : t :=
  match x, y with
  | Fin a, Fin b => round (a * b)
  | NaN, _ | _, NaN => NaN
  | Inf s, Fin b | Fin b, Inf s =>
      if Qeq_bool b 0 then NaN else Inf (xorb s (Qneg b))
  | Inf s1, Inf s2 => Inf (xorb s1 s2)
  end.

(** Float division; a zero divisor does not occur where it is used
    ([cdf /= cdf[-1]] after the sum check) and yields NaN here. *)
Definition div (x y : t) : t :=
  match x, y with
  | Fin a, Fin b => if Qeq_bool b 0 then NaN else round (a / b)
  | NaN, _ | _, NaN => NaN
  | Inf s, Fin b => Inf (xorb s (Qneg b))
  | Fin _, Inf _ => Fin 0
  | Inf _, Inf _ => NaN
  end.

Definition abs (x : t) : t :=
  match x with
  | Fin a => Fin (Qabs a)
  | Inf _ => Inf false
  | NaN => NaN
  end.

(** Comparisons; any comparison with NaN is false. *)
Definition ltb (x y : t) : bool :=
  match x, y with
  | Fin a, Fin b => negb (Qle_bool b a)
  | NaN, _ | _, NaN => false
  | Inf s1, Inf s2 => s1 && negb s2
  | Inf s, Fin _ => s
  | Fin _, Inf s => negb s
  end.

Definition leb (x y : t) : bool :=
  match x, y with
  | Fin a, Fin b => Qle_bool a b
  | NaN, _ | _, NaN => false
  | Inf s1, Inf s2 => s1 || negb s2
  | Inf s, Fin _ => s
  | Fin _, Inf s => negb s
  end.

Definition isnan (x : t) : bool :=
  match x with NaN => true | _ => false end.

(** [int(x)]: truncation toward zero. *)
Definition to_int (x : t) : result Z :=
  match x with
  | Fin q => Ok (Z.quot (Qnum q) (Z.pos (Qden q)))
  | Inf _ => Raise OverflowError
  | NaN => Raise ValueError
  end.

(** [x * n] and [x - n] with an int operand: the int is converted
    first. *)
Definition mul_int (x : t) (n : Z) : result t :=
  try y := of_int n in Ok (mul x y).

Definition sub_int (x : t) (n : Z) : result t :=
  try y := of_int n in Ok (sub x y).

(** The integers that every binary64 operation keeps exact. *)
Definition small (k : Z) : Prop := (- 2 ^ 53 < k < 2 ^ 53)%Z.

(** The binary64 values: the fixed points of rounding. *)
Definition representable (q : Q) : Prop := RN q == q.

(** A float that the machine can hold. *)
Definition is_float (d : t) : Prop :=
  match d with
  | Fin q => representable q
  | _ => True
  end.

(** A float that is a number of [[0, 1]]. *)
Definition probability (d : t) : Prop :=
  match d with
  | Fin q => 0 <= q <= 1
  | _ => False
  end.

End PyFloat.

(** ** numpy arrays (two-dimensional) *)

Module Np.

(** An array of shape [(nrows, ncols)] holding its rows. *)
Record ndarray (A : Type) : Type := Array {
  nrows : nat;
  ncols : nat;
  rows : list (list A)
}.
Arguments Array {A} nrows ncols rows.
Arguments nrows {A} _.
Arguments ncols {A} _.
Arguments rows {A} _.

Definition wf {A} (a : ndarray A) : Prop :=
  length (rows a) = nrows a /\
  Forall (fun r => length r = ncols a) (rows a).

(** [a[r, c]] for indices inside the array. *)
Definition get {A} (a : ndarray A) (r c : nat) : option A :=
  match rows a !! r with
  | Some row => row !! c
  | None => None
  end.

(** [np.zeros((h, w), dtype=int)]: negative dimensions are rejected. *)
Definition zeros (h w : Z) : result (ndarray Z) :=
  if (h <? 0) || (w <? 0) then Raise ValueError
  else Ok (Array (Z.to_nat h) (Z.to_nat w)
             (replicate (Z.to_nat h) (replicate (Z.to_nat w) 0))).

(** [np.zeros_like(a)] *)
Definition zeros_like (a : ndarray Z) : ndarray Z :=
  Array (nrows a) (ncols a) (replicate (nrows a) (replicate (ncols a) 0)).

(** [np.pad(a, pad_width=1, mode="constant", constant_values=0)] *)
Definition pad (a : ndarray Z) : ndarray Z :=
  let blank := replicate (S (S (ncols a))) 0 in
  Array (S (S (nrows a))) (S (S (ncols a)))
    (blank :: map (fun r => 0 :: r ++ [0]) (rows a) ++ [blank]).

(** Python's normalisation of a slice bound against a length. *)
Definition slice_bound (len i : Z) : Z :=
  if i <? 0 then Z.max 0 (i + len) else Z.min i len.

Definition slice_start (len start : Z) : nat :=
  Z.to_nat (slice_bound len start).

Definition slice_len (len start stop : Z) : nat :=
  Z.to_nat (slice_bound len stop - slice_bound len start).

(** [l[start:stop]] *)
Definition slice {A} (l : list A) (start stop : Z) : list A :=
  let n := Z.of_nat (length l) in
  take (slice_len n start stop) (drop (slice_start n start) l).

(** [a[r0:r1, c0:c1]] *)
Definition slice2 {A} (a : ndarray A) (r0 r1 c0 c1 : Z) : ndarray A :=
  Array (slice_len (Z.of_nat (nrows a)) r0 r1)
        (slice_len (Z.of_nat (ncols a)) c0 c1)
        (map (fun r => slice r c0 c1) (slice (rows a) r0 r1)).

(** [a += b] for operands of one shape, as they are at every use in
    the program ([count_neighbors_shapes]); broadcasting is not
    modelled. *)
Definition iadd (a b : ndarray Z) : ndarray Z :=
  Array (nrows a) (ncols a) (zip_with (zip_with Z.add) (rows a) (rows b)).

(** [a == k], elementwise *)
Definition eq_scalar (a : ndarray Z) (k : Z) : ndarray bool :=
  Array (nrows a) (ncols a) (map (map (fun v => v =? k)) (rows a)).

(** [m1 & m2] and [m1 | m2] on boolean arrays of one shape *)
Definition band (m1 m2 : ndarray bool) : ndarray bool :=
  Array (nrows m1) (ncols m1) (zip_with (zip_with andb) (rows m1) (rows m2)).

Definition bor (m1 m2 : ndarray bool) : ndarray bool :=
  Array (nrows m1) (ncols m1) (zip_with (zip_with orb) (rows m1) (rows m2)).

(** [a[mask] = v] for a boolean mask of the shape of [a] *)
Definition set_mask (a : ndarray Z) (mask : ndarray bool) (v : Z) : ndarray Z :=
  Array (nrows a) (ncols a)
    (zip_with (zip_with (fun x (b : bool) => if b then v else x))
       (rows a) (rows mask)).

(** [a[r, c] = v] for non-negative indices: IndexError outside the
    array. *)
Definition set {A} (a : ndarray A) (r c : Z) (v : A) : result (ndarray A) :=
  match rows a !! Z.to_nat r with
  | Some row =>
      if (Z.to_nat c <? length row)%nat
      then Ok (Array (nrows a) (ncols a)
                 (<[Z.to_nat r := <[Z.to_nat c := v]> row]> (rows a)))
      else Raise IndexError
  | None => Raise IndexError
  end.

Definition getZ {A} (a : ndarray A) (r c : Z) : result A :=
  match get a (Z.to_nat r) (Z.to_nat c) with
  | Some v => Ok v
  | None => Raise IndexError
  end.

End Np.

(** ** numpy's global random generator and [np.random.choice] *)

Module NpRandom.

Import Np.

(** The generator is the stream of its future draws; a uniform sample
    of [[0, 1)] is a 53-bit draw divided by 2^53. *)
Definition rng : Type := nat -> N.

Definition random_sample (g : rng) (i : nat) : PyFloat.t :=
  PyFloat.Fin (inject_Z (Z.of_N (g i) mod 2 ^ 53) / inject_Z (2 ^ 53)).

Definition advance (g : rng) (n : nat) : rng := fun i => g (n + i)%nat.

(** The tolerance of the sum check, sqrt of the machine epsilon. *)
Definition atol : PyFloat.t := PyFloat.Fin (PyFloat.pow2 (-26)).

(** [np.random.choice([0, 1], size=(h, w), p=[p0, p1])]: the
    probabilities are checked first, the sampled shape then; every
    cell is found by searching its sample in the normalised cumulative
    sums [[p0 / s, s / s]], to the right of equal entries.  A sample is
    below 1, so the index found is 0 or 1. *)
Definition choice01 (g : rng) (h w : Z) (p0 p1 : PyFloat.t)
  : result (ndarray Z * rng) :=
  let p_sum := PyFloat.add p0 p1 in
  if PyFloat.isnan p_sum then Raise ValueError
  else if PyFloat.ltb p0 (PyFloat.Fin 0) || PyFloat.ltb p1 (PyFloat.Fin 0)
  then Raise ValueError
  else if PyFloat.ltb atol (PyFloat.abs (PyFloat.sub p_sum (PyFloat.Fin 1)))
  then Raise ValueError
  else if (h <? 0) || (w <? 0) then Raise ValueError
  else
    let cdf0 := PyFloat.div p0 p_sum in
    let nh := Z.to_nat h in
    let nw := Z.to_nat w in
    let cell (r c : nat) : Z :=
      if PyFloat.leb cdf0 (random_sample g (r * nw + c)) then 1 else 0 in
    Ok (Array nh nw (map (fun r => map (cell r) (seq 0 nw)) (seq 0 nh)),
        advance g (nh * nw)).

End NpRandom.

(** ** The game object *)

Record game : Type := Game {
  width : Z;
  height : Z;
  cell_size : Z;
  grid : Np.ndarray Z;
  screen_width : Z;
  screen_height : Z;
  running : bool;
  paused : bool;
  generation : Z;
  fps : Z;
  offset_x : Z;
  offset_y : Z;
  pan_speed : Z;
  min_cell_size : Z;
  max_cell_size : Z
}.

Definition with_grid (self : game) (v : Np.ndarray Z) : game :=
  Game (width self) (height self) (cell_size self) v (screen_width self)
    (screen_height self) (running self) (paused self) (generation self)
    (fps self) (offset_x self) (offset_y self) (pan_speed self)
    (min_cell_size self) (max_cell_size self).

Definition with_cell_size (self : game) (v : Z) : game :=
  Game (width self) (height self) v (grid self) (screen_width self)
    (screen_height self) (running self) (paused self) (generation self)
    (fps self) (offset_x self) (offset_y self) (pan_speed self)
    (min_cell_size self) (max_cell_size self).

Definition with_screen (self : game) (w h : Z) : game :=
  Game (width self) (height self) (cell_size self) (grid self) w h
    (running self) (paused self) (generation self)
    (fps self) (offset_x self) (offset_y self) (pan_speed self)
    (min_cell_size self) (max_cell_size self).

Definition with_running (self : game) (v : bool) : game :=
  Game (width self) (height self) (cell_size self) (grid self)
    (screen_width self) (screen_height self) v (paused self)
    (generation self) (fps self) (offset_x self) (offset_y self)
    (pan_speed self) (min_cell_size self) (max_cell_size self).

Definition with_paused (self : game) (v : bool) : game :=
  Game (width self) (height self) (cell_size self) (grid self)
    (screen_width self) (screen_height self) (running self) v
    (generation self) (fps self) (offset_x self) (offset_y self)
    (pan_speed self) (min_cell_size self) (max_cell_size self).

Definition with_generation (self : game) (v : Z) : game :=
  Game (width self) (height self) (cell_size self) (grid self)
    (screen_width self) (screen_height self) (running self) (paused self)
    v (fps self) (offset_x self) (offset_y self)
    (pan_speed self) (min_cell_size self) (max_cell_size self).

Definition with_fps (self : game) (v : Z) : game :=
  Game (width self) (height self) (cell_size self) (grid self)
    (screen_width self) (screen_height self) (running self) (paused self)
    (generation self) v (offset_x self) (offset_y self)
    (pan_speed self) (min_cell_size self) (max_cell_size self).

Definition with_offset_x (self : game) (v : Z) : game :=
  Game (width self) (height self) (cell_size self) (grid self)
    (screen_width self) (screen_height self) (running self) (paused self)
    (generation self) (fps self) v (offset_y self)
    (pan_speed self) (min_cell_size self) (max_cell_size self).

Definition with_offset_y (self : game) (v : Z) : game :=
  Game (width self) (height self) (cell_size self) (grid self)
    (screen_width self) (screen_height self) (running self) (paused self)
    (generation self) (fps self) (offset_x self) v
    (pan_speed self) (min_cell_size self) (max_cell_size self).

(** Python's [a // b] on ints. *)
Definition floordiv (a b : Z) : result Z :=
  if b =? 0 then Raise ZeroDivisionError else Ok (a / b).

(** [__init__]: the grid is drawn first; the window is [width * cell_size]
    by [height * cell_size + 50] pixels, the game starts paused at
    generation 0 with zero offsets. *)
Definition init (g : NpRandom.rng) (width height cell_size : Z)
    (random_density : PyFloat.t) : result (game * NpRandom.rng) :=
  try drawn := NpRandom.choice01 g height width
                 (PyFloat.sub (PyFloat.Fin 1) random_density) random_density in
  Ok (Game width height cell_size (fst drawn)
        (width * cell_size) (height * cell_size + 50)
        true true 0 10 0 0 32 1 32,
      snd drawn).

(** ** GridEngine *)

(** [count_neighbors]: the eight shifted windows of the zero-padded grid
    are summed into [neighbors]. *)
Definition count_neighbors (self : game) (grid : Np.ndarray Z) : Np.ndarray Z :=
  let padded := Np.pad grid in
  let neighbors := Np.zeros_like grid in
  fold_left (fun neighbors i =>
    fold_left (fun neighbors j =>
      if (i =? 1) && (j =? 1) then neighbors
      else Np.iadd neighbors
             (Np.slice2 padded i (i + height self) j (j + width self)))
      [0; 1; 2] neighbors)
    [0; 1; 2] neighbors.

Definition step (self : game) : game :=
  let neighbors := count_neighbors self (grid self) in
  let new_grid := Np.zeros_like (grid self) in
  let new_grid :=
    Np.set_mask new_grid
      (Np.band (Np.eq_scalar (grid self) 1)
         (Np.bor (Np.eq_scalar neighbors 2) (Np.eq_scalar neighbors 3))) 1 in
  let new_grid :=
    Np.set_mask new_grid
      (Np.band (Np.eq_scalar (grid self) 0) (Np.eq_scalar neighbors 3)) 1 in
  let self := with_grid self new_grid in
  with_generation self (generation self + 1).

Definition reset (g : NpRandom.rng) (self : game) (random_density : PyFloat.t)
  : result (game * NpRandom.rng) :=
  try drawn := NpRandom.choice01 g (height self) (width self)
                 (PyFloat.sub (PyFloat.Fin 1) random_density) random_density in
  let self := with_grid self (fst drawn) in
  let self := with_generation self 0 in
  Ok (with_paused self true, snd drawn).

(** The default argument of [reset]: the float nearest to 0.3. *)
Definition default_density : PyFloat.t := PyFloat.round (3 # 10).

Definition clear (self : game) : result game :=
  try zero := Np.zeros (height self) (width self) in
  let self := with_grid self zero in
  let self := with_generation self 0 in
  Ok (with_paused self true).

(** ** ViewportMapper *)

Definition clamp_offsets (self : game) : game :=
  let total_w := width self * cell_size self in
  let total_h := height self * cell_size self in
  let max_x := Z.max 0 (total_w - screen_width self) in
  let max_y := Z.max 0 (total_h - (screen_height self - 50)) in
  let self := with_offset_x self (Z.max 0 (Z.min (offset_x self) max_x)) in
  with_offset_y self (Z.max 0 (Z.min (offset_y self) max_y)).

(** [int(grid * cell_size - focus)] *)
Definition zoom_offset (grid : PyFloat.t) (cell_size focus : Z) : result Z :=
  try scaled := PyFloat.mul_int grid cell_size in
  try shifted := PyFloat.sub_int scaled focus in
  PyFloat.to_int shifted.

(** The body of [zoom_at] before its final [clamp_offsets]. *)
Definition zoom_recompute (self : game) (focus_x focus_y new_cell_size : Z)
  : result game :=
  let old := cell_size self in
  try grid_x := PyFloat.int_truediv (focus_x + offset_x self) old in
  try grid_y := PyFloat.int_truediv (focus_y + offset_y self) old in
  let self := with_cell_size self new_cell_size in
  try ox := zoom_offset grid_x (cell_size self) focus_x in
  let self := with_offset_x self ox in
  try oy := zoom_offset grid_y (cell_size self) focus_y in
  Ok (with_offset_y self oy).

Definition zoom_at (self : game) (focus_x focus_y new_cell_size : Z)
  : result game :=
  if new_cell_size =? cell_size self then Ok self
  else
    try self := zoom_recompute self focus_x focus_y new_cell_size in
    Ok (clamp_offsets self).

(** The pixel of the top-left corner of cell [(x, y)], as [draw_grid]
    computes it. *)
Definition grid_to_screen (self : game) (x y : Z) : Z * Z :=
  (x * cell_size self - offset_x self, y * cell_size self - offset_y self).

(** The cell [(grid_x, grid_y)] under a pixel, as [handle_mouse]
    computes it. *)
Definition screen_to_grid (self : game) (x y : Z) : result (Z * Z) :=
  try grid_x := floordiv (x + offset_x self) (cell_size self) in
  try grid_y := floordiv (y + offset_y self) (cell_size self) in
  Ok (grid_x, grid_y).

(** ** Drawing *)

(** A rectangle as [pygame.draw.rect] receives it: left, top, width,
    height. *)
Definition rect : Type := Z * Z * Z * Z.

(** The rectangle [draw_grid] draws for the cell [(x, y)]. *)
Definition cell_rect (self : game) (x y : Z) : rect :=
  (x * cell_size self - offset_x self, y * cell_size self - offset_y self,
   cell_size self - 1, cell_size self - 1).

(** Python's [range(a, b)]. *)
Definition py_range (a b : Z) : list Z := seqZ a (b - a).

(** The inner loop of [draw_grid]: the rectangles of row [y], in the
    order they are drawn. *)
Fixpoint draw_row (self : game) (y : Z) (xs : list Z) : result (list rect) :=
  match xs with
  | [] => Ok []
  | x :: xs =>
      try v := Np.getZ (grid self) y x in
      try rest := draw_row self y xs in
      Ok (if v =? 1 then cell_rect self x y :: rest else rest)
  end.

(** The outer loop of [draw_grid]. *)
Fixpoint draw_rows (self : game) (ys xs : list Z) : result (list rect) :=
  match ys with
  | [] => Ok []
  | y :: ys =>
      try row := draw_row self y xs in
      try rest := draw_rows self ys xs in
      Ok (row ++ rest)
  end.

(** The visible cell ranges [draw_grid] computes: left, top, right,
    bottom. *)
Definition visible_range (self : game) : result (Z * Z * Z * Z) :=
  let grid_area_height := screen_height self - 50 in
  try q_left := floordiv (offset_x self) (cell_size self) in
  try q_top := floordiv (offset_y self) (cell_size self) in
  try q_right := floordiv (offset_x self + screen_width self) (cell_size self) in
  try q_bottom := floordiv (offset_y self + grid_area_height) (cell_size self) in
  Ok (Z.max 0 q_left, Z.max 0 q_top,
      Z.min (width self) (q_right + 1), Z.min (height self) (q_bottom + 1)).

(** [draw_grid]: the rectangles drawn over the cleared screen, in
    order. *)
Definition draw_grid (self : game) : result (list rect) :=
  try range := visible_range self in
  let '(c_left, c_top, c_right, c_bottom) := range in
  draw_rows self (py_range c_top c_bottom) (py_range c_left c_right).

(** [draw_ui]: the strip along the bottom of the window, the status
    line and the pixel at which it is blitted. *)
Definition draw_ui (self : game) : rect * string * (Z * Z) :=
  let ui_y := screen_height self - 50 in
  let status := (if paused self then "PAUSED" else "RUNNING")%string in
  let text :=
    ("Gen: " +:+ pretty (generation self) +:+ " | " +:+ status
     +:+ " | FPS: " +:+ pretty (fps self) +:+ " | "
     +:+ "[SPACE] Play/Pause | [R] Reset | [+/-] Speed | [C] Clear")%string in
  ((0, ui_y, screen_width self, 50), text, (10, ui_y + 15)).

(** ** InteractionController *)

(** The bounds check and the flip of [handle_mouse] (its last two
    lines), for the cell [(grid_x, grid_y)]. *)
Definition toggle_cell (self : game) (grid_x grid_y : Z) : result game :=
  if (0 <=? grid_x) && (grid_x <? width self)
     && (0 <=? grid_y) && (grid_y <? height self)
  then
    try v := Np.getZ (grid self) grid_y grid_x in
    try toggled := Np.set (grid self) grid_y grid_x (1 - v) in
    Ok (with_grid self toggled)
  else Ok self.

Definition handle_mouse (self : game) (pos : Z * Z) : result game :=
  let '(x, y) := pos in
  if y <? screen_height self - 50 then
    try cell := screen_to_grid self x y in
    toggle_cell self (fst cell) (snd cell)
  else Ok self.

Inductive key : Set :=
| K_SPACE | K_r | K_c | K_PLUS | K_EQUALS | K_MINUS
| K_LEFT | K_RIGHT | K_UP | K_DOWN | K_other.

(** The events [run] reacts to; a wheel event carries the mouse position
    that [pygame.mouse.get_pos()] reports when it is handled. *)
Inductive event : Type :=
| QUIT
| KEYDOWN (k : key)
| MOUSEBUTTONDOWN (pos : Z * Z)
| MOUSEWHEEL (y : Z) (mouse_pos : Z * Z)
| VIDEORESIZE (w h : Z)
| MOUSEBUTTONUP
| MOUSEMOTION (pos : Z * Z)
| OTHER.

(** What the loop of [run] holds: the object, the local [mouse_pressed]
    and the state of the random generator. *)
Record loop : Type := Loop {
  self : game;
  mouse_pressed : bool;
  gen : NpRandom.rng
}.

Definition handle_key (l : loop) (k : key) : result loop :=
  let s := self l in
  let keep s' := Ok (Loop s' (mouse_pressed l) (gen l)) in
  match k with
  | K_SPACE => keep (with_paused s (negb (paused s)))
  | K_r =>
      try r := reset (gen l) s default_density in
      Ok (Loop (fst r) (mouse_pressed l) (snd r))
  | K_c => try s' := clear s in keep s'
  | K_PLUS | K_EQUALS => keep (with_fps s (Z.min 60 (fps s + 5)))
  | K_MINUS => keep (with_fps s (Z.max 1 (fps s - 5)))
  | K_LEFT => keep (with_offset_x s (Z.max 0 (offset_x s - pan_speed s)))
  | K_RIGHT =>
      keep (clamp_offsets (with_offset_x s (offset_x s + pan_speed s)))
  | K_UP => keep (with_offset_y s (Z.max 0 (offset_y s - pan_speed s)))
  | K_DOWN =>
      keep (clamp_offsets (with_offset_y s (offset_y s + pan_speed s)))
  | K_other => keep s
  end.

Definition handle_event (l : loop) (ev : event) : result loop :=
  let s := self l in
  match ev with
  | QUIT => Ok (Loop (with_running s false) (mouse_pressed l) (gen l))
  | KEYDOWN k => handle_key l k
  | MOUSEBUTTONDOWN pos =>
      try s' := handle_mouse s pos in Ok (Loop s' true (gen l))
  | MOUSEWHEEL y (mx, my) =>
      let new_size :=
        if 0 <? y then Z.min (max_cell_size s) (cell_size s + 1)
        else Z.max (min_cell_size s) (cell_size s - 1) in
      try s' := zoom_at s mx my new_size in
      Ok (Loop s' (mouse_pressed l) (gen l))
  | VIDEORESIZE w h =>
      Ok (Loop (clamp_offsets (with_screen s w h)) (mouse_pressed l) (gen l))
  | MOUSEBUTTONUP => Ok (Loop s false (gen l))
  | MOUSEMOTION pos =>
      if mouse_pressed l
      then try s' := handle_mouse s pos in Ok (Loop s' (mouse_pressed l) (gen l))
      else Ok l
  | OTHER => Ok l
  end.

Fixpoint handle_events (l : loop) (evs : list event) : result loop :=
  match evs with
  | [] => Ok l
  | ev :: evs => try l' := handle_event l ev in handle_events l' evs
  end.

(** One iteration of the [while] loop: the pending events, one
    generation unless paused, then [draw_grid] and [draw_ui].  What
    they draw goes to the window with [display.flip] and is not read
    back; [clock.tick (fps)] waits and changes no field. *)
Definition frame (l : loop) (evs : list event) : result loop :=
  try l' := handle_events l evs in
  let l' := if paused (self l')
            then l'
            else Loop (step (self l')) (mouse_pressed l') (gen l') in
  try cells := draw_grid (self l') in
  let ui := draw_ui (self l') in
  Ok l'.

(** The [while self.running] loop of [run] over the events of
    successive frames: the state in which the loop is left, or the state
    after the last frame given. *)
Fixpoint run_loop (l : loop) (frames : list (list event)) : result loop :=
  match frames with
  | [] => Ok l
  | evs :: frames =>
      if running (self l)
      then try l' := frame l evs in run_loop l' frames
      else Ok l
  end.

(** [run]: the loop, entered with [mouse_pressed = False]; once
    [running] is cleared the loop is left and [pygame.quit(); sys.exit()]
    raises SystemExit, so [run] never returns normally.  [Ok l] stands
    for a run that has used up the frames given and is still looping, in
    the state [l]. *)
Definition run (g : NpRandom.rng) (s : game) (frames : list (list event))
  : result loop :=
  try l := run_loop (Loop s false g) frames in
  if running (self l) then Ok l else Raise SystemExit.

(** ** Well-formed objects *)

(** The two states of a cell. *)
Definition DEAD_CELL : Z := 0.
Definition ALIVE_CELL : Z := 1.

Definition binary (a : Np.ndarray Z) : Prop :=
  Forall (Forall (fun v => v = DEAD_CELL \/ v = ALIVE_CELL)) (Np.rows a).

(** What [__init__] establishes and every method keeps: the grid has
    the shape [(height, width)] and holds only 0 and 1. *)
Definition game_wf (s : game) : Prop :=
  Np.wf (grid s) /\
  Z.of_nat (Np.nrows (grid s)) = height s /\
  Z.of_nat (Np.ncols (grid s)) = width s /\
  binary (grid s).

(** The bounds [clamp_offsets] enforces. *)
Definition max_x (s : game) : Z :=
  Z.max 0 (width s * cell_size s - screen_width s).
Definition max_y (s : game) : Z :=
  Z.max 0 (height s * cell_size s - (screen_height s - 50)).

Definition offsets_in_range (s : game) : Prop :=
  0 <= offset_x s <= max_x s /\ 0 <= offset_y s <= max_y s.

(** A test object: what [__init__] builds, with a chosen grid. *)
Definition fixture (w h cs : Z) (cells : list (list Z)) : game :=
  Game w h cs (Np.Array (Z.to_nat h) (Z.to_nat w) cells)
    (w * cs) (h * cs + 50) true true 0 10 0 0 32 1 32.

(** What the viewport keeps: a non-negative pan step and offsets
    within their bounds. *)
Definition viewport_inv (s : game) : Prop :=
  0 <= pan_speed s /\ offsets_in_range s.

(** The states of the loop of [run]: from a constructed object, by any
    event and by any generation step. *)
Inductive reachable : loop -> Prop :=
| reach_init g w h cs d s0 g0 :
    init g w h cs d = Ok (s0, g0) -> reachable (Loop s0 false g0)
| reach_event l ev l' :
    reachable l -> handle_event l ev = Ok l' -> reachable l'
| reach_step l :
    reachable l -> reachable (Loop (step (self l)) (mouse_pressed l) (gen l)).

(** A test object with every cell DEAD. *)
Definition blank (w h cs : Z) : game :=
  fixture w h cs (replicate (Z.to_nat h) (replicate (Z.to_nat w) 0)).

(** A 100 x 100 grid at cell size 4 in a 50 x 100 window, panned right
    once. *)
Definition panned : game :=
  with_offset_x (with_screen (blank 100 100 4) 50 100) 32.

(** [zoomAt] in the words of the specification: the fractional grid
    coordinate of the focus, the new cell size clamped to
    [[min_cell_size, max_cell_size]], the offsets
    [round (grid * new_cell_size) - focus], then [clamp_offsets]. *)
Definition zoomAt_spec (s : game) (focus_x focus_y new_cell_size : Z) : game :=
  if new_cell_size =? cell_size s then s
  else
    let grid_x := (inject_Z (focus_x + offset_x s) / inject_Z (cell_size s))%Q in
    let grid_y := (inject_Z (focus_y + offset_y s) / inject_Z (cell_size s))%Q in
    let clamped := Z.max (min_cell_size s) (Z.min new_cell_size (max_cell_size s)) in
    let ox := PyFloat.rne (grid_x * inject_Z new_cell_size) - focus_x in
    let oy := PyFloat.rne (grid_y * inject_Z new_cell_size) - focus_y in
    clamp_offsets (with_offset_y (with_offset_x (with_cell_size s clamped) ox) oy).

(** Truncation toward zero: the floor of a non-negative number, the
    ceiling of a negative one. *)
Definition trunc (q : Q) : Z :=
  if Qle_bool 0 q then Qfloor q else Qceiling q.

(** The offset of the amended [zoomAt] on one axis, as a number: the
    quotient [(focus + offset) / old] rounded to the nearest float, its
    product with the new cell size rounded, the difference with the
    focus rounded, and that float truncated toward zero. *)
Definition zoomAt_offset (focus offset old new : Z) : Z :=
  let grid := PyFloat.RN (inject_Z (focus + offset) / inject_Z old) in
  let scaled := PyFloat.RN (grid * inject_Z new) in
  trunc (PyFloat.RN (scaled - inject_Z focus)).

(** The object of the amended [zoomAt] before its offsets are clamped:
    the new cell size as it is passed, each offset [zoomAt_offset]. *)
Definition zoomAt_recomputed (s : game) (focus_x focus_y new_cell_size : Z)
  : game :=
  Game (width s) (height s) new_cell_size (grid s)
    (screen_width s) (screen_height s) (running s) (paused s)
    (generation s) (fps s)
    (zoomAt_offset focus_x (offset_x s) (cell_size s) new_cell_size)
    (zoomAt_offset focus_y (offset_y s) (cell_size s) new_cell_size)
    (pan_speed s) (min_cell_size s) (max_cell_size s).

(** [zoomAt] as amended: the new cell size is taken as it is passed,
    each offset is [zoomAt_offset], brought into
    [[0, max (0, total - viewport)]] at the new cell size; no other
    field changes. *)
Definition zoomAt_amended (s : game) (focus_x focus_y new_cell_size : Z) : game :=
  if new_cell_size =? cell_size s then s
  else
    let ox := zoomAt_offset focus_x (offset_x s) (cell_size s) new_cell_size in
    let oy := zoomAt_offset focus_y (offset_y s) (cell_size s) new_cell_size in
    let bound_x := Z.max 0 (width s * new_cell_size - screen_width s) in
    let bound_y := Z.max 0 (height s * new_cell_size - (screen_height s - 50)) in
    Game (width s) (height s) new_cell_size (grid s)
      (screen_width s) (screen_height s) (running s) (paused s)
      (generation s) (fps s)
      (Z.max 0 (Z.min ox bound_x)) (Z.max 0 (Z.min oy bound_y))
      (pan_speed s) (min_cell_size s) (max_cell_size s).

(** The magnitudes for which the float arithmetic of [zoom_at] on one
    axis neither overflows nor loses an integer: the sum, the new cell
    size and the focus, and the product plus the focus, stay below
    2^53. *)
Definition zoom_in_range (focus offset new : Z) : Prop :=
  Z.abs (focus + offset) < 2 ^ 53 /\ Z.abs new < 2 ^ 53 /\
  Z.abs (focus + offset) * Z.abs new + Z.abs focus < 2 ^ 53.

(** [tab l n f]: the list [l] has length [n] and holds [f i] at [i]. *)
Definition tab {A} (l : list A) (n : nat) (f : nat -> A) : Prop :=
  length l = n /\ forall i, (i < n)%nat -> l !! i = Some (f i).

(** [shaped a h w f]: the array [a] has shape [(h, w)] and holds
    [f r c] at [(r, c)]. *)
Definition shaped {A} (a : Np.ndarray A) (h w : nat) (f : nat -> nat -> A) : Prop :=
  Np.nrows a = h /\ Np.ncols a = w /\
  exists R, tab (Np.rows a) h R /\ forall r, (r < h)%nat -> tab (R r) w (f r).

(** The cell [(r, c)] of an array, 0 outside it. *)
Definition val (a : Np.ndarray Z) (r c : nat) : Z := default 0 (Np.get a r c).

(** The cell at integer coordinates, DEAD outside the grid. *)
Definition cell_at (a : Np.ndarray Z) (r c : Z) : Z :=
  if (r <? 0) || (c <? 0) then DEAD_CELL
  else default DEAD_CELL (Np.get a (Z.to_nat r) (Z.to_nat c)).

(** The sum [count_neighbors] accumulates at a cell. *)
Definition neighbor_sum (g : Np.ndarray Z) (r c : Z) : Z :=
  cell_at g (r - 1) (c - 1) + cell_at g (r - 1) c + cell_at g (r - 1) (c + 1)
  + cell_at g r (c - 1) + cell_at g r (c + 1)
  + cell_at g (r + 1) (c - 1) + cell_at g (r + 1) c + cell_at g (r + 1) (c + 1).

(** The eight offsets of the Moore neighbourhood. *)
Definition moore : list (Z * Z) :=
  [(-1, -1); (-1, 0); (-1, 1); (0, -1); (0, 1); (1, -1); (1, 0); (1, 1)].

(** The number of ALIVE cells among the eight neighbours of [(r, c)],
    a neighbour outside the grid being DEAD. *)
Definition alive_neighbors (g : Np.ndarray Z) (r c : Z) : Z :=
  Z.of_nat (length (List.filter
    (fun d => cell_at g (r + fst d) (c + snd d) =? ALIVE_CELL) moore)).

(** The cell [step] writes at [(r, c)], from the old cell and its sum. *)
Definition next_cell (old n : Z) : Z :=
  if (old =? 0) && (n =? 3) then 1
  else if (old =? 1) && ((n =? 2) || (n =? 3)) then 1 else 0.

(** The viewport fields of an object. *)
Definition viewport_of (s : game) : Z * Z * Z * Z * Z * Z * Z * Z :=
  (width s, height s, cell_size s, screen_width s, screen_height s,
   offset_x s, offset_y s, pan_speed s).

(** The blinker on a 5 x 5 grid. *)
Definition blinker : game :=
  fixture 5 5 8
    [[0; 0; 0; 0; 0]; [0; 0; 1; 0; 0]; [0; 0; 1; 0; 0]; [0; 0; 1; 0; 0];
     [0; 0; 0; 0; 0]].

(** The states the loop reaches from a given one, by any event and by
    any generation step. *)
Inductive reachable_from (l0 : loop) : loop -> Prop :=
| from_here : reachable_from l0 l0
| from_event l ev l' :
    reachable_from l0 l -> handle_event l ev = Ok l' -> reachable_from l0 l'
| from_step l :
    reachable_from l0 l ->
    reachable_from l0 (Loop (step (self l)) (mouse_pressed l) (gen l)).

(** The grid fields of an object. *)
Definition engine_of (s : game) : Np.ndarray Z * Z * Z :=
  (grid s, height s, width s).

(** The frame rate and the generation counter stay in their ranges. *)
Definition control_inv (s : game) : Prop :=
  1 <= fps s <= 60 /\ 0 <= generation s.

(** The zoom limits are those set by [__init__] and the cell size lies
    between them. *)
Definition limits_inv (s : game) : Prop :=
  min_cell_size s = 1 /\ max_cell_size s = 32 /\ pan_speed s = 32 /\
  1 <= cell_size s <= 32.

(** The events the window system can deliver: a wheel event at a pixel
    with coordinates in [[0, 2^40)], a resize to a non-negative size. *)
Definition event_wf (ev : event) : Prop :=
  match ev with
  | MOUSEWHEEL _ (mx, my) => 0 <= mx < 2 ^ 40 /\ 0 <= my < 2 ^ 40
  | VIDEORESIZE w h => 0 <= w /\ 0 <= h
  | _ => True
  end.

(** What makes every event safe to handle. *)
Definition safe_inv (s : game) : Prop :=
  game_wf s /\ limits_inv s /\ offsets_in_range s /\
  0 <= screen_width s /\ 0 <= screen_height s /\
  width s < 2 ^ 40 /\ height s < 2 ^ 40.

(** An object with a cell size of 0, as [__init__] builds it: a
    well-formed grid and the zoom limits 1 and 32. *)
Definition zero_inv (s : game) : Prop :=
  game_wf s /\ cell_size s = 0 /\ min_cell_size s = 1 /\ max_cell_size s = 32.

(** Every cell of an array is DEAD. *)
Definition all_dead (g : Np.ndarray Z) : Prop :=
  forall r c, cell_at g r c = DEAD_CELL.

(** A generator that always draws 0. *)
Definition zeros_rng : NpRandom.rng := fun _ => 0%N.

(** The loop around the blinker, as [run] starts it. *)
Definition blinker_loop : loop := Loop blinker false zeros_rng.

(** The blinker once SPACE has started the simulation. *)
Definition blinker_playing : game := with_paused blinker false.

(** * Properties *)

(** The rounding of 1/3, as the hardware gives it. *)
Example RN_third :
  PyFloat.RN (1 # 3) = (inject_Z 6004799503160661 * PyFloat.pow2 (-54))%Q.
Proof. vm_compute. reflexivity. Qed.

(** ** Viewport *)

(** C9: [clamp_offsets] is idempotent: a second application changes
    nothing, so both offsets are those of the first. *)
Theorem clamp_offsets_idempotent (s : game) :
  clamp_offsets (clamp_offsets s) = clamp_offsets s.
Proof.
  destruct s; unfold clamp_offsets, with_offset_x, with_offset_y; simpl.
  f_equal; lia.
Qed.

(** C8: mapping a cell to its pixel and the pixel back to a cell gives
    the cell again, at every positive cell size and all offsets. *)
Theorem screen_to_grid_grid_to_screen (s : game) (x y : Z) :
  0 < cell_size s ->
  screen_to_grid s (fst (grid_to_screen s x y)) (snd (grid_to_screen s x y))
  = Ok (x, y).
Proof.
  intros Hcs. unfold screen_to_grid, grid_to_screen, floordiv; simpl.
  destruct (Z.eqb_spec (cell_size s) 0) as [E|_]; [lia|]. simpl.
  replace (x * cell_size s - offset_x s + offset_x s) with (x * cell_size s) by ring.
  replace (y * cell_size s - offset_y s + offset_y s) with (y * cell_size s) by ring.
  rewrite !Z.div_mul by lia. reflexivity.
Qed.

Lemma screen_to_grid_grid_to_screen_witness :
  screen_to_grid (fixture 5 4 8 []) (fst (grid_to_screen (fixture 5 4 8 []) 3 2))
    (snd (grid_to_screen (fixture 5 4 8 []) 3 2)) = Ok (3, 2).
Proof. apply (screen_to_grid_grid_to_screen (fixture 5 4 8 []) 3 2). simpl. lia. Defined.

(** Case analysis on the integer comparisons of a goal. *)
Ltac zbool :=
  repeat match goal with
    | |- context [?a <? ?b] => destruct (Z.ltb_spec a b)
    | |- context [?a <=? ?b] => destruct (Z.leb_spec a b)
    | |- context [?a =? ?b] => destruct (Z.eqb_spec a b)
    | |- context [(?a <? ?b)%nat] => destruct (Nat.ltb_spec a b)
    end;
  simpl; try lia; try reflexivity.

(** ** Arrays: reading and writing a cell *)

Lemma wf_row {A} (a : Np.ndarray A) (r : nat) (row : list A) :
  Np.wf a -> Np.rows a !! r = Some row -> length row = Np.ncols a.
Proof.
  intros [_ Hall] Hr. rewrite Forall_lookup in Hall. exact (Hall _ _ Hr).
Qed.

Lemma get_in_range {A} (a : Np.ndarray A) (r c : nat) :
  Np.wf a -> (r < Np.nrows a)%nat -> (c < Np.ncols a)%nat ->
  exists v, Np.get a r c = Some v.
Proof.
  intros Hwf Hr Hc. unfold Np.get.
  destruct (lookup_lt_is_Some_2 (Np.rows a) r) as [row Hrow].
  { destruct Hwf as [-> _]. exact Hr. }
  rewrite Hrow. apply lookup_lt_is_Some_2.
  rewrite (wf_row a r row Hwf Hrow). exact Hc.
Qed.

Lemma set_in_range {A} (a : Np.ndarray A) (r c : Z) (v : A) :
  Np.wf a -> 0 <= r < Z.of_nat (Np.nrows a) -> 0 <= c < Z.of_nat (Np.ncols a) ->
  exists a',
    Np.set a r c v = Ok a' /\
    Np.wf a' /\ Np.nrows a' = Np.nrows a /\ Np.ncols a' = Np.ncols a /\
    Np.get a' (Z.to_nat r) (Z.to_nat c) = Some v /\
    forall i j, (i, j) <> (Z.to_nat r, Z.to_nat c) -> Np.get a' i j = Np.get a i j.
Proof.
  intros Hwf Hr Hc. unfold Np.set.
  destruct (lookup_lt_is_Some_2 (Np.rows a) (Z.to_nat r)) as [row Hrow].
  { destruct Hwf as [-> _]. lia. }
  rewrite Hrow. pose proof (wf_row a _ row Hwf Hrow) as Hlen.
  destruct (Nat.ltb_spec (Z.to_nat c) (length row)) as [Hlt|Hge]; [|lia].
  eexists. split; [reflexivity|].
  assert (Hrl : (Z.to_nat r < length (Np.rows a))%nat)
    by (eapply lookup_lt_Some; eauto).
  repeat split; simpl.
  - rewrite length_insert. apply Hwf.
  - apply Forall_insert; [apply Hwf|]. rewrite length_insert. exact Hlen.
  - unfold Np.get; simpl. rewrite list_lookup_insert_eq by exact Hrl.
    apply list_lookup_insert_eq. exact Hlt.
  - intros i j Hne. unfold Np.get; simpl.
    destruct (decide (i = Z.to_nat r)) as [->|Hi].
    + rewrite list_lookup_insert_eq by exact Hrl. rewrite Hrow.
      apply list_lookup_insert_ne. congruence.
    + rewrite list_lookup_insert_ne by congruence. reflexivity.
Qed.

Lemma binary_get (a : Np.ndarray Z) (r c : nat) (v : Z) :
  binary a -> Np.get a r c = Some v -> v = DEAD_CELL \/ v = ALIVE_CELL.
Proof.
  unfold binary, Np.get. intros Hb Hg.
  destruct (Np.rows a !! r) as [row|] eqn:Hrow; [|discriminate].
  rewrite Forall_lookup in Hb. specialize (Hb _ _ Hrow).
  rewrite Forall_lookup in Hb. exact (Hb _ _ Hg).
Qed.

(** ** Mouse clicks *)

Lemma in_bounds_false (s : game) (gx gy : Z) :
  ~ (0 <= gx < width s /\ 0 <= gy < height s) ->
  (0 <=? gx) && (gx <? width s) && (0 <=? gy) && (gy <? height s) = false.
Proof.
  intros H. apply not_true_is_false. intros Ht.
  apply andb_prop in Ht as [Ht H4]. apply andb_prop in Ht as [Ht H3].
  apply andb_prop in Ht as [H1 H2]. apply H. lia.
Qed.

Lemma in_bounds_true (s : game) (gx gy : Z) :
  0 <= gx < width s -> 0 <= gy < height s ->
  (0 <=? gx) && (gx <? width s) && (0 <=? gy) && (gy <? height s) = true.
Proof.
  intros Hx Hy. repeat (apply andb_true_intro; split); lia.
Qed.

(** C7: a toggle outside [0,width) x [0,height) raises nothing and
    returns the object as it was; a toggle inside replaces exactly that
    cell by the other state, every other cell and the shape being kept.
    [handle_mouse] performs this toggle at the cell under the pixel. *)
Theorem toggle_cell_spec (s : game) (gx gy : Z) :
  (~ (0 <= gx < width s /\ 0 <= gy < height s) -> toggle_cell s gx gy = Ok s)
  /\
  (game_wf s -> 0 <= gx < width s -> 0 <= gy < height s ->
   exists v g',
     Np.get (grid s) (Z.to_nat gy) (Z.to_nat gx) = Some v /\
     toggle_cell s gx gy = Ok (with_grid s g') /\
     Np.get g' (Z.to_nat gy) (Z.to_nat gx) = Some (1 - v) /\
     (v = DEAD_CELL /\ 1 - v = ALIVE_CELL \/ v = ALIVE_CELL /\ 1 - v = DEAD_CELL) /\
     (forall r c, (r, c) <> (Z.to_nat gy, Z.to_nat gx) ->
                  Np.get g' r c = Np.get (grid s) r c) /\
     Np.nrows g' = Np.nrows (grid s) /\ Np.ncols g' = Np.ncols (grid s))
  /\
  (forall x y, y < screen_height s - 50 -> cell_size s <> 0 ->
     gx = (x + offset_x s) / cell_size s ->
     gy = (y + offset_y s) / cell_size s ->
     handle_mouse s (x, y) = toggle_cell s gx gy).
Proof.
  split; [|split].
  - intros Hout. unfold toggle_cell. rewrite in_bounds_false by exact Hout.
    reflexivity.
  - intros (Hwf & Hh & Hw & Hbin) Hx Hy.
    destruct (get_in_range (grid s) (Z.to_nat gy) (Z.to_nat gx) Hwf) as [v Hv];
      [lia|lia|].
    destruct (set_in_range (grid s) gy gx (1 - v) Hwf) as
      (g' & Hset & _ & Hnr & Hnc & Hget & Hother); [lia|lia|].
    exists v, g'. unfold toggle_cell. rewrite in_bounds_true by assumption.
    unfold Np.getZ. rewrite Hv. simpl. rewrite Hset. simpl.
    repeat split; try assumption.
    destruct (binary_get _ _ _ _ Hbin Hv) as [->| ->]; [left|right];
      unfold DEAD_CELL, ALIVE_CELL; lia.
  - intros x y Hy Hcs -> ->. unfold handle_mouse, screen_to_grid, floordiv.
    destruct (Z.ltb_spec y (screen_height s - 50)) as [_|?]; [|lia].
    destruct (Z.eqb_spec (cell_size s) 0) as [?|_]; [contradiction|].
    reflexivity.
Qed.

(** C10: a click at or below the top of the 50-pixel strip returns the
    object unchanged (no division is attempted either); the same holds
    when the click arrives as a button-down or drag event. *)
Theorem handle_mouse_ui_strip (s : game) (x y : Z) :
  screen_height s - 50 <= y ->
  handle_mouse s (x, y) = Ok s /\
  (forall l, self l = s ->
     handle_event l (MOUSEBUTTONDOWN (x, y)) = Ok (Loop s true (gen l)) /\
     (mouse_pressed l = true -> handle_event l (MOUSEMOTION (x, y)) = Ok l)).
Proof.
  intros Hy.
  assert (Hm : handle_mouse s (x, y) = Ok s).
  { unfold handle_mouse.
    destruct (Z.ltb_spec y (screen_height s - 50)) as [?|_]; [lia|reflexivity]. }
  split; [exact Hm|].
  intros [s0 mp g0] Hs; simpl in Hs; subst s0.
  unfold handle_event; cbn [self gen mouse_pressed]. rewrite Hm.
  split; [reflexivity|]. intros ->. reflexivity.
Qed.

(** ** Arrays as tables *)

Lemma tab_ext {A} (l : list A) n f g :
  tab l n f -> (forall i, (i < n)%nat -> f i = g i) -> tab l n g.
Proof.
  intros [Hl Hf] Hfg. split; [exact Hl|].
  intros i Hi. rewrite <- Hfg by exact Hi. auto.
Qed.

Lemma tab_replicate {A} n (x : A) : tab (replicate n x) n (fun _ => x).
Proof.
  split; [apply length_replicate|].
  intros i Hi. apply lookup_replicate_2. exact Hi.
Qed.

Lemma tab_map {A B} (g : A -> B) (l : list A) n f :
  tab l n f -> tab (map g l) n (fun i => g (f i)).
Proof.
  intros [Hl Hf]. change (map g l) with (g <$> l). split.
  - rewrite length_fmap. exact Hl.
  - intros i Hi. rewrite list_lookup_fmap, Hf by exact Hi. reflexivity.
Qed.

Lemma tab_zip_with {A B C} (op : A -> B -> C) l k n f g :
  tab l n f -> tab k n g -> tab (zip_with op l k) n (fun i => op (f i) (g i)).
Proof.
  intros [Hl Hf] [Hk Hg]. split.
  - rewrite length_zip_with. lia.
  - intros i Hi. rewrite lookup_zip_with, Hf, Hg by exact Hi. reflexivity.
Qed.

Lemma tab_seq_map {A} (g : nat -> A) n : tab (map g (seq 0 n)) n g.
Proof.
  change (map g (seq 0 n)) with (g <$> seq 0 n). split.
  - rewrite length_fmap. apply length_seq.
  - intros i Hi. rewrite list_lookup_fmap, lookup_seq_lt by exact Hi.
    reflexivity.
Qed.

Lemma tab_slice {A} (l : list A) n f (start stop : Z) m :
  tab l n f -> 0 <= start -> stop = start + Z.of_nat m ->
  stop <= Z.of_nat n ->
  tab (Np.slice l start stop) m (fun i => f (Z.to_nat start + i)%nat).
Proof.
  intros [Hl Hf] H0 -> Hle. unfold Np.slice, Np.slice_len, Np.slice_start.
  rewrite Hl. unfold Np.slice_bound.
  destruct (Z.ltb_spec start 0) as [?|_]; [lia|].
  destruct (Z.ltb_spec (start + Z.of_nat m) 0) as [?|_]; [lia|].
  rewrite !Z.min_l by lia.
  replace (Z.to_nat (start + Z.of_nat m - start)) with m by lia.
  split.
  - rewrite length_take, length_drop. lia.
  - intros i Hi. rewrite lookup_take_lt, lookup_drop by exact Hi.
    apply Hf. lia.
Qed.

Lemma shaped_wf {A} (a : Np.ndarray A) h w f : shaped a h w f -> Np.wf a.
Proof.
  intros (Hh & Hw & R & [Hl HR] & Hrow). split; [lia|].
  apply Forall_lookup. intros r row Hr.
  assert (Hlt : (r < h)%nat) by (rewrite <- Hl; eapply lookup_lt_Some; eauto).
  rewrite HR in Hr by exact Hlt. injection Hr as <-.
  rewrite Hw. apply (Hrow r Hlt).
Qed.

Lemma shaped_get {A} (a : Np.ndarray A) h w f r c :
  shaped a h w f -> (r < h)%nat -> (c < w)%nat -> Np.get a r c = Some (f r c).
Proof.
  intros (_ & _ & R & [_ HR] & Hrow) Hr Hc. unfold Np.get.
  rewrite HR by exact Hr. apply (Hrow r Hr). exact Hc.
Qed.

Lemma shaped_get_None {A} (a : Np.ndarray A) h w f r c :
  shaped a h w f -> (h <= r)%nat \/ (w <= c)%nat -> Np.get a r c = None.
Proof.
  intros (_ & _ & R & [Hl HR] & Hrow) Hout. unfold Np.get.
  destruct (Np.rows a !! r) as [row|] eqn:Hr; [|reflexivity].
  assert (Hlt : (r < h)%nat) by (rewrite <- Hl; eapply lookup_lt_Some; eauto).
  rewrite HR in Hr by exact Hlt. injection Hr as <-.
  apply lookup_ge_None_2. destruct (Hrow r Hlt) as [-> _]. lia.
Qed.

Lemma shaped_ext {A} (a : Np.ndarray A) h w f g :
  shaped a h w f ->
  (forall r c, (r < h)%nat -> (c < w)%nat -> f r c = g r c) ->
  shaped a h w g.
Proof.
  intros (Hh & Hw & R & HR & Hrow) Hfg. split; [exact Hh|]. split; [exact Hw|].
  exists R. split; [exact HR|]. intros r Hr.
  eapply tab_ext; [apply Hrow, Hr|]. intros c Hc. apply Hfg; assumption.
Qed.

(** Every well-formed array is the table of its own cells. *)
Lemma wf_shaped (a : Np.ndarray Z) :
  Np.wf a -> shaped a (Np.nrows a) (Np.ncols a) (val a).
Proof.
  intros [Hl Hall]. split; [reflexivity|]. split; [reflexivity|].
  exists (fun r => default [] (Np.rows a !! r)).
  assert (Hrows : forall r, (r < Np.nrows a)%nat ->
            exists row, Np.rows a !! r = Some row).
  { intros r Hr. apply lookup_lt_is_Some_2. lia. }
  split.
  - split; [exact Hl|]. intros r Hr. destruct (Hrows r Hr) as [row ->].
    reflexivity.
  - intros r Hr. destruct (Hrows r Hr) as [row Hrow]. rewrite Hrow. simpl.
    rewrite Forall_lookup in Hall. pose proof (Hall _ _ Hrow) as Hlen.
    split; [exact Hlen|]. intros c Hc. unfold val, Np.get. rewrite Hrow.
    destruct (lookup_lt_is_Some_2 row c) as [v Hv]; [lia|].
    rewrite Hv. reflexivity.
Qed.

Lemma shaped_map {A B} (g : A -> B) (a : Np.ndarray A) h w f :
  shaped a h w f ->
  shaped (Np.Array h w (map (map g) (Np.rows a))) h w (fun r c => g (f r c)).
Proof.
  intros (_ & _ & R & HR & Hrow). split; [reflexivity|]. split; [reflexivity|].
  exists (fun r => map g (R r)). split.
  - apply (tab_map (map g)), HR.
  - intros r Hr. apply tab_map, Hrow, Hr.
Qed.

Lemma shaped_zip_with {A B C} (op : A -> B -> C) a b h w f g :
  shaped a h w f -> shaped b h w g ->
  shaped (Np.Array h w (zip_with (zip_with op) (Np.rows a) (Np.rows b))) h w
    (fun r c => op (f r c) (g r c)).
Proof.
  intros (_ & _ & Ra & HRa & Hrowa) (_ & _ & Rb & HRb & Hrowb).
  split; [reflexivity|]. split; [reflexivity|].
  exists (fun r => zip_with op (Ra r) (Rb r)). split.
  - apply (tab_zip_with (zip_with op)); assumption.
  - intros r Hr. apply tab_zip_with; auto.
Qed.

(** ** The numpy operations, cell by cell *)

Lemma shaped_zeros_like (a : Np.ndarray Z) :
  shaped (Np.zeros_like a) (Np.nrows a) (Np.ncols a) (fun _ _ => 0).
Proof.
  split; [reflexivity|]. split; [reflexivity|].
  exists (fun _ => replicate (Np.ncols a) 0). split.
  - apply tab_replicate.
  - intros r _. apply tab_replicate.
Qed.

Lemma tab_pad_row (row : list Z) w f :
  tab row w f ->
  tab (0 :: row ++ [0]) (S (S w))
    (fun j => match j with
              | O => 0
              | S j' => if (j' <? w)%nat then f j' else 0
              end).
Proof.
  intros [Hl Hf]. split.
  - simpl. rewrite length_app. simpl. lia.
  - intros [|j] Hj; [reflexivity|]. simpl.
    destruct (Nat.ltb_spec j w) as [Hlt|Hge].
    + rewrite lookup_app_l by lia. apply Hf, Hlt.
    + rewrite lookup_app_r by lia.
      replace (j - length row)%nat with 0%nat by lia. reflexivity.
Qed.

Lemma cell_at_shaped (a : Np.ndarray Z) h w f (r c : Z) :
  shaped a h w f ->
  cell_at a r c =
    if (0 <=? r) && (r <? Z.of_nat h) && (0 <=? c) && (c <? Z.of_nat w)
    then f (Z.to_nat r) (Z.to_nat c) else DEAD_CELL.
Proof.
  intros Hs. unfold cell_at.
  destruct (Z.ltb_spec r 0), (Z.leb_spec 0 r); try lia; simpl; [reflexivity|].
  destruct (Z.ltb_spec c 0), (Z.leb_spec 0 c); try lia; simpl;
    [rewrite andb_false_r; reflexivity|].
  destruct (Z.ltb_spec r (Z.of_nat h)), (Z.ltb_spec c (Z.of_nat w)); simpl.
  - rewrite (shaped_get a h w f) by (assumption || lia). reflexivity.
  - rewrite (shaped_get_None a h w f) by (assumption || lia). reflexivity.
  - rewrite (shaped_get_None a h w f) by (assumption || lia). reflexivity.
  - rewrite (shaped_get_None a h w f) by (assumption || lia). reflexivity.
Qed.

(** The padded array holds the grid shifted by one, DEAD around it. *)
Lemma shaped_pad (a : Np.ndarray Z) h w f :
  shaped a h w f ->
  shaped (Np.pad a) (S (S h)) (S (S w))
    (fun i j => cell_at a (Z.of_nat i - 1) (Z.of_nat j - 1)).
Proof.
  intros Hs. pose proof Hs as (Hh & Hw & R & [Hl HR] & Hrow).
  unfold Np.pad. rewrite Hh, Hw.
  split; [reflexivity|]. split; [reflexivity|].
  set (blank := replicate (S (S w)) 0).
  exists (fun i => match i with
                   | O => blank
                   | S i' => if (i' <? h)%nat then 0 :: R i' ++ [0] else blank
                   end).
  split.
  - split.
    + simpl. rewrite length_app. change (map ?g ?l) with (g <$> l).
      rewrite length_fmap. simpl. lia.
    + intros [|i] Hi; [reflexivity|]. simpl. change (map ?g ?l) with (g <$> l).
      destruct (Nat.ltb_spec i h) as [Hlt|Hge].
      * rewrite lookup_app_l by (rewrite length_fmap; lia).
        rewrite list_lookup_fmap, HR by exact Hlt. reflexivity.
      * rewrite lookup_app_r by (rewrite length_fmap; lia).
        rewrite length_fmap. replace (i - length (Np.rows a))%nat with 0%nat by lia.
        reflexivity.
  - intros i Hi. destruct i as [|i'].
    + eapply tab_ext; [apply tab_replicate|]. intros j _. reflexivity.
    + destruct (Nat.ltb_spec i' h) as [Hlt|Hge].
      * eapply tab_ext; [apply tab_pad_row, Hrow, Hlt|].
        intros j Hj. rewrite (cell_at_shaped a h w f) by exact Hs.
        destruct j as [|j'].
        -- zbool.
        -- replace (Z.to_nat (Z.of_nat (S i') - 1)) with i' by lia.
           replace (Z.to_nat (Z.of_nat (S j') - 1)) with j' by lia.
           zbool.
      * eapply tab_ext; [apply tab_replicate|]. intros j _.
        rewrite (cell_at_shaped a h w f) by exact Hs. zbool.
Qed.

Lemma slice_len_exact (n start stop : Z) (m : nat) :
  0 <= start -> stop = start + Z.of_nat m -> stop <= n ->
  Np.slice_len n start stop = m.
Proof.
  intros H0 -> Hle. unfold Np.slice_len, Np.slice_bound. zbool.
Qed.

Lemma shaped_slice2 {A} (p : Np.ndarray A) H W F (r0 r1 c0 c1 : Z) h w :
  shaped p H W F ->
  0 <= r0 -> r1 = r0 + Z.of_nat h -> r1 <= Z.of_nat H ->
  0 <= c0 -> c1 = c0 + Z.of_nat w -> c1 <= Z.of_nat W ->
  shaped (Np.slice2 p r0 r1 c0 c1) h w
    (fun r c => F (Z.to_nat r0 + r)%nat (Z.to_nat c0 + c)%nat).
Proof.
  intros (HH & HW & R & HR & Hrow) Hr0 Hr1 HrH Hc0 Hc1 HcW.
  unfold Np.slice2. rewrite HH, HW.
  rewrite (slice_len_exact _ r0 r1 h), (slice_len_exact _ c0 c1 w) by assumption.
  split; [reflexivity|]. split; [reflexivity|].
  exists (fun r => Np.slice (R (Z.to_nat r0 + r)%nat) c0 c1). split.
  - apply (tab_map (fun r => Np.slice r c0 c1)).
    apply (tab_slice _ H); assumption.
  - intros r Hr.
    apply (tab_slice _ W (F (Z.to_nat r0 + r)%nat)); try assumption.
    apply Hrow. lia.
Qed.

Lemma shaped_iadd (a b : Np.ndarray Z) h w f g :
  shaped a h w f -> shaped b h w g ->
  shaped (Np.iadd a b) h w (fun r c => f r c + g r c).
Proof.
  intros Ha Hb. unfold Np.iadd.
  destruct Ha as (Hh & Hw & Ha'). rewrite Hh, Hw.
  apply (shaped_zip_with (A:=Z) (B:=Z) Z.add); [|exact Hb].
  split; [exact Hh|]. split; [exact Hw|]. exact Ha'.
Qed.

(** The window [(i, j)] of the padded grid, as [count_neighbors]
    slices it: the grid shifted by [(i - 1, j - 1)]. *)
Lemma shaped_window (s : game) (g : Np.ndarray Z) h w f (i j : Z) :
  shaped g h w f -> height s = Z.of_nat h -> width s = Z.of_nat w ->
  0 <= i <= 2 -> 0 <= j <= 2 ->
  shaped (Np.slice2 (Np.pad g) i (i + height s) j (j + width s)) h w
    (fun r c => cell_at g (Z.of_nat r + (i - 1)) (Z.of_nat c + (j - 1))).
Proof.
  intros Hg Hh Hw Hi Hj. rewrite Hh, Hw.
  eapply shaped_ext.
  - eapply (shaped_slice2 (Np.pad g) (S (S h)) (S (S w)));
      [apply (shaped_pad g h w f Hg)| |reflexivity| | |reflexivity|]; lia.
  - intros r c _ _. simpl. f_equal; lia.
Qed.

Lemma count_neighbors_shaped (s : game) (g : Np.ndarray Z) h w f :
  shaped g h w f -> height s = Z.of_nat h -> width s = Z.of_nat w ->
  shaped (count_neighbors s g) h w
    (fun r c => neighbor_sum g (Z.of_nat r) (Z.of_nat c)).
Proof.
  intros Hg Hh Hw. unfold count_neighbors. cbn [fold_left Z.eqb andb].
  pose proof (fun i j => shaped_window s g h w f i j Hg Hh Hw) as Hwin.
  assert (H0 : shaped (Np.zeros_like g) h w (fun _ _ => 0)).
  { destruct Hg as (<- & <- & _). apply shaped_zeros_like. }
  eapply shaped_ext.
  - repeat (apply shaped_iadd; [|apply Hwin; lia]). exact H0.
  - intros r c _ _. unfold neighbor_sum. cbn beta.
    replace (Z.of_nat r + (0 - 1)) with (Z.of_nat r - 1) by lia.
    replace (Z.of_nat c + (0 - 1)) with (Z.of_nat c - 1) by lia.
    replace (Z.of_nat r + (1 - 1)) with (Z.of_nat r) by lia.
    replace (Z.of_nat c + (1 - 1)) with (Z.of_nat c) by lia.
    replace (Z.of_nat r + (2 - 1)) with (Z.of_nat r + 1) by lia.
    replace (Z.of_nat c + (2 - 1)) with (Z.of_nat c + 1) by lia.
    lia.
Qed.

Lemma shaped_eq_scalar (a : Np.ndarray Z) h w f k :
  shaped a h w f -> shaped (Np.eq_scalar a k) h w (fun r c => f r c =? k).
Proof.
  intros Ha. unfold Np.eq_scalar. pose proof Ha as (-> & -> & _).
  apply (shaped_map (fun v => v =? k)), Ha.
Qed.

Lemma shaped_band (a b : Np.ndarray bool) h w f g :
  shaped a h w f -> shaped b h w g ->
  shaped (Np.band a b) h w (fun r c => f r c && g r c).
Proof.
  intros Ha Hb. unfold Np.band. pose proof Ha as (-> & -> & _).
  apply (shaped_zip_with andb); assumption.
Qed.

Lemma shaped_bor (a b : Np.ndarray bool) h w f g :
  shaped a h w f -> shaped b h w g ->
  shaped (Np.bor a b) h w (fun r c => f r c || g r c).
Proof.
  intros Ha Hb. unfold Np.bor. pose proof Ha as (-> & -> & _).
  apply (shaped_zip_with orb); assumption.
Qed.

Lemma shaped_set_mask (a : Np.ndarray Z) (m : Np.ndarray bool) h w f g v :
  shaped a h w f -> shaped m h w g ->
  shaped (Np.set_mask a m v) h w (fun r c => if g r c then v else f r c).
Proof.
  intros Ha Hm. unfold Np.set_mask. pose proof Ha as (-> & -> & _).
  apply (shaped_zip_with (fun x (b : bool) => if b then v else x)); assumption.
Qed.

(** ** The generation rule *)

Lemma cell_at_binary (g : Np.ndarray Z) (r c : Z) :
  binary g -> cell_at g r c = DEAD_CELL \/ cell_at g r c = ALIVE_CELL.
Proof.
  intros Hb. unfold cell_at.
  destruct ((r <? 0) || (c <? 0)); [left; reflexivity|].
  destruct (Np.get g (Z.to_nat r) (Z.to_nat c)) as [v|] eqn:Hv.
  - exact (binary_get _ _ _ _ Hb Hv).
  - left. reflexivity.
Qed.

Lemma neighbor_sum_alive (g : Np.ndarray Z) (r c : Z) :
  binary g -> neighbor_sum g r c = alive_neighbors g r c.
Proof.
  intros Hb. unfold neighbor_sum, alive_neighbors, moore.
  cbn [List.filter fst snd].
  replace (r + 0) with r by lia. replace (c + 0) with c by lia.
  replace (r + -1) with (r - 1) by lia. replace (c + -1) with (c - 1) by lia.
  destruct (cell_at_binary g (r - 1) (c - 1) Hb) as [-> | ->],
           (cell_at_binary g (r - 1) c Hb) as [-> | ->],
           (cell_at_binary g (r - 1) (c + 1) Hb) as [-> | ->],
           (cell_at_binary g r (c - 1) Hb) as [-> | ->],
           (cell_at_binary g r (c + 1) Hb) as [-> | ->],
           (cell_at_binary g (r + 1) (c - 1) Hb) as [-> | ->],
           (cell_at_binary g (r + 1) c Hb) as [-> | ->],
           (cell_at_binary g (r + 1) (c + 1) Hb) as [-> | ->];
    reflexivity.
Qed.

Lemma step_grid_shaped (s : game) h w f :
  shaped (grid s) h w f -> height s = Z.of_nat h -> width s = Z.of_nat w ->
  shaped (grid (step s)) h w
    (fun r c => next_cell (f r c) (neighbor_sum (grid s) (Z.of_nat r) (Z.of_nat c))).
Proof.
  intros Hg Hh Hw. unfold step. cbn [grid with_grid with_generation].
  pose proof (count_neighbors_shaped s (grid s) h w f Hg Hh Hw) as Hn.
  assert (H0 : shaped (Np.zeros_like (grid s)) h w (fun _ _ => 0)).
  { destruct Hg as (<- & <- & _). apply shaped_zeros_like. }
  eapply shaped_ext.
  - apply shaped_set_mask.
    + apply shaped_set_mask; [exact H0|].
      apply shaped_band; [apply shaped_eq_scalar, Hg|].
      apply shaped_bor; apply shaped_eq_scalar, Hn.
    + apply shaped_band; apply shaped_eq_scalar; [exact Hg|exact Hn].
  - intros r c _ _. reflexivity.
Qed.

Lemma shaped_binary (a : Np.ndarray Z) h w f :
  shaped a h w f ->
  (forall r c, (r < h)%nat -> (c < w)%nat -> f r c = DEAD_CELL \/ f r c = ALIVE_CELL) ->
  binary a.
Proof.
  intros (_ & _ & R & [Hl HR] & Hrow) Hf. unfold binary.
  apply Forall_lookup. intros r row Hr.
  assert (Hlt : (r < h)%nat) by (rewrite <- Hl; eapply lookup_lt_Some; eauto).
  rewrite HR in Hr by exact Hlt. injection Hr as <-.
  destruct (Hrow r Hlt) as [Hlen Hc].
  apply Forall_lookup. intros c v Hv.
  assert (Hclt : (c < w)%nat) by (rewrite <- Hlen; eapply lookup_lt_Some; eauto).
  rewrite Hc in Hv by exact Hclt. injection Hv as <-. auto.
Qed.

Lemma next_cell_binary (old n : Z) :
  next_cell old n = DEAD_CELL \/ next_cell old n = ALIVE_CELL.
Proof.
  unfold next_cell, DEAD_CELL, ALIVE_CELL.
  destruct ((old =? 0) && (n =? 3)); [right; reflexivity|].
  destruct ((old =? 1) && ((n =? 2) || (n =? 3))); [right|left]; reflexivity.
Qed.

Lemma next_cell_rule (old n : Z) :
  next_cell old n = ALIVE_CELL <->
  (old = ALIVE_CELL /\ (n = 2 \/ n = 3)) \/ (old = DEAD_CELL /\ n = 3).
Proof.
  unfold next_cell, DEAD_CELL, ALIVE_CELL.
  destruct (Z.eqb_spec old 0), (Z.eqb_spec old 1), (Z.eqb_spec n 2),
    (Z.eqb_spec n 3); simpl; split; intros; try lia; try discriminate.
Qed.

(** C1: on a well-formed object [step] keeps the shape and the two cell
    states, makes a cell ALIVE exactly when it was ALIVE with 2 or 3
    ALIVE Moore neighbours or DEAD with exactly 3 (cells outside the
    grid DEAD, every count taken on the grid before the step), and adds
    one to the generation counter. *)
Theorem step_rule (s : game) :
  game_wf s ->
  game_wf (step s) /\
  generation (step s) = generation s + 1 /\
  forall r c, 0 <= r < height s -> 0 <= c < width s ->
    (cell_at (grid (step s)) r c = ALIVE_CELL <->
       (cell_at (grid s) r c = ALIVE_CELL /\
        (alive_neighbors (grid s) r c = 2 \/ alive_neighbors (grid s) r c = 3))
       \/
       (cell_at (grid s) r c = DEAD_CELL /\ alive_neighbors (grid s) r c = 3)).
Proof.
  intros (Hwf & Hh & Hw & Hbin).
  pose proof (wf_shaped (grid s) Hwf) as Hg.
  pose proof (step_grid_shaped s _ _ _ Hg (eq_sym Hh) (eq_sym Hw)) as Hs.
  split; [|split].
  - split; [exact (shaped_wf _ _ _ _ Hs)|].
    pose proof Hs as (Hnr & Hnc & _).
    split; [rewrite Hnr; exact Hh|]. split; [rewrite Hnc; exact Hw|].
    eapply shaped_binary; [exact Hs|]. intros. apply next_cell_binary.
  - reflexivity.
  - intros r c Hr Hc.
    rewrite (cell_at_shaped _ _ _ _ r c Hs), (cell_at_shaped _ _ _ _ r c Hg).
    destruct (Z.leb_spec 0 r), (Z.ltb_spec r (Z.of_nat (Np.nrows (grid s)))),
      (Z.leb_spec 0 c), (Z.ltb_spec c (Z.of_nat (Np.ncols (grid s)))); try lia.
    cbn [andb]. rewrite !Z2Nat.id by lia.
    rewrite (neighbor_sum_alive _ _ _ Hbin).
    apply next_cell_rule.
Qed.

(** ** Rounding to nearest *)

Module PyFloatFacts.

Import PyFloat.
Local Open Scope Q_scope.

Lemma pow2_pos e : 0 < pow2 e.
Proof. unfold pow2. apply Qpower_0_lt. reflexivity. Qed.

Lemma pow2_add a b : pow2 (a + b) == pow2 a * pow2 b.
Proof. unfold pow2. apply Qpower_plus. discriminate. Qed.

Lemma pow2_Z e : (0 <= e)%Z -> pow2 e == inject_Z (2 ^ e).
Proof. intros He. unfold pow2. rewrite Zpower_Qpower by exact He. reflexivity. Qed.

Lemma pow2_le a b : (a <= b)%Z -> pow2 a <= pow2 b.
Proof. intros H. unfold pow2. apply Qpower_le_compat_l; [exact H|discriminate]. Qed.

Lemma pow2_lt a b : (a < b)%Z -> pow2 a < pow2 b.
Proof. intros H. unfold pow2. apply Qpower_lt_compat_l; [exact H|reflexivity]. Qed.

Lemma pow2_le_inv a b : pow2 a <= pow2 b -> (a <= b)%Z.
Proof. intros H. apply (Qpower_le_compat_l_inv 2); [exact H|reflexivity]. Qed.

Lemma pow2_lt_inv a b : pow2 a < pow2 b -> (a < b)%Z.
Proof. intros H. apply (Qpower_lt_compat_l_inv 2); [exact H|reflexivity]. Qed.

Lemma scale_back y e : y / pow2 e * pow2 e == y.
Proof. field. pose proof (pow2_pos e). lra. Qed.

Lemma ilog2_spec y : 0 < y -> pow2 (ilog2 y) <= y /\ y < pow2 (ilog2 y + 1).
Proof.
  intros Hy. destruct y as [n d]. unfold ilog2. cbn [Qnum Qden].
  assert (Hn : (0 < n)%Z).
  { unfold Qlt in Hy. simpl in Hy. lia. }
  set (a := Z.log2 n). set (b := Z.log2 (Z.pos d)).
  destruct (Z.log2_spec n Hn) as [Ha1 Ha2]. fold a in Ha1, Ha2.
  destruct (Z.log2_spec (Z.pos d) ltac:(lia)) as [Hb1 Hb2]. fold b in Hb1, Hb2.
  assert (Ha0 : (0 <= a)%Z) by apply Z.log2_nonneg.
  assert (Hb0 : (0 <= b)%Z) by apply Z.log2_nonneg.
  assert (Hy' : n # d == inject_Z n / inject_Z (Z.pos d)) by apply Qmake_Qdiv.
  assert (HD : 0 < inject_Z (Z.pos d)) by (rewrite <- (Zlt_Qlt 0); lia).
  assert (HnA : pow2 a <= inject_Z n) by (rewrite pow2_Z, <- Zle_Qle; lia).
  assert (HnB : inject_Z n < pow2 (a + 1)).
  { rewrite pow2_Z by lia. rewrite <- Zlt_Qlt. replace (a + 1)%Z with (Z.succ a) by lia. exact Ha2. }
  assert (HdA : pow2 b <= inject_Z (Z.pos d)) by (rewrite pow2_Z, <- Zle_Qle; lia).
  assert (HdB : inject_Z (Z.pos d) < pow2 (b + 1)).
  { rewrite pow2_Z by lia. rewrite <- Zlt_Qlt. replace (b + 1)%Z with (Z.succ b) by lia. exact Hb2. }
  assert (Hup : n # d < pow2 (a - b + 1)).
  { rewrite Hy'. apply Qlt_shift_div_r; [exact HD|].
    replace (a - b + 1)%Z with ((a + 1) + - b)%Z by lia.
    assert (E : pow2 (a + 1) == pow2 (a + 1 + - b) * pow2 b).
    { rewrite <- pow2_add. replace (a + 1 + - b + b)%Z with (a + 1)%Z by lia. reflexivity. }
    pose proof (pow2_pos (a + 1 + - b)). pose proof (pow2_pos b). nra. }
  assert (Hlo : pow2 (a - b - 1) < n # d).
  { rewrite Hy'. apply Qlt_shift_div_l; [exact HD|].
    assert (E : pow2 a == pow2 (a - b - 1) * pow2 (b + 1)).
    { rewrite <- pow2_add. replace (a - b - 1 + (b + 1))%Z with a by lia. reflexivity. }
    pose proof (pow2_pos (a - b - 1)). pose proof (pow2_pos (b + 1)). nra. }
  destruct (Qle_bool (pow2 (a - b)) (n # d)) eqn:Hc.
  - apply Qle_bool_iff in Hc. split; assumption.
  - split; [apply Qlt_le_weak; exact Hlo|].
    replace (a - b - 1 + 1)%Z with (a - b)%Z by lia.
    apply Qnot_le_lt. intros Hle. apply Qle_bool_iff in Hle. congruence.
Qed.

Lemma rne_floor z : (Qfloor z <= rne z <= Qfloor z + 1)%Z.
Proof.
  unfold rne. destruct (Qcompare _ _); [destruct (Z.even _)| |]; lia.
Qed.

Lemma rne_ge_Z K z : inject_Z K <= z -> (K <= rne z)%Z.
Proof.
  intros H. apply Qfloor_resp_le in H. rewrite Qfloor_Z in H.
  pose proof (rne_floor z). lia.
Qed.

Lemma rne_le_Z K z : z <= inject_Z K -> (rne z <= K)%Z.
Proof.
  intros H. pose proof (Qfloor_resp_le _ _ H) as Hf. rewrite Qfloor_Z in Hf.
  assert (Hcase : (Qfloor z < K)%Z -> (rne z <= K)%Z).
  { pose proof (rne_floor z). lia. }
  destruct (Z.eq_dec (Qfloor z) K) as [E|]; [|apply Hcase; lia].
  (* floor z = K and z <= K: z is the integer K *)
  pose proof (Qfloor_le z) as Hfl. rewrite E in Hfl.
  unfold rne. rewrite E.
  destruct (Qcompare_spec (z - inject_Z K) (1 # 2)) as [Heq|Hlt|Hgt]; try lia; lra.
Qed.

Lemma rne_err z : Qabs (inject_Z (rne z) - z) <= 1 # 2.
Proof.
  pose proof (Qfloor_le z) as Hlo. pose proof (Qlt_floor z) as Hhi.
  rewrite inject_Z_plus in Hhi. change (inject_Z 1) with 1 in Hhi.
  apply Qabs_Qle_condition. unfold rne.
  destruct (Qcompare_spec (z - inject_Z (Qfloor z)) (1 # 2)) as [Heq|Hlt|Hgt].
  - destruct (Z.even (Qfloor z)).
    + lra.
    + rewrite inject_Z_plus. change (inject_Z 1) with 1. lra.
  - lra.
  - rewrite inject_Z_plus. change (inject_Z 1) with 1. lra.
Qed.

Lemma RN_nonzero y :
  ~ y == 0 -> RN y = inject_Z (rne (y / pow2 (ulp_exp y))) * pow2 (ulp_exp y).
Proof.
  intros H. unfold RN. destruct (Qeq_bool y 0) eqn:E; [|reflexivity].
  apply Qeq_bool_iff in E. contradiction.
Qed.

Lemma RN_zero y : y == 0 -> RN y = 0.
Proof.
  intros H. unfold RN. apply Qeq_bool_iff in H. rewrite H. reflexivity.
Qed.

Lemma Qabs_pos_lt y : ~ y == 0 -> 0 < Qabs y.
Proof.
  intros H. apply Qabs_case; intros; lra.
Qed.

(** In a binade above 2^53 the value is at least 2^53 in magnitude. *)
Lemma ulp_exp_pos y :
  ~ y == 0 -> (0 < ulp_exp y)%Z ->
  pow2 52 * pow2 (ulp_exp y) <= Qabs y /\ 2 <= pow2 (ulp_exp y).
Proof.
  intros Hy He. unfold ulp_exp, prec, emin in *.
  destruct (ilog2_spec (Qabs y) (Qabs_pos_lt y Hy)) as [Hlo _].
  assert (E : Z.max (ilog2 (Qabs y) - (53 - 1)) (-1074) = (ilog2 (Qabs y) - 52)%Z) by lia.
  rewrite E in *. split.
  - rewrite <- pow2_add. replace (52 + (ilog2 (Qabs y) - 52))%Z with (ilog2 (Qabs y)) by lia.
    exact Hlo.
  - change 2 with (pow2 1). apply pow2_le. lia.
Qed.

Lemma inject_Z_scale k e :
  (e <= 0)%Z -> inject_Z (k * 2 ^ (- e)) * pow2 e == inject_Z k.
Proof.
  intros He. rewrite inject_Z_mult, <- pow2_Z by lia.
  rewrite <- Qmult_assoc, <- pow2_add. replace (- e + e)%Z with 0%Z by lia.
  change (pow2 0) with 1. ring.
Qed.

Lemma RN_ge_Z k y : small k -> inject_Z k <= y -> inject_Z k <= RN y.
Proof.
  intros Hk Hky.
  destruct (Qeq_dec y 0) as [Hz|Hnz]; [rewrite RN_zero by exact Hz; lra|].
  rewrite RN_nonzero by exact Hnz.
  set (e := ulp_exp y). pose proof (pow2_pos e) as Hp.
  pose proof (scale_back y e) as Hback.
  destruct (Z_le_gt_dec e 0) as [He|He].
  - pose proof (inject_Z_scale k e He) as HK.
    assert (Hz : inject_Z (k * 2 ^ (- e)) <= y / pow2 e).
    { apply Qle_shift_div_l; [exact Hp|]. rewrite HK. exact Hky. }
    apply rne_ge_Z in Hz. rewrite Zle_Qle in Hz.
    rewrite <- HK. apply Qmult_le_compat_r; [exact Hz|lra].
  - destruct (ulp_exp_pos y Hnz ltac:(fold e; lia)) as [Hbig H2]. fold e in Hbig, H2.
    assert (Hk' : inject_Z k < pow2 52 * 2).
    { change (pow2 52 * 2) with (inject_Z (2 ^ 53)). rewrite <- Zlt_Qlt. apply Hk. }
    assert (Hk'' : - (pow2 52 * 2) < inject_Z k).
    { change (- (pow2 52 * 2)) with (inject_Z (- 2 ^ 53)). rewrite <- Zlt_Qlt. apply Hk. }
    pose proof (pow2_pos 52) as H52.
    revert Hbig. apply Qabs_case; intros Hs Hbig.
    + assert (Hz : inject_Z (2 ^ 52) <= y / pow2 e).
      { apply Qle_shift_div_l; [exact Hp|]. rewrite <- pow2_Z by lia. exact Hbig. }
      apply rne_ge_Z in Hz. rewrite Zle_Qle in Hz. rewrite <- pow2_Z in Hz by lia.
      assert (pow2 52 * pow2 e <= inject_Z (rne (y / pow2 e)) * pow2 e)
        by (apply Qmult_le_compat_r; [exact Hz|lra]).
      nra.
    + nra.
Qed.

Lemma RN_le_Z k y : small k -> y <= inject_Z k -> RN y <= inject_Z k.
Proof.
  intros Hk Hky.
  destruct (Qeq_dec y 0) as [Hz|Hnz]; [rewrite RN_zero by exact Hz; lra|].
  rewrite RN_nonzero by exact Hnz.
  set (e := ulp_exp y). pose proof (pow2_pos e) as Hp.
  pose proof (scale_back y e) as Hback.
  destruct (Z_le_gt_dec e 0) as [He|He].
  - pose proof (inject_Z_scale k e He) as HK.
    assert (Hz : y / pow2 e <= inject_Z (k * 2 ^ (- e))).
    { apply Qle_shift_div_r; [exact Hp|]. rewrite HK. exact Hky. }
    apply rne_le_Z in Hz. rewrite Zle_Qle in Hz.
    rewrite <- HK. apply Qmult_le_compat_r; [exact Hz|lra].
  - destruct (ulp_exp_pos y Hnz ltac:(fold e; lia)) as [Hbig H2]. fold e in Hbig, H2.
    assert (Hk' : inject_Z k < pow2 52 * 2).
    { change (pow2 52 * 2) with (inject_Z (2 ^ 53)). rewrite <- Zlt_Qlt. apply Hk. }
    assert (Hk'' : - (pow2 52 * 2) < inject_Z k).
    { change (- (pow2 52 * 2)) with (inject_Z (- 2 ^ 53)). rewrite <- Zlt_Qlt. apply Hk. }
    pose proof (pow2_pos 52) as H52.
    revert Hbig. apply Qabs_case; intros Hs Hbig.
    + nra.
    + assert (Hz : y / pow2 e <= inject_Z (- 2 ^ 52)).
      { apply Qle_shift_div_r; [exact Hp|].
        change (inject_Z (- 2 ^ 52)) with (- inject_Z (2 ^ 52)).
        rewrite <- pow2_Z by lia. lra. }
      apply rne_le_Z in Hz. rewrite Zle_Qle in Hz.
      change (inject_Z (- 2 ^ 52)) with (- inject_Z (2 ^ 52)) in Hz.
      rewrite <- pow2_Z in Hz by lia.
      assert (inject_Z (rne (y / pow2 e)) * pow2 e <= - pow2 52 * pow2 e)
        by (apply Qmult_le_compat_r; [exact Hz|lra]).
      nra.
Qed.

(** Rounding error, for values of magnitude at most 4. *)
Lemma RN_err y : Qabs y <= 4 -> Qabs (RN y - y) <= pow2 (-51).
Proof.
  intros Hy.
  destruct (Qeq_dec y 0) as [Hz|Hnz].
  { rewrite RN_zero by exact Hz. pose proof (pow2_pos (-51)).
    apply Qabs_Qle_condition. lra. }
  rewrite RN_nonzero by exact Hnz.
  set (e := ulp_exp y). pose proof (pow2_pos e) as Hp.
  pose proof (scale_back y e) as Hback.
  pose proof (rne_err (y / pow2 e)) as Herr.
  apply Qabs_Qle_condition in Herr.
  assert (He : (e <= -50)%Z).
  { unfold e, ulp_exp, prec, emin.
    destruct (ilog2_spec (Qabs y) (Qabs_pos_lt y Hnz)) as [Hlo _].
    assert (pow2 (ilog2 (Qabs y)) <= pow2 2) by (change (pow2 2) with 4; lra).
    apply pow2_le_inv in H. lia. }
  assert (Hp' : pow2 e <= pow2 (-50)) by (apply pow2_le; exact He).
  assert (E : pow2 (-50) == 2 * pow2 (-51)) by reflexivity.
  apply Qabs_Qle_condition. nra.
Qed.

(** A value in the normal range keeps its sign. *)
Lemma RN_neg y : y <= - pow2 (-52) -> RN y < 0.
Proof.
  intros Hy. pose proof (pow2_pos (-52)) as H52.
  assert (Hnz : ~ y == 0) by lra.
  rewrite RN_nonzero by exact Hnz.
  set (e := ulp_exp y). pose proof (pow2_pos e) as Hp.
  destruct (ilog2_spec (Qabs y) (Qabs_pos_lt y Hnz)) as [Hlo Hhi].
  assert (Habs : Qabs y == - y) by (apply Qabs_neg; lra).
  assert (HL : (-52 <= ilog2 (Qabs y))%Z).
  { assert (pow2 (-52) < pow2 (ilog2 (Qabs y) + 1)) by lra.
    apply pow2_lt_inv in H. lia. }
  assert (Ee : e = (ilog2 (Qabs y) - 52)%Z) by (unfold e, ulp_exp, prec, emin; lia).
  assert (Hz : y / pow2 e <= inject_Z (- 2 ^ 52)).
  { apply Qle_shift_div_r; [exact Hp|].
    change (inject_Z (- 2 ^ 52)) with (- pow2 52).
    assert (pow2 52 * pow2 e == pow2 (ilog2 (Qabs y))).
    { rewrite <- pow2_add, Ee. replace (52 + (ilog2 (Qabs y) - 52))%Z with (ilog2 (Qabs y)) by lia.
      reflexivity. }
    nra. }
  apply rne_le_Z in Hz. rewrite Zle_Qle in Hz.
  change (inject_Z (- 2 ^ 52)) with (- pow2 52) in Hz.
  pose proof (pow2_pos 52). nra.
Qed.

Lemma representable_above_one q : representable q -> 1 < q -> 1 + pow2 (-52) <= q.
Proof.
  unfold representable. intros Hr Hq.
  assert (Hnz : ~ q == 0) by lra.
  rewrite RN_nonzero in Hr by exact Hnz.
  set (e := ulp_exp q) in *. set (m := rne (q / pow2 e)) in *.
  pose proof (pow2_pos e) as Hp.
  destruct (ilog2_spec (Qabs q) (Qabs_pos_lt q Hnz)) as [Hlo Hhi].
  assert (Habs : Qabs q == q) by (apply Qabs_pos; lra).
  assert (HL : (0 <= ilog2 (Qabs q))%Z).
  { assert (pow2 0 < pow2 (ilog2 (Qabs q) + 1)) by (change (pow2 0) with 1; lra).
    apply pow2_lt_inv in H. lia. }
  assert (He : (-52 <= e)%Z) by (unfold e, ulp_exp, prec, emin; lia).
  destruct (Z_le_gt_dec 0 e) as [Hpos|Hneg].
  - (* an integer above 1 *)
    assert (Hint : q == inject_Z (m * 2 ^ e)).
    { rewrite inject_Z_mult, <- pow2_Z by lia. symmetry. exact Hr. }
    assert (Hm : (2 <= m * 2 ^ e)%Z).
    { assert (inject_Z 1 < inject_Z (m * 2 ^ e)) by (change (inject_Z 1) with 1; lra).
      rewrite <- Zlt_Qlt in H. lia. }
    rewrite Zle_Qle in Hm. change (inject_Z 2) with 2 in Hm.
    assert (pow2 (-52) <= 1) by (change 1 with (pow2 0); apply pow2_le; lia).
    lra.
  - assert (Hone : pow2 (- e) * pow2 e == 1).
    { rewrite <- pow2_add. replace (- e + e)%Z with 0%Z by lia. reflexivity. }
    assert (Hm : inject_Z (2 ^ (- e)) < inject_Z m).
    { rewrite <- pow2_Z by lia.
      apply (Qmult_lt_r _ _ (pow2 e) Hp). lra. }
    rewrite <- Zlt_Qlt in Hm.
    assert (Hm' : (2 ^ (- e) + 1 <= m)%Z) by lia.
    rewrite Zle_Qle, inject_Z_plus, <- pow2_Z in Hm' by lia.
    change (inject_Z 1) with 1 in Hm'.
    assert (pow2 (-52) <= pow2 e) by (apply pow2_le; exact He).
    assert ((pow2 (- e) + 1) * pow2 e <= inject_Z m * pow2 e)
      by (apply Qmult_le_compat_r; [exact Hm'|lra]).
    lra.
Qed.

Lemma round_fin y lo hi :
  small lo -> small hi -> inject_Z lo <= y -> y <= inject_Z hi ->
  round y = Fin (RN y) /\ inject_Z lo <= RN y <= inject_Z hi.
Proof.
  intros Hlo Hhi H1 H2.
  pose proof (RN_ge_Z lo y Hlo H1) as Ha. pose proof (RN_le_Z hi y Hhi H2) as Hb.
  split; [|split; assumption].
  unfold round. destruct (Qle_bool (pow2 emax) (Qabs (RN y))) eqn:E; [|reflexivity].
  apply Qle_bool_iff in E.
  assert (Hbig : inject_Z (2 ^ 53) <= pow2 emax).
  { rewrite <- pow2_Z by lia. apply pow2_le. unfold emax. lia. }
  assert (inject_Z hi < inject_Z (2 ^ 53)) by (rewrite <- Zlt_Qlt; apply Hhi).
  assert (inject_Z (- 2 ^ 53) < inject_Z lo) by (rewrite <- Zlt_Qlt; apply Hlo).
  change (inject_Z (- 2 ^ 53)) with (- inject_Z (2 ^ 53)) in H0.
  revert E. apply Qabs_case; intros; lra.
Qed.

Lemma to_int_bounds q lo hi :
  inject_Z lo <= q -> q <= inject_Z hi ->
  exists k, to_int (Fin q) = Ok k /\ (lo <= k <= hi)%Z.
Proof.
  intros H1 H2. eexists. split; [reflexivity|].
  pose proof (Qfloor_resp_le _ _ H1) as F1. pose proof (Qfloor_resp_le _ _ H2) as F2.
  pose proof (Qceiling_resp_le _ _ H1) as C1. pose proof (Qceiling_resp_le _ _ H2) as C2.
  rewrite Qfloor_Z in F1, F2. rewrite Qceiling_Z in C1, C2.
  destruct q as [n d]. cbn [Qnum Qden].
  destruct (Z_le_gt_dec 0 n) as [Hn|Hn].
  - rewrite Z.quot_div_nonneg by lia. unfold Qfloor in F1, F2. lia.
  - unfold Qceiling, Qfloor, Qopp in C1, C2. cbn [Qnum Qden] in C1, C2.
    replace n with (- - n)%Z at 1 2 by lia.
    rewrite Z.quot_opp_l, Z.quot_div_nonneg by lia. lia.
Qed.

Lemma of_int_small n :
  small n -> exists r, of_int n = Ok (Fin r) /\ r == inject_Z n.
Proof.
  intros Hn.
  destruct (round_fin (inject_Z n) n n Hn Hn) as [E [Ha Hb]]; try lra.
  exists (RN (inject_Z n)). unfold of_int. rewrite E. split; [reflexivity|lra].
Qed.

(** Rounding sees the number, not the fraction that denotes it. *)
Lemma ilog2_compat x y : 0 < x -> x == y -> ilog2 x = ilog2 y.
Proof.
  intros Hx E. assert (Hy : 0 < y) by (rewrite <- E; exact Hx).
  destruct (ilog2_spec x Hx) as [A B]. destruct (ilog2_spec y Hy) as [C D].
  assert (H1 : pow2 (ilog2 x) < pow2 (ilog2 y + 1)) by lra.
  assert (H2 : pow2 (ilog2 y) < pow2 (ilog2 x + 1)) by lra.
  apply pow2_lt_inv in H1, H2. lia.
Qed.

Lemma rne_compat x y : x == y -> rne x = rne y.
Proof.
  intros E.
  assert (F : Qfloor x = Qfloor y) by (rewrite E; reflexivity).
  assert (C : Qcompare (x - inject_Z (Qfloor x)) (1 # 2)
              = Qcompare (y - inject_Z (Qfloor y)) (1 # 2))
    by (rewrite F, E; reflexivity).
  unfold rne. cbv zeta. rewrite C, F. reflexivity.
Qed.

Lemma RN_compat x y : x == y -> RN x = RN y.
Proof.
  intros E. destruct (Qeq_dec x 0) as [Hz|Hnz].
  - rewrite (RN_zero x Hz), (RN_zero y); [reflexivity|rewrite <- E; exact Hz].
  - assert (Hny : ~ y == 0) by (rewrite <- E; exact Hnz).
    rewrite (RN_nonzero x Hnz), (RN_nonzero y Hny).
    assert (U : ulp_exp x = ulp_exp y).
    { unfold ulp_exp. rewrite (ilog2_compat (Qabs x) (Qabs y));
        [reflexivity|apply Qabs_pos_lt; exact Hnz|rewrite E; reflexivity]. }
    rewrite U.
    rewrite (rne_compat (x / pow2 (ulp_exp y)) (y / pow2 (ulp_exp y)));
      [reflexivity|rewrite E; reflexivity].
Qed.

(** A result of magnitude at most [k < 2^53] is finite and stays within
    [k] after rounding. *)
Lemma round_abs y k :
  (0 <= k < 2 ^ 53)%Z -> Qabs y <= inject_Z k ->
  round y = Fin (RN y) /\ Qabs (RN y) <= inject_Z k.
Proof.
  intros Hk Hy. apply Qabs_Qle_condition in Hy. destruct Hy as [H1 H2].
  destruct (round_fin y (- k) k) as [E [A B]];
    [unfold small; lia|unfold small; lia|rewrite inject_Z_opp; exact H1|exact H2|].
  split; [exact E|]. apply Qabs_Qle_condition.
  rewrite inject_Z_opp in A. split; assumption.
Qed.

Lemma Qdiv_abs_le (x d : Z) :
  d <> 0%Z -> Qabs (inject_Z x / inject_Z d) <= inject_Z (Z.abs x).
Proof.
  intros Hd. unfold Qdiv. rewrite Qabs_Qmult, Qabs_Qinv.
  change (Qabs (inject_Z x)) with (inject_Z (Z.abs x)).
  change (Qabs (inject_Z d)) with (inject_Z (Z.abs d)).
  assert (H1 : 1 <= inject_Z (Z.abs d)) by (rewrite <- (Zle_Qle 1); lia).
  assert (H0 : 0 <= inject_Z (Z.abs x)) by (rewrite <- (Zle_Qle 0); lia).
  apply Qle_shift_div_r; [lra|]. nra.
Qed.

(** [int()] truncates toward zero. *)
Lemma to_int_trunc q : to_int (Fin q) = Ok (trunc q).
Proof.
  unfold to_int, trunc. f_equal. destruct q as [n d]. cbn [Qnum Qden].
  destruct (Qle_bool 0 (n # d)) eqn:E.
  - apply Qle_bool_iff in E. unfold Qle in E. cbn in E.
    rewrite Z.quot_div_nonneg by lia. reflexivity.
  - assert (Hn : (n < 0)%Z).
    { destruct (Z_lt_le_dec n 0) as [H|H]; [exact H|].
      assert (Qle_bool 0 (n # d) = true)
        by (apply Qle_bool_iff; unfold Qle; cbn; lia).
      congruence. }
    unfold Qceiling, Qfloor, Qopp. cbn [Qnum Qden].
    replace n with (- - n)%Z at 1 by lia.
    rewrite Z.quot_opp_l, Z.quot_div_nonneg by lia. reflexivity.
Qed.

(** [trunc q] is the integer next to [q] on the side of zero. *)
Lemma trunc_toward_zero q :
  (0 <= q -> inject_Z (trunc q) <= q /\ q < inject_Z (trunc q) + 1) /\
  (q < 0 -> inject_Z (trunc q) - 1 < q /\ q <= inject_Z (trunc q)).
Proof.
  unfold trunc. split; intros H.
  - assert (E : Qle_bool 0 q = true) by (apply Qle_bool_iff; exact H).
    rewrite E. pose proof (Qfloor_le q). pose proof (Qlt_floor q) as Hf.
    rewrite inject_Z_plus in Hf. change (inject_Z 1) with 1 in Hf.
    split; assumption.
  - assert (E : Qle_bool 0 q = false).
    { destruct (Qle_bool 0 q) eqn:E; [|reflexivity].
      apply Qle_bool_iff in E. lra. }
    rewrite E. pose proof (Qle_ceiling q). pose proof (Qceiling_lt q) as Hc.
    unfold Z.sub in Hc. rewrite inject_Z_plus in Hc.
    split; [exact Hc|assumption].
Qed.

End PyFloatFacts.

(** ** The float arithmetic of [zoom_at] and of [np.random.choice] *)

Section FloatUses.

Import PyFloat PyFloatFacts.

Lemma zoom_offset_bounds (g : Q) (lo hi n f : Z) :
  (inject_Z lo <= g)%Q -> (g <= inject_Z hi)%Q ->
  0 <= lo -> 1 <= n -> 0 <= f -> n < 2 ^ 53 -> f < 2 ^ 53 -> hi * n < 2 ^ 53 ->
  exists o, zoom_offset (Fin g) n f = Ok o /\ lo * n - f <= o <= hi * n - f.
Proof.
  intros Hlo Hhi H0 Hn Hf Hn53 Hf53 Hhn.
  assert (Hlh : lo <= hi) by (rewrite Zle_Qle; lra).
  destruct (of_int_small n) as (rn & En & Hrn); [unfold small; lia|].
  destruct (of_int_small f) as (rf & Ef & Hrf); [unfold small; lia|].
  unfold zoom_offset, mul_int, sub_int. rewrite En, Ef. cbn [bind mul sub].
  assert (Hn1 : (1 <= inject_Z n)%Q) by (rewrite <- (Zle_Qle 1); exact Hn).
  assert (Hl0 : (0 <= inject_Z lo)%Q) by (rewrite <- (Zle_Qle 0); exact H0).
  destruct (round_fin (g * rn) (lo * n) (hi * n)) as [Em [Hm1 Hm2]].
  { unfold small; nia. }
  { unfold small; nia. }
  { rewrite inject_Z_mult, Hrn. nra. }
  { rewrite inject_Z_mult, Hrn. nra. }
  rewrite Em. cbn [bind mul sub].
  destruct (round_fin (RN (g * rn) - rf) (lo * n - f) (hi * n - f)) as [Es [Hs1 Hs2]].
  { unfold small; nia. }
  { unfold small; nia. }
  { unfold Z.sub. rewrite inject_Z_plus, inject_Z_opp, Hrf. lra. }
  { unfold Z.sub. rewrite inject_Z_plus, inject_Z_opp, Hrf. lra. }
  rewrite Es. apply to_int_bounds; assumption.
Qed.

Lemma int_truediv_bounds (x d : Z) :
  0 <= x -> 1 <= d -> x < 2 ^ 53 - 1 ->
  exists g, int_truediv x d = Ok (Fin g) /\
            (inject_Z (x / d) <= g)%Q /\ (g <= inject_Z (x / d + 1))%Q.
Proof.
  intros Hx Hd Hx53. unfold int_truediv.
  destruct (Z.eqb_spec d 0) as [?|_]; [lia|].
  assert (HD : (0 < inject_Z d)%Q) by (rewrite <- (Zlt_Qlt 0); lia).
  pose proof (Z.mul_div_le x d ltac:(lia)) as Hq1.
  pose proof (Z.mul_succ_div_gt x d ltac:(lia)) as Hq2.
  assert (Hq0 : 0 <= x / d) by (apply Z.div_pos; lia).
  assert (Hqx : x / d <= x) by (apply Z.div_le_upper_bound; nia).
  destruct (round_fin (inject_Z x / inject_Z d) (x / d) (x / d + 1)) as [E [H1 H2]].
  { unfold small; lia. }
  { unfold small; lia. }
  { apply Qle_shift_div_l; [exact HD|]. rewrite <- inject_Z_mult, <- Zle_Qle. lia. }
  { apply Qle_shift_div_r; [exact HD|]. rewrite <- inject_Z_mult, <- Zle_Qle. lia. }
  rewrite E. eexists. split; [reflexivity|]. split; assumption.
Qed.

Lemma zoom_axis (focus offset old n : Z) :
  1 <= old -> 1 <= n -> 0 <= focus -> 0 <= offset ->
  (focus + offset + 1) * n < 2 ^ 53 ->
  exists g o,
    int_truediv (focus + offset) old = Ok (Fin g) /\
    zoom_offset (Fin g) n focus = Ok o /\
    (focus + offset) / old <= (focus + o) / n <= (focus + offset) / old + 1.
Proof.
  intros Hold Hn Hf Ho Hb.
  set (x := focus + offset) in *.
  assert (Hq0 : 0 <= x / old) by (apply Z.div_pos; lia).
  assert (Hqx : x / old <= x) by (apply Z.div_le_upper_bound; nia).
  destruct (int_truediv_bounds x old) as (g & Eg & Hg1 & Hg2); [lia|lia|nia|].
  destruct (zoom_offset_bounds g (x / old) (x / old + 1) n focus)
    as (o & Eo & Ho1 & Ho2); try assumption; try nia.
  exists g, o. split; [exact Eg|]. split; [exact Eo|]. split.
  - apply Z.div_le_lower_bound; lia.
  - apply Z.div_le_upper_bound; lia.
Qed.

(** One axis of [zoom_at], exactly: within [zoom_in_range] no
    operation overflows, both int operands convert exactly, and the new
    offset is [zoomAt_offset]. *)
Lemma zoom_axis_exact (focus offset old n : Z) :
  old <> 0 -> zoom_in_range focus offset n ->
  exists g, int_truediv (focus + offset) old = Ok (Fin g) /\
            zoom_offset (Fin g) n focus = Ok (zoomAt_offset focus offset old n).
Proof.
  intros Hold (HX & Hn & Hall).
  assert (Hprod : 0 <= Z.abs (focus + offset) * Z.abs n)
    by (apply Z.mul_nonneg_nonneg; lia).
  destruct (round_abs (inject_Z (focus + offset) / inject_Z old)
              (Z.abs (focus + offset))) as [Eg Hg];
    [lia|apply Qdiv_abs_le; exact Hold|].
  exists (RN (inject_Z (focus + offset) / inject_Z old)). split.
  { unfold int_truediv. destruct (Z.eqb_spec old 0); [contradiction|].
    rewrite Eg. reflexivity. }
  destruct (of_int_small n) as (rn & En & Hrn); [unfold small; lia|].
  destruct (of_int_small focus) as (rf & Ef & Hrf); [unfold small; lia|].
  unfold zoom_offset, mul_int, sub_int, zoomAt_offset.
  rewrite En, Ef. cbn [bind mul sub].
  set (g := RN (inject_Z (focus + offset) / inject_Z old)) in *.
  assert (HA : (0 <= inject_Z (Z.abs (focus + offset)))%Q)
    by (rewrite <- (Zle_Qle 0); lia).
  assert (HB : (0 <= inject_Z (Z.abs n))%Q) by (rewrite <- (Zle_Qle 0); lia).
  assert (HF : (Qabs (inject_Z focus) <= inject_Z (Z.abs focus))%Q)
    by (change (Qabs (inject_Z focus)) with (inject_Z (Z.abs focus)); lra).
  assert (Hm : (Qabs (g * rn) <= inject_Z (Z.abs (focus + offset) * Z.abs n))%Q).
  { rewrite Hrn, Qabs_Qmult, inject_Z_mult.
    change (Qabs (inject_Z n)) with (inject_Z (Z.abs n)).
    pose proof (Qabs_nonneg g). nra. }
  destruct (round_abs (g * rn)%Q (Z.abs (focus + offset) * Z.abs n))
    as [Em Hm']; [lia|exact Hm|].
  rewrite Em, (RN_compat (g * rn) (g * inject_Z n))%Q in *
    by (rewrite Hrn; reflexivity).
  cbn [sub].
  set (m := RN (g * inject_Z n)%Q) in *.
  assert (Hd : (Qabs (m - rf)
                <= inject_Z (Z.abs (focus + offset) * Z.abs n + Z.abs focus))%Q).
  { rewrite Hrf, inject_Z_plus. apply Qabs_Qle_condition in Hm', HF.
    apply Qabs_Qle_condition. lra. }
  destruct (round_abs (m - rf)%Q (Z.abs (focus + offset) * Z.abs n + Z.abs focus))
    as [Ed _]; [lia|exact Hd|].
  rewrite Ed, (RN_compat (m - rf) (m - inject_Z focus))%Q
    by (rewrite Hrf; reflexivity).
  apply to_int_trunc.
Qed.

(** C4 (amended): for a cell size of at least 1 before and after, a
    focus and offsets that are non-negative and
    [(focus + offset + 1) * new_cell_size] below 2^53 on both axes,
    [zoom_at] returns, and on each axis where the final [clamp_offsets]
    leaves the recomputed offset as it is, the cell under the focus
    pixel is the one before the zoom or the next one. *)
Theorem zoom_at_focus_stable (s : game) (fx fy n : Z) :
  1 <= cell_size s -> 1 <= n ->
  0 <= fx -> 0 <= fy -> 0 <= offset_x s -> 0 <= offset_y s ->
  (fx + offset_x s + 1) * n < 2 ^ 53 -> (fy + offset_y s + 1) * n < 2 ^ 53 ->
  exists t s' gx gy gx' gy',
    zoom_recompute s fx fy n = Ok t /\
    zoom_at s fx fy n = Ok s' /\
    s' = (if n =? cell_size s then s else clamp_offsets t) /\
    screen_to_grid s fx fy = Ok (gx, gy) /\
    screen_to_grid s' fx fy = Ok (gx', gy') /\
    (offset_x s' = offset_x t -> gx <= gx' <= gx + 1) /\
    (offset_y s' = offset_y t -> gy <= gy' <= gy + 1).
Proof.
  intros Hold Hn Hfx Hfy Hox Hoy Hbx Hby.
  destruct (zoom_axis fx (offset_x s) (cell_size s) n) as (g1 & o1 & Eg1 & Eo1 & Hx);
    try assumption.
  destruct (zoom_axis fy (offset_y s) (cell_size s) n) as (g2 & o2 & Eg2 & Eo2 & Hy);
    try assumption.
  set (t := with_offset_y (with_offset_x (with_cell_size s n) o1) o2).
  assert (Et : zoom_recompute s fx fy n = Ok t).
  { unfold zoom_recompute. rewrite Eg1, Eg2. cbn [bind].
    cbn [cell_size with_cell_size with_offset_x]. rewrite Eo1. cbn [bind].
    rewrite Eo2. reflexivity. }
  assert (Es : forall u, 1 <= cell_size u ->
            screen_to_grid u fx fy
            = Ok ((fx + offset_x u) / cell_size u, (fy + offset_y u) / cell_size u)).
  { intros u Hu. unfold screen_to_grid, floordiv.
    destruct (Z.eqb_spec (cell_size u) 0) as [?|_]; [lia|]. reflexivity. }
  exists t, (if n =? cell_size s then s else clamp_offsets t).
  exists ((fx + offset_x s) / cell_size s), ((fy + offset_y s) / cell_size s).
  destruct (Z.eqb_spec n (cell_size s)) as [En|En].
  - exists ((fx + offset_x s) / cell_size s), ((fy + offset_y s) / cell_size s).
    split; [exact Et|]. split.
    { unfold zoom_at. rewrite (proj2 (Z.eqb_eq _ _) En). reflexivity. }
    split; [reflexivity|]. split; [apply Es, Hold|]. split; [apply Es, Hold|].
    split; intros _; lia.
  - exists ((fx + offset_x (clamp_offsets t)) / n), ((fy + offset_y (clamp_offsets t)) / n).
    split; [exact Et|]. split.
    { unfold zoom_at. rewrite (proj2 (Z.eqb_neq _ _) En), Et. reflexivity. }
    split; [reflexivity|]. split; [apply Es, Hold|]. split.
    { rewrite Es; [reflexivity|]. exact Hn. }
    split; intros ->; [exact Hx|exact Hy].
Qed.

(** ** np.random.choice *)

Lemma choice01_negative_size g h w p0 p1 :
  h < 0 \/ w < 0 -> NpRandom.choice01 g h w p0 p1 = Raise ValueError.
Proof.
  intros Hneg. unfold NpRandom.choice01.
  destruct (isnan _); [reflexivity|].
  destruct (_ || _); [reflexivity|].
  destruct (ltb NpRandom.atol _); [reflexivity|].
  destruct (Z.ltb_spec h 0), (Z.ltb_spec w 0); try reflexivity. lia.
Qed.

Lemma choice01_raises g h w p0 p1 e :
  NpRandom.choice01 g h w p0 p1 = Raise e -> e = ValueError.
Proof.
  unfold NpRandom.choice01.
  repeat match goal with
         | |- context [if ?b then _ else _] => destruct b
         end; congruence.
Qed.

Lemma choice01_bad_density g h w d :
  is_float d -> ~ probability d ->
  NpRandom.choice01 g h w (sub (Fin 1) d) d = Raise ValueError.
Proof.
  intros Hf Hp. unfold NpRandom.choice01.
  destruct d as [q|sg|].
  - cbn [probability is_float] in Hf, Hp.
    destruct (isnan _); [reflexivity|].
    assert (Hbad : ltb (sub (Fin 1) (Fin q)) (Fin 0) || ltb (Fin q) (Fin 0) = true).
    { destruct (Qlt_le_dec q 0) as [Hneg|Hnn].
      - apply orb_true_intro. right. cbn [ltb].
        destruct (Qle_bool 0 q) eqn:E; [|reflexivity].
        apply Qle_bool_iff in E. lra.
      - assert (Hq1 : (1 < q)%Q).
        { apply Qnot_le_lt. intros Hle. apply Hp. split; assumption. }
        pose proof (representable_above_one q Hf Hq1) as Hgap.
        assert (Hr : (RN (1 - q) < 0)%Q) by (apply RN_neg; lra).
        apply orb_true_intro. left. cbn [sub]. unfold round.
        destruct (Qle_bool (pow2 emax) _).
        + cbn [ltb]. unfold Qneg.
          destruct (Qle_bool 0 (RN (1 - q))) eqn:E; [|reflexivity].
          apply Qle_bool_iff in E. lra.
        + cbn [ltb].
          destruct (Qle_bool 0 (RN (1 - q))) eqn:E; [|reflexivity].
          apply Qle_bool_iff in E. lra. }
    rewrite Hbad. reflexivity.
  - destruct sg; reflexivity.
  - reflexivity.
Qed.

Lemma tolerance : (3 * pow2 (-51) <= pow2 (-26))%Q.
Proof. apply Qle_bool_iff. reflexivity. Qed.

Lemma choice01_ok g h w q :
  0 <= h -> 0 <= w -> (0 <= q <= 1)%Q ->
  exists a g' f,
    NpRandom.choice01 g h w (sub (Fin 1) (Fin q)) (Fin q) = Ok (a, g') /\
    shaped a (Z.to_nat h) (Z.to_nat w) f /\
    forall r c, f r c = DEAD_CELL \/ f r c = ALIVE_CELL.
Proof.
  intros Hh Hw [Hq0 Hq1]. unfold NpRandom.choice01. cbn [sub].
  assert (S0 : small 0) by (unfold small; lia).
  assert (S1 : small 1) by (unfold small; lia).
  assert (S2 : small 2) by (unfold small; lia).
  assert (Sm : small (-1)) by (unfold small; lia).
  destruct (round_fin (1 - q) 0 1 S0 S1) as [E0 [A0 B0]];
    [change (inject_Z 0) with 0%Q; lra|change (inject_Z 1) with 1%Q; lra|].
  change (inject_Z 0) with 0%Q in A0. change (inject_Z 1) with 1%Q in B0.
  rewrite E0. cbn [add].
  destruct (round_fin (RN (1 - q) + q) 0 2 S0 S2) as [Es [As Bs]];
    [change (inject_Z 0) with 0%Q; lra|change (inject_Z 2) with 2%Q; lra|].
  change (inject_Z 0) with 0%Q in As. change (inject_Z 2) with 2%Q in Bs.
  rewrite Es. cbn [isnan ltb sub].
  destruct (round_fin (RN (RN (1 - q) + q) - 1) (-1) 1 Sm S1) as [Et [At Bt]];
    [unfold inject_Z; lra|unfold inject_Z; lra|].
  rewrite Et. cbn [abs]. unfold NpRandom.atol. cbn [ltb].
  assert (Hn0 : Qle_bool 0 (RN (1 - q)) = true) by (apply Qle_bool_iff; exact A0).
  assert (Hn1 : Qle_bool 0 q = true) by (apply Qle_bool_iff; exact Hq0).
  rewrite Hn0, Hn1. cbn [negb orb].
  assert (Htol : Qle_bool (Qabs (RN (RN (RN (1 - q) + q) - 1))) (pow2 (-26)) = true).
  { apply Qle_bool_iff.
    assert (H4 : forall y, (-4 <= y <= 4)%Q -> (Qabs y <= 4)%Q)
      by (intros y Hy; apply Qabs_Qle_condition; exact Hy).
    pose proof (RN_err (1 - q) (H4 (1 - q)%Q ltac:(lra))) as R0.
    pose proof (RN_err (RN (1 - q) + q) (H4 (RN (1 - q) + q)%Q ltac:(lra))) as R1.
    pose proof (RN_err (RN (RN (1 - q) + q) - 1) (H4 (RN (RN (1 - q) + q) - 1)%Q ltac:(lra))) as R2.
    apply Qabs_Qle_condition in R0, R1, R2.
    pose proof tolerance. apply Qabs_Qle_condition. lra. }
  rewrite Htol. cbn [negb].
  destruct (Z.ltb_spec h 0), (Z.ltb_spec w 0); try lia. cbn [orb].
  eexists _, _, _. split; [reflexivity|]. split.
  - split; [reflexivity|]. split; [reflexivity|].
    eexists. split; [apply tab_seq_map|]. intros r _. apply tab_seq_map.
  - intros r c. cbv beta. unfold DEAD_CELL, ALIVE_CELL.
    destruct (leb _ _); [right|left]; reflexivity.
Qed.

End FloatUses.

(** ** zoom_at against its specification *)

(** C2 (amended): for a non-zero old cell size and magnitudes within
    [zoom_in_range], [zoom_at] returns the object of [zoomAt_amended]:
    when the new cell size differs, the cell size becomes the new one
    exactly as it is passed (no clamp to the zoom limits), each offset
    is the correctly rounded float [grid * new_cell_size - focus], with
    [grid] the correctly rounded [(focus + offset) / old], truncated
    toward zero (not rounded to nearest), and then brought into the
    bounds of [clamp_offsets] at the new cell size; every other field is
    kept.  The truncated offsets are those of the body of [zoom_at]
    before its final [clamp_offsets]. *)
Theorem zoom_at_amended (s : game) (fx fy n : Z) :
  cell_size s <> 0 ->
  zoom_in_range fx (offset_x s) n -> zoom_in_range fy (offset_y s) n ->
  zoom_at s fx fy n = Ok (zoomAt_amended s fx fy n) /\
  cell_size (zoomAt_amended s fx fy n) = n /\
  zoom_recompute s fx fy n = Ok (zoomAt_recomputed s fx fy n).
Proof.
  intros Hcs Hx Hy.
  destruct (zoom_axis_exact fx (offset_x s) (cell_size s) n Hcs Hx)
    as (gx & Egx & Eox).
  destruct (zoom_axis_exact fy (offset_y s) (cell_size s) n Hcs Hy)
    as (gy & Egy & Eoy).
  assert (Er : zoom_recompute s fx fy n = Ok (zoomAt_recomputed s fx fy n)).
  { unfold zoom_recompute. rewrite Egx, Egy.
    cbn [bind cell_size with_cell_size with_offset_x]. rewrite Eox.
    cbn [bind cell_size with_cell_size with_offset_x]. rewrite Eoy.
    cbn [bind]. destruct s; reflexivity. }
  split; [|split; [|exact Er]].
  - unfold zoom_at, zoomAt_amended.
    destruct (n =? cell_size s); [reflexivity|].
    rewrite Er. cbn [bind]. destruct s; reflexivity.
  - unfold zoomAt_amended.
    destruct (Z.eqb_spec n (cell_size s)) as [E|E];
      [symmetry; exact E|reflexivity].
Qed.

(** C2 as stated fails: at a valid new size 3 the code truncates 23.75
    to 23 where rounding gives 24, and at size 100 it keeps 100 where
    the clamp to [max_cell_size] gives 32. *)
Lemma zoom_at_not_spec :
  (min_cell_size panned <= 3 <= max_cell_size panned /\
   exists s', zoom_at panned 1 0 3 = Ok s' /\ offset_x s' = 23 /\
              offset_x (zoomAt_spec panned 1 0 3) = 24)
  /\
  (exists s', zoom_at panned 1 0 100 = Ok s' /\ cell_size s' = 100 /\
              cell_size (zoomAt_spec panned 1 0 100) = 32).
Proof.
  split.
  - split; [vm_compute; split; discriminate|].
    eexists. split; [vm_compute; reflexivity|]. split; vm_compute; reflexivity.
  - eexists. split; [vm_compute; reflexivity|]. split; vm_compute; reflexivity.
Qed.

(** C4 as stated fails: zooming a grid that fits its window out from
    cell size 8 to 7 at pixel (400, 100) clamps both offsets to 0, and
    the cell under the pixel moves from (50, 12) to (57, 14). *)
Lemma zoom_at_moves_focus :
  min_cell_size (blank 100 100 8) <= 7 <= max_cell_size (blank 100 100 8) /\
  screen_to_grid (blank 100 100 8) 400 100 = Ok (50, 12) /\
  exists s', zoom_at (blank 100 100 8) 400 100 7 = Ok s' /\
             screen_to_grid s' 400 100 = Ok (57, 14).
Proof.
  split; [vm_compute; split; discriminate|].
  split; [vm_compute; reflexivity|].
  eexists. split; vm_compute; reflexivity.
Qed.

(** ** The viewport invariant *)

Lemma clamp_offsets_in_range (t : game) : offsets_in_range (clamp_offsets t).
Proof.
  unfold offsets_in_range, max_x, max_y, clamp_offsets; destruct t; simpl. lia.
Qed.

Lemma clamp_offsets_inv (t : game) :
  0 <= pan_speed t -> viewport_inv (clamp_offsets t).
Proof.
  intros Hp. split; [exact Hp|apply clamp_offsets_in_range].
Qed.

Lemma zoom_recompute_pan_speed (s t : game) fx fy n :
  zoom_recompute s fx fy n = Ok t -> pan_speed t = pan_speed s.
Proof.
  unfold zoom_recompute.
  destruct (PyFloat.int_truediv _ _); [|discriminate].
  destruct (PyFloat.int_truediv _ _); [|discriminate]. cbn [bind].
  destruct (zoom_offset _ _ _); [|discriminate]. cbn [bind].
  destruct (zoom_offset _ _ _); [|discriminate]. cbn [bind].
  intros [= <-]. reflexivity.
Qed.

Lemma zoom_at_inv (s s' : game) fx fy n :
  viewport_inv s -> zoom_at s fx fy n = Ok s' -> viewport_inv s'.
Proof.
  intros Hinv. unfold zoom_at. destruct (n =? cell_size s).
  - intros [= <-]. exact Hinv.
  - destruct (zoom_recompute s fx fy n) as [t|] eqn:Et; [|discriminate].
    cbn [bind]. intros [= <-]. apply clamp_offsets_inv.
    rewrite (zoom_recompute_pan_speed _ _ _ _ _ Et). apply Hinv.
Qed.

Lemma viewport_inv_ext (s s' : game) :
  viewport_of s' = viewport_of s -> viewport_inv s -> viewport_inv s'.
Proof.
  unfold viewport_of, viewport_inv, offsets_in_range, max_x, max_y.
  intros [= -> -> -> -> -> -> -> ->]. auto.
Qed.

Lemma toggle_cell_viewport (s s' : game) gx gy :
  toggle_cell s gx gy = Ok s' -> viewport_of s' = viewport_of s.
Proof.
  unfold toggle_cell. destruct (_ && _); [|intros [= <-]; reflexivity].
  destruct (Np.getZ _ _ _); [|discriminate]. cbn [bind].
  destruct (Np.set _ _ _ _); [|discriminate]. cbn [bind].
  intros [= <-]. reflexivity.
Qed.

Lemma handle_mouse_viewport (s s' : game) pos :
  handle_mouse s pos = Ok s' -> viewport_of s' = viewport_of s.
Proof.
  destruct pos as [x y]. unfold handle_mouse.
  destruct (y <? _); [|intros [= <-]; reflexivity].
  destruct (screen_to_grid s x y); [|discriminate]. cbn [bind].
  apply toggle_cell_viewport.
Qed.

Lemma reset_viewport g s d r :
  reset g s d = Ok r -> viewport_of (fst r) = viewport_of s.
Proof.
  unfold reset. destruct (NpRandom.choice01 _ _ _ _ _); [|discriminate].
  cbn [bind]. intros [= <-]. reflexivity.
Qed.

Lemma clear_viewport s s' :
  clear s = Ok s' -> viewport_of s' = viewport_of s.
Proof.
  unfold clear. destruct (Np.zeros _ _); [|discriminate].
  cbn [bind]. intros [= <-]. reflexivity.
Qed.

Lemma pan_back_in_range (o p m : Z) :
  0 <= p -> 0 <= o <= m -> 0 <= Z.max 0 (o - p) <= m.
Proof. lia. Qed.

Lemma handle_key_inv (l l' : loop) (k : key) :
  viewport_inv (self l) -> handle_key l k = Ok l' -> viewport_inv (self l').
Proof.
  intros Hinv. pose proof Hinv as [Hp [Hx Hy]]. unfold handle_key.
  generalize default_density. intros d.
  destruct k.
  - intros [= <-]. cbn [self]. eapply viewport_inv_ext; [|exact Hinv]. reflexivity.
  - destruct (reset (gen l) (self l) d) as [r|] eqn:Er; [|discriminate].
    cbn [bind]. intros [= <-]. cbn [self].
    eapply viewport_inv_ext; [|exact Hinv]. exact (reset_viewport _ _ _ _ Er).
  - destruct (clear (self l)) as [c|] eqn:Ec; [|discriminate]. cbn [bind].
    intros [= <-]. cbn [self].
    eapply viewport_inv_ext; [|exact Hinv]. exact (clear_viewport _ _ Ec).
  - intros [= <-]. cbn [self]. eapply viewport_inv_ext; [|exact Hinv]. reflexivity.
  - intros [= <-]. cbn [self]. eapply viewport_inv_ext; [|exact Hinv]. reflexivity.
  - intros [= <-]. cbn [self]. eapply viewport_inv_ext; [|exact Hinv]. reflexivity.
  - intros [= <-]. cbn [self]. split; [exact Hp|]. split; [|exact Hy].
    apply pan_back_in_range; assumption.
  - intros [= <-]. cbn [self]. apply clamp_offsets_inv. exact Hp.
  - intros [= <-]. cbn [self]. split; [exact Hp|]. split; [exact Hx|].
    apply pan_back_in_range; assumption.
  - intros [= <-]. cbn [self]. apply clamp_offsets_inv. exact Hp.
  - intros [= <-]. exact Hinv.
Qed.

Lemma handle_event_inv (l l' : loop) (ev : event) :
  viewport_inv (self l) -> handle_event l ev = Ok l' -> viewport_inv (self l').
Proof.
  intros Hinv. unfold handle_event. destruct ev as [|k|pos|y [mx my]|w h| |pos|].
  - intros [= <-]. cbn [self]. eapply viewport_inv_ext; [|exact Hinv]. reflexivity.
  - apply handle_key_inv, Hinv.
  - destruct (handle_mouse _ _) as [m|] eqn:Em; [|discriminate]. cbn [bind].
    intros [= <-]. cbn [self].
    eapply viewport_inv_ext; [|exact Hinv]. exact (handle_mouse_viewport _ _ _ Em).
  - destruct (zoom_at _ _ _ _) as [z|] eqn:Ez; [|discriminate]. cbn [bind].
    intros [= <-]. cbn [self]. exact (zoom_at_inv _ _ _ _ _ Hinv Ez).
  - intros [= <-]. cbn [self]. apply clamp_offsets_inv. apply Hinv.
  - intros [= <-]. exact Hinv.
  - destruct (mouse_pressed l); [|intros [= <-]; exact Hinv].
    destruct (handle_mouse _ _) as [m|] eqn:Em; [|discriminate]. cbn [bind].
    intros [= <-]. cbn [self].
    eapply viewport_inv_ext; [|exact Hinv]. exact (handle_mouse_viewport _ _ _ Em).
  - intros [= <-]. exact Hinv.
Qed.

Lemma init_inv g w h cs d s0 g0 :
  init g w h cs d = Ok (s0, g0) -> viewport_inv s0.
Proof.
  unfold init. destruct (NpRandom.choice01 _ _ _ _ _); [|discriminate].
  cbn [bind]. intros [= <- _].
  unfold viewport_inv, offsets_in_range, max_x, max_y; cbn. lia.
Qed.

Lemma reachable_inv (l : loop) : reachable l -> viewport_inv (self l).
Proof.
  induction 1 as [g w h cs d s0 g0 Hinit|l ev l' _ IH Hev|l _ IH].
  - exact (init_inv _ _ _ _ _ _ _ Hinit).
  - exact (handle_event_inv _ _ _ IH Hev).
  - cbn [self]. eapply viewport_inv_ext; [|exact IH]. reflexivity.
Qed.

Lemma handle_events_reachable (evs : list event) (l l' : loop) :
  reachable l -> handle_events l evs = Ok l' -> reachable l'.
Proof.
  revert l. induction evs as [|ev evs IH]; intros l Hl; cbn [handle_events].
  - intros [= <-]. exact Hl.
  - destruct (handle_event l ev) as [m|] eqn:Em; [|discriminate]. cbn [bind].
    apply IH. exact (reach_event _ _ _ Hl Em).
Qed.

Lemma frame_reachable (l l' : loop) (evs : list event) :
  reachable l -> frame l evs = Ok l' -> reachable l'.
Proof.
  intros Hl. unfold frame.
  destruct (handle_events l evs) as [m|] eqn:Em; [|discriminate]. cbn [bind].
  pose proof (handle_events_reachable _ _ _ Hl Em) as Hm. cbv zeta.
  destruct (paused (self m));
    (destruct (draw_grid _); [|discriminate]); cbn [bind]; intros [= <-].
  - exact Hm.
  - apply reach_step, Hm.
Qed.

Lemma run_loop_reachable (frames : list (list event)) (l l' : loop) :
  reachable l -> run_loop l frames = Ok l' -> reachable l'.
Proof.
  revert l. induction frames as [|evs frames IH]; intros l Hl; cbn [run_loop].
  - intros [= <-]. exact Hl.
  - destruct (running (self l)); [|intros [= <-]; exact Hl].
    destruct (frame l evs) as [m|] eqn:Em; [|discriminate]. cbn [bind].
    apply IH. exact (frame_reachable _ _ _ Hl Em).
Qed.

(** A run that is still looping is in the state its loop has reached. *)
Lemma run_still_looping g s (frames : list (list event)) (l : loop) :
  run g s frames = Ok l ->
  run_loop (Loop s false g) frames = Ok l /\ running (self l) = true.
Proof.
  unfold run. destruct (run_loop _ _) as [m|]; [|discriminate]. cbn [bind].
  destruct (running (self m)) eqn:Er; [|discriminate].
  intros [= <-]. split; [reflexivity|exact Er].
Qed.

(** C5: in every state the loop of [run] can reach the offsets are
    non-negative and at most [max (0, total - viewport)] on their axis;
    every single event (a pan in any direction, a zoom, a resize, ...)
    keeps these bounds, and so does every run from a constructed
    object, in the state in which its loop is left as in a state in
    which it is still looping. *)
Theorem offsets_invariant :
  (forall l, reachable l -> offsets_in_range (self l)) /\
  (forall l ev l', offsets_in_range (self l) -> 0 <= pan_speed (self l) ->
     handle_event l ev = Ok l' -> offsets_in_range (self l')) /\
  (forall g w h cs d s0 g0 frames l,
     init g w h cs d = Ok (s0, g0) ->
     run_loop (Loop s0 false g0) frames = Ok l \/ run g0 s0 frames = Ok l ->
     offsets_in_range (self l)).
Proof.
  split; [|split].
  - intros l Hl. apply (reachable_inv l Hl).
  - intros l ev l' Hr Hp Hev.
    apply (handle_event_inv l l' ev (conj Hp Hr) Hev).
  - intros g w h cs d s0 g0 frames l Hinit Hrun.
    assert (Hloop : run_loop (Loop s0 false g0) frames = Ok l).
    { destruct Hrun as [Hrun|Hrun]; [exact Hrun|].
      exact (proj1 (run_still_looping _ _ _ _ Hrun)). }
    apply (reachable_inv l).
    eapply run_loop_reachable; [|exact Hloop]. eapply reach_init, Hinit.
Qed.

(** ** Construction, reset and clear *)

Lemma shaped_game_wf (s : game) f :
  0 <= height s -> 0 <= width s ->
  shaped (grid s) (Z.to_nat (height s)) (Z.to_nat (width s)) f ->
  (forall r c, f r c = DEAD_CELL \/ f r c = ALIVE_CELL) ->
  game_wf s.
Proof.
  intros Hh Hw Hs Hf. pose proof Hs as (Hnr & Hnc & _).
  split; [exact (shaped_wf _ _ _ _ Hs)|].
  split; [lia|]. split; [lia|].
  eapply shaped_binary; [exact Hs|]. intros. apply Hf.
Qed.

Lemma init_game_wf g w h cs q :
  0 <= h -> 0 <= w -> (0 <= q <= 1)%Q ->
  exists s g',
    init g w h cs (PyFloat.Fin q) = Ok (s, g') /\
    game_wf s /\ height s = h /\ width s = w /\ cell_size s = cs /\
    Np.nrows (grid s) = Z.to_nat h /\ Np.ncols (grid s) = Z.to_nat w.
Proof.
  intros Hh Hw Hq.
  destruct (choice01_ok g h w q Hh Hw Hq) as (a & g' & f & Ea & Hs & Hf).
  unfold init. rewrite Ea. cbn [bind fst snd].
  eexists _, _. split; [reflexivity|].
  pose proof Hs as (Hnr & Hnc & _).
  split; [|cbn; auto].
  apply (shaped_game_wf _ f); cbn [grid height width]; assumption.
Qed.

(** C3 (amended): construction raises ValueError when the height or the
    width is negative, construction and [reset] raise ValueError when
    the density is a float outside [[0, 1]], and for a height and width
    of at least 0 and a density in [[0, 1]] construction returns a grid
    of exactly height x width cells, each 0 or 1. *)
Theorem init_spec :
  (forall g w h cs d, h < 0 \/ w < 0 -> init g w h cs d = Raise ValueError) /\
  (forall g w h cs d, PyFloat.is_float d -> ~ PyFloat.probability d ->
     init g w h cs d = Raise ValueError) /\
  (forall g s d, PyFloat.is_float d -> ~ PyFloat.probability d ->
     reset g s d = Raise ValueError) /\
  (forall g w h cs d, 0 <= h -> 0 <= w -> PyFloat.probability d ->
     exists s g',
       init g w h cs d = Ok (s, g') /\
       game_wf s /\ height s = h /\ width s = w /\
       Np.nrows (grid s) = Z.to_nat h /\ Np.ncols (grid s) = Z.to_nat w).
Proof.
  split; [|split; [|split]].
  - intros g w h cs d Hneg. unfold init.
    rewrite choice01_negative_size by exact Hneg. reflexivity.
  - intros g w h cs d Hf Hp. unfold init.
    rewrite choice01_bad_density by assumption. reflexivity.
  - intros g s d Hf Hp. unfold reset.
    rewrite choice01_bad_density by assumption. reflexivity.
  - intros g w h cs [q| |] Hh Hw Hp; try contradiction.
    destruct (init_game_wf g w h cs q Hh Hw Hp) as (s & g' & E & Hwf & H1 & H2 & _ & H3 & H4).
    exists s, g'. repeat split; try assumption; apply Hwf.
Qed.

(** C3 as stated fails: with height 0 construction raises nothing and
    returns an object with an empty grid. *)
Lemma init_zero_height :
  0 <= 0 /\
  exists s g', init (fun _ => 0%N) 3 0 8 (PyFloat.Fin (1 # 2)) = Ok (s, g') /\
               height s = 0 /\ Np.rows (grid s) = [].
Proof.
  split; [lia|]. eexists _, _. split; [vm_compute; reflexivity|].
  split; reflexivity.
Qed.

Lemma zeros_shaped (h w : Z) :
  0 <= h -> 0 <= w ->
  exists a, Np.zeros h w = Ok a /\
            shaped a (Z.to_nat h) (Z.to_nat w) (fun _ _ => DEAD_CELL).
Proof.
  intros Hh Hw. unfold Np.zeros.
  destruct (Z.ltb_spec h 0), (Z.ltb_spec w 0); try lia. cbn [orb].
  eexists. split; [reflexivity|].
  split; [reflexivity|]. split; [reflexivity|].
  exists (fun _ => replicate (Z.to_nat w) 0). split.
  - apply tab_replicate.
  - intros r _. apply tab_replicate.
Qed.

Lemma game_wf_dims (s : game) : game_wf s -> 0 <= height s /\ 0 <= width s.
Proof. intros (_ & Hh & Hw & _). lia. Qed.

Lemma default_density_probability : PyFloat.probability default_density.
Proof. vm_compute. split; discriminate. Qed.

(** C6: whenever [reset] returns, the object is paused at generation 0,
    and on a well-formed object [reset()] does return; [clear] returns
    an object paused at generation 0 whose grid has the shape it had and
    holds DEAD in every cell. *)
Theorem reset_clear_spec :
  (forall g s d r, reset g s d = Ok r ->
     paused (fst r) = true /\ generation (fst r) = 0) /\
  (forall g s, game_wf s ->
     exists r, reset g s default_density = Ok r /\
               paused (fst r) = true /\ generation (fst r) = 0 /\
               game_wf (fst r)) /\
  (forall s, game_wf s ->
     exists s', clear s = Ok s' /\
       paused s' = true /\ generation s' = 0 /\
       height s' = height s /\ width s' = width s /\
       Np.nrows (grid s') = Np.nrows (grid s) /\
       Np.ncols (grid s') = Np.ncols (grid s) /\
       game_wf s' /\
       forall r c, (r < Np.nrows (grid s))%nat -> (c < Np.ncols (grid s))%nat ->
                   Np.get (grid s') r c = Some DEAD_CELL).
Proof.
  split; [|split].
  - intros g s d r. unfold reset.
    destruct (NpRandom.choice01 _ _ _ _ _); [|discriminate]. cbn [bind].
    intros [= <-]. split; reflexivity.
  - intros g s Hwf. destruct (game_wf_dims s Hwf) as [Hh Hw].
    pose proof default_density_probability as Hp.
    destruct default_density as [q| |]; try contradiction.
    destruct (choice01_ok g (height s) (width s) q Hh Hw Hp) as (a & g' & f & Ea & Hs & Hf).
    unfold reset. rewrite Ea. cbn [bind fst snd].
    eexists. split; [reflexivity|]. cbn [fst]. split; [reflexivity|].
    split; [reflexivity|].
    apply (shaped_game_wf _ f); assumption.
  - intros s Hwf. destruct (game_wf_dims s Hwf) as [Hh Hw].
    destruct (zeros_shaped (height s) (width s) Hh Hw) as (a & Ea & Hs).
    unfold clear. rewrite Ea. cbn [bind].
    eexists. split; [reflexivity|].
    pose proof Hs as (Hnr & Hnc & _).
    destruct Hwf as (_ & Hh' & Hw' & _).
    assert (En : Z.to_nat (height s) = Np.nrows (grid s)) by lia.
    assert (Ec : Z.to_nat (width s) = Np.ncols (grid s)) by lia.
    split; [reflexivity|]. split; [reflexivity|].
    split; [reflexivity|]. split; [reflexivity|].
    cbn [grid with_grid with_generation with_paused].
    split; [lia|]. split; [lia|]. split.
    + apply (shaped_game_wf _ (fun _ _ => DEAD_CELL)); try assumption.
      intros; left; reflexivity.
    + intros r c Hr Hc. apply (shaped_get _ _ _ _ _ _ Hs); lia.
Qed.

(** ** Concrete instances *)

(** Well-formedness of a concrete object, by evaluation. *)
Ltac concrete_wf :=
  unfold game_wf, Np.wf, binary, DEAD_CELL, ALIVE_CELL; cbn;
  repeat match goal with
    | |- _ /\ _ => split
    | |- Forall _ [] => apply Forall_nil_2
    | |- Forall _ (_ :: _) => apply Forall_cons_2
    | |- _ \/ _ => first [left; reflexivity | right; reflexivity]
    | |- _ = _ => reflexivity
    end.

Lemma step_rule_witness :
  game_wf (step blinker) /\
  generation (step blinker) = generation blinker + 1 /\
  forall r c, 0 <= r < height blinker -> 0 <= c < width blinker ->
    (cell_at (grid (step blinker)) r c = ALIVE_CELL <->
       (cell_at (grid blinker) r c = ALIVE_CELL /\
        (alive_neighbors (grid blinker) r c = 2 \/ alive_neighbors (grid blinker) r c = 3))
       \/
       (cell_at (grid blinker) r c = DEAD_CELL /\ alive_neighbors (grid blinker) r c = 3)).
Proof. apply (step_rule blinker). concrete_wf. Defined.

Lemma toggle_cell_spec_witness :
  exists v g',
    Np.get (grid blinker) (Z.to_nat 2) (Z.to_nat 2) = Some v /\
    toggle_cell blinker 2 2 = Ok (with_grid blinker g') /\
    Np.get g' (Z.to_nat 2) (Z.to_nat 2) = Some (1 - v) /\
    (v = DEAD_CELL /\ 1 - v = ALIVE_CELL \/ v = ALIVE_CELL /\ 1 - v = DEAD_CELL) /\
    (forall r c, (r, c) <> (Z.to_nat 2, Z.to_nat 2) ->
                 Np.get g' r c = Np.get (grid blinker) r c) /\
    Np.nrows g' = Np.nrows (grid blinker) /\ Np.ncols g' = Np.ncols (grid blinker).
Proof.
  apply (proj1 (proj2 (toggle_cell_spec blinker 2 2))).
  - concrete_wf.
  - cbn. lia.
  - cbn. lia.
Defined.

Lemma handle_mouse_ui_strip_witness :
  handle_mouse blinker (17, 40) = Ok blinker /\
  (forall l, self l = blinker ->
     handle_event l (MOUSEBUTTONDOWN (17, 40)) = Ok (Loop blinker true (gen l)) /\
     (mouse_pressed l = true -> handle_event l (MOUSEMOTION (17, 40)) = Ok l)).
Proof. apply (handle_mouse_ui_strip blinker 17 40). cbn. lia. Defined.

Lemma zoom_at_focus_stable_witness :
  exists t s' gx gy gx' gy',
    zoom_recompute panned 1 0 3 = Ok t /\
    zoom_at panned 1 0 3 = Ok s' /\
    s' = (if 3 =? cell_size panned then panned else clamp_offsets t) /\
    screen_to_grid panned 1 0 = Ok (gx, gy) /\
    screen_to_grid s' 1 0 = Ok (gx', gy') /\
    (offset_x s' = offset_x t -> gx <= gx' <= gx + 1) /\
    (offset_y s' = offset_y t -> gy <= gy' <= gy + 1).
Proof.
  apply (zoom_at_focus_stable panned 1 0 3); cbn; lia.
Defined.

Lemma zoom_at_amended_witness :
  zoom_at panned 1 0 3 = Ok (zoomAt_amended panned 1 0 3) /\
  cell_size (zoomAt_amended panned 1 0 3) = 3 /\
  zoom_recompute panned 1 0 3 = Ok (zoomAt_recomputed panned 1 0 3).
Proof.
  apply (zoom_at_amended panned 1 0 3).
  - cbn. lia.
  - unfold zoom_in_range. cbn. lia.
  - unfold zoom_in_range. cbn. lia.
Defined.

(** Truncation is toward zero: at focus 3, offset 0, from cell size 4
    to 3 the float is -0.75 and the offset 0, where the floor is -1;
    at focus 1, offset 32 the float is 23.75 and the offset 23. *)
Example zoom_offset_toward_zero :
  zoomAt_offset 3 0 4 3 = 0 /\ zoomAt_offset 1 32 4 3 = 23 /\
  exists t, zoom_recompute (blank 10 10 4) 3 0 3 = Ok t /\ offset_x t = 0.
Proof.
  split; [vm_compute; reflexivity|]. split; [vm_compute; reflexivity|].
  eexists. split; vm_compute; reflexivity.
Qed.

(** Focus stability needs its bound on the product: with every value
    below 2^53 but [(focus + offset) * new_cell_size] above it, the
    product is rounded to a multiple of 8 and the cell under the focus
    moves by two though no offset is clamped (whatever the grid, which
    [zoom_at] does not read). *)
Example zoom_at_beyond_exact (g : Np.ndarray Z) :
  let s := Game (2 ^ 53 - 1) 0 1 g 800 50 true true 0 10
             6763929080901920 0 32 1 32 in
  screen_to_grid s 1484 0 = Ok (6763929080903404, 0) /\
  exists t s',
    zoom_recompute s 1484 0 7 = Ok t /\ zoom_at s 1484 0 7 = Ok s' /\
    offset_x s' = offset_x t /\
    screen_to_grid s' 1484 0 = Ok (6763929080903402, 0).
Proof.
  cbv zeta. split; [vm_compute; reflexivity|].
  eexists _, _. split; [vm_compute; reflexivity|].
  split; [vm_compute; reflexivity|]. split; vm_compute; reflexivity.
Qed.

Lemma offsets_invariant_witness :
  offsets_in_range (clamp_offsets (with_screen (blank 10 10 4) 20 30)).
Proof.
  apply (proj1 (proj2 offsets_invariant)
           (Loop (blank 10 10 4) false (fun _ => 0%N)) (VIDEORESIZE 20 30)
           (Loop (clamp_offsets (with_screen (blank 10 10 4) 20 30)) false
              (fun _ => 0%N))).
  - unfold offsets_in_range, max_x, max_y. cbn. lia.
  - cbn. lia.
  - reflexivity.
Defined.

Lemma init_spec_witness :
  exists s g',
    init (fun _ => 0%N) 3 2 8 (PyFloat.Fin (1 # 2)) = Ok (s, g') /\
    game_wf s /\ height s = 2 /\ width s = 3 /\
    Np.nrows (grid s) = Z.to_nat 2 /\ Np.ncols (grid s) = Z.to_nat 3.
Proof.
  apply (proj2 (proj2 (proj2 init_spec)) (fun _ => 0%N) 3 2 8 (PyFloat.Fin (1 # 2))).
  - lia.
  - lia.
  - cbn. split; discriminate.
Defined.

Lemma reset_clear_spec_witness :
  exists s', clear blinker = Ok s' /\
    paused s' = true /\ generation s' = 0 /\
    height s' = height blinker /\ width s' = width blinker /\
    Np.nrows (grid s') = Np.nrows (grid blinker) /\
    Np.ncols (grid s') = Np.ncols (grid blinker) /\
    game_wf s' /\
    forall r c, (r < Np.nrows (grid blinker))%nat -> (c < Np.ncols (grid blinker))%nat ->
                Np.get (grid s') r c = Some DEAD_CELL.
Proof.
  apply (proj2 (proj2 reset_clear_spec) blinker). concrete_wf.
Defined.

(** The patterns of the specification's test list. *)

Example blinker_period_2 :
  Np.rows (grid (step blinker))
  = [[0; 0; 0; 0; 0]; [0; 0; 0; 0; 0]; [0; 1; 1; 1; 0]; [0; 0; 0; 0; 0];
     [0; 0; 0; 0; 0]] /\
  grid (step (step blinker)) = grid blinker.
Proof. split; reflexivity. Qed.

Example block_still :
  let block := fixture 4 4 8 [[0; 0; 0; 0]; [0; 1; 1; 0]; [0; 1; 1; 0]; [0; 0; 0; 0]] in
  grid (step block) = grid block.
Proof. reflexivity. Qed.

Example corner_counts :
  Np.rows (count_neighbors (fixture 3 2 8 [[1; 1; 0]; [1; 1; 1]])
             (grid (fixture 3 2 8 [[1; 1; 0]; [1; 1; 1]])))
  = [[3; 4; 3]; [3; 4; 2]].
Proof. reflexivity. Qed.

(** * Further properties *)

Lemma game_wf_ext (s s' : game) :
  engine_of s' = engine_of s -> game_wf s -> game_wf s'.
Proof.
  unfold engine_of, game_wf. intros [= -> -> ->]. auto.
Qed.

Lemma choice01_shaped g h w p0 p1 a g' :
  NpRandom.choice01 g h w p0 p1 = Ok (a, g') ->
  0 <= h /\ 0 <= w /\
  exists f, shaped a (Z.to_nat h) (Z.to_nat w) f /\
            forall r c, f r c = DEAD_CELL \/ f r c = ALIVE_CELL.
Proof.
  unfold NpRandom.choice01.
  destruct (PyFloat.isnan _); [discriminate|].
  destruct (_ || _); [discriminate|].
  destruct (PyFloat.ltb NpRandom.atol _); [discriminate|].
  destruct (Z.ltb_spec h 0), (Z.ltb_spec w 0); try discriminate. cbn [orb].
  intros [= <- _]. split; [lia|]. split; [lia|].
  eexists. split.
  - split; [reflexivity|]. split; [reflexivity|].
    eexists. split; [apply tab_seq_map|]. intros r _. apply tab_seq_map.
  - intros r c. cbv beta. unfold DEAD_CELL, ALIVE_CELL.
    destruct (PyFloat.leb _ _); [right|left]; reflexivity.
Qed.

Lemma init_wf g w h cs d s0 g0 :
  init g w h cs d = Ok (s0, g0) -> game_wf s0.
Proof.
  unfold init.
  destruct (NpRandom.choice01 _ _ _ _ _) as [[a g']|] eqn:E; [|discriminate].
  cbn [bind fst snd]. intros [= <- _].
  destruct (choice01_shaped _ _ _ _ _ _ _ E) as (Hh & Hw & f & Hs & Hf).
  apply (shaped_game_wf _ f); cbn [grid height width]; assumption.
Qed.

Lemma reset_wf g s d r : reset g s d = Ok r -> game_wf (fst r).
Proof.
  unfold reset.
  destruct (NpRandom.choice01 _ _ _ _ _) as [[a g']|] eqn:E; [|discriminate].
  cbn [bind fst snd]. intros [= <-]. cbn [fst].
  destruct (choice01_shaped _ _ _ _ _ _ _ E) as (Hh & Hw & f & Hs & Hf).
  apply (shaped_game_wf _ f); cbn [grid height width]; assumption.
Qed.

Lemma clear_wf s s' : clear s = Ok s' -> game_wf s'.
Proof.
  unfold clear. destruct (Np.zeros _ _) as [a|] eqn:E; [|discriminate].
  cbn [bind]. intros [= <-].
  unfold Np.zeros in E.
  destruct (Z.ltb_spec (height s) 0), (Z.ltb_spec (width s) 0); try discriminate.
  destruct (zeros_shaped (height s) (width s)) as (a' & E' & Hs); [lia|lia|].
  unfold Np.zeros in E'.
  destruct (Z.ltb_spec (height s) 0), (Z.ltb_spec (width s) 0); try lia.
  cbn [orb] in E, E'. rewrite E in E'. injection E' as <-.
  apply (shaped_game_wf _ (fun _ _ => DEAD_CELL)); cbn [grid height width];
    try assumption. intros; left; reflexivity.
Qed.

Lemma set_binary (a a' : Np.ndarray Z) (r c v : Z) :
  binary a -> v = DEAD_CELL \/ v = ALIVE_CELL ->
  Np.set a r c v = Ok a' -> binary a'.
Proof.
  unfold binary, Np.set. intros Hb Hv.
  destruct (Np.rows a !! Z.to_nat r) as [row|] eqn:Hrow; [|discriminate].
  destruct (_ <? _)%nat; [|discriminate]. intros [= <-]. cbn [Np.rows].
  apply Forall_insert; [exact Hb|].
  apply Forall_insert; [|exact Hv].
  rewrite Forall_lookup in Hb. exact (Hb _ _ Hrow).
Qed.

Lemma toggle_cell_wf (s s' : game) gx gy :
  game_wf s -> toggle_cell s gx gy = Ok s' -> game_wf s'.
Proof.
  intros Hwf. pose proof Hwf as (Ha & Hh & Hw & Hb). unfold toggle_cell.
  destruct (_ && _) eqn:Hin; [|intros [= <-]; exact Hwf].
  apply andb_prop in Hin as [Hin H4]. apply andb_prop in Hin as [Hin H3].
  apply andb_prop in Hin as [H1 H2].
  unfold Np.getZ.
  destruct (Np.get _ _ _) as [v|] eqn:Hv; [|discriminate]. cbn [bind].
  destruct (Np.set _ _ _ _) as [a'|] eqn:Hset; [|discriminate]. cbn [bind].
  intros [= <-].
  destruct (set_in_range (grid s) gy gx (1 - v) Ha) as (a'' & E & Hwf' & Hnr & Hnc & _);
    [lia|lia|].
  rewrite Hset in E. injection E as <-.
  split; [exact Hwf'|]. cbn [grid height width with_grid].
  split; [lia|]. split; [lia|].
  eapply set_binary; [exact Hb| |exact Hset].
  destruct (binary_get _ _ _ _ Hb Hv) as [-> | ->]; unfold DEAD_CELL, ALIVE_CELL;
    [right|left]; reflexivity.
Qed.

Lemma handle_mouse_wf (s s' : game) pos :
  game_wf s -> handle_mouse s pos = Ok s' -> game_wf s'.
Proof.
  intros Hwf. destruct pos as [x y]. unfold handle_mouse.
  destruct (y <? _); [|intros [= <-]; exact Hwf].
  destruct (screen_to_grid s x y); [|discriminate]. cbn [bind].
  apply toggle_cell_wf, Hwf.
Qed.

Lemma zoom_recompute_engine (s t : game) fx fy n :
  zoom_recompute s fx fy n = Ok t ->
  engine_of t = engine_of s /\ cell_size t = n /\
  (running t, paused t, generation t, fps t, pan_speed t,
   min_cell_size t, max_cell_size t, screen_width t, screen_height t)
  = (running s, paused s, generation s, fps s, pan_speed s,
     min_cell_size s, max_cell_size s, screen_width s, screen_height s).
Proof.
  unfold zoom_recompute.
  destruct (PyFloat.int_truediv _ _); [|discriminate].
  destruct (PyFloat.int_truediv _ _); [|discriminate]. cbn [bind].
  destruct (zoom_offset _ _ _); [|discriminate]. cbn [bind].
  destruct (zoom_offset _ _ _); [|discriminate]. cbn [bind].
  intros [= <-]. repeat split.
Qed.

Lemma zoom_at_engine (s s' : game) fx fy n :
  zoom_at s fx fy n = Ok s' -> engine_of s' = engine_of s.
Proof.
  unfold zoom_at. destruct (n =? cell_size s); [intros [= <-]; reflexivity|].
  destruct (zoom_recompute s fx fy n) as [t|] eqn:Et; [|discriminate].
  cbn [bind]. intros [= <-].
  destruct (zoom_recompute_engine _ _ _ _ _ Et) as [<- _]. reflexivity.
Qed.

Lemma step_wf (s : game) : game_wf s -> game_wf (step s).
Proof.
  intros (Hwf & Hh & Hw & Hbin).
  pose proof (wf_shaped (grid s) Hwf) as Hg.
  pose proof (step_grid_shaped s _ _ _ Hg (eq_sym Hh) (eq_sym Hw)) as Hs.
  pose proof Hs as (Hnr & Hnc & _).
  split; [exact (shaped_wf _ _ _ _ Hs)|].
  split; [rewrite Hnr; exact Hh|]. split; [rewrite Hnc; exact Hw|].
  eapply shaped_binary; [exact Hs|]. intros. apply next_cell_binary.
Qed.

Lemma handle_key_wf (l l' : loop) (k : key) :
  game_wf (self l) -> handle_key l k = Ok l' -> game_wf (self l').
Proof.
  intros Hwf. unfold handle_key. generalize default_density. intros d.
  destruct k;
    try (intros [= <-]; cbn [self]; eapply game_wf_ext; [|exact Hwf]; reflexivity).
  - destruct (reset (gen l) (self l) d) as [r|] eqn:Er; [|discriminate].
    cbn [bind]. intros [= <-]. cbn [self]. exact (reset_wf _ _ _ _ Er).
  - destruct (clear (self l)) as [c|] eqn:Ec; [|discriminate]. cbn [bind].
    intros [= <-]. cbn [self]. exact (clear_wf _ _ Ec).
Qed.

Lemma handle_event_wf (l l' : loop) (ev : event) :
  game_wf (self l) -> handle_event l ev = Ok l' -> game_wf (self l').
Proof.
  intros Hwf. unfold handle_event. destruct ev as [|k|pos|y [mx my]|w h| |pos|].
  - intros [= <-]. cbn [self]. eapply game_wf_ext; [|exact Hwf]. reflexivity.
  - apply handle_key_wf, Hwf.
  - destruct (handle_mouse _ _) as [m|] eqn:Em; [|discriminate]. cbn [bind].
    intros [= <-]. cbn [self]. exact (handle_mouse_wf _ _ _ Hwf Em).
  - destruct (zoom_at _ _ _ _) as [z|] eqn:Ez; [|discriminate]. cbn [bind].
    intros [= <-]. cbn [self].
    eapply game_wf_ext; [|exact Hwf]. exact (zoom_at_engine _ _ _ _ _ Ez).
  - intros [= <-]. cbn [self]. eapply game_wf_ext; [|exact Hwf]. reflexivity.
  - intros [= <-]. exact Hwf.
  - destruct (mouse_pressed l); [|intros [= <-]; exact Hwf].
    destruct (handle_mouse _ _) as [m|] eqn:Em; [|discriminate]. cbn [bind].
    intros [= <-]. cbn [self]. exact (handle_mouse_wf _ _ _ Hwf Em).
  - intros [= <-]. exact Hwf.
Qed.

(** X1: in every state the loop of [run] can reach, the grid has the
    shape [(height, width)] and holds only 0 and 1; every event keeps
    this. *)
Theorem grid_well_formed :
  (forall l, reachable l -> game_wf (self l)) /\
  (forall l ev l', game_wf (self l) -> handle_event l ev = Ok l' ->
                   game_wf (self l')).
Proof.
  split.
  - induction 1 as [g w h cs d s0 g0 Hinit|l ev l' _ IH Hev|l _ IH].
    + exact (init_wf _ _ _ _ _ _ _ Hinit).
    + exact (handle_event_wf _ _ _ IH Hev).
    + cbn [self]. apply step_wf, IH.
  - intros l ev l'. apply handle_event_wf.
Qed.

(** ** Forms of the results *)

Lemma toggle_cell_form (s s' : game) gx gy :
  toggle_cell s gx gy = Ok s' -> s' = s \/ exists g', s' = with_grid s g'.
Proof.
  unfold toggle_cell. destruct (_ && _); [|intros [= <-]; left; reflexivity].
  destruct (Np.getZ _ _ _); [|discriminate]. cbn [bind].
  destruct (Np.set _ _ _ _) as [g'|]; [|discriminate]. cbn [bind].
  intros [= <-]. right. exists g'. reflexivity.
Qed.

Lemma handle_mouse_form (s s' : game) pos :
  handle_mouse s pos = Ok s' -> s' = s \/ exists g', s' = with_grid s g'.
Proof.
  destruct pos as [x y]. unfold handle_mouse.
  destruct (y <? _); [|intros [= <-]; left; reflexivity].
  destruct (screen_to_grid s x y); [|discriminate]. cbn [bind].
  apply toggle_cell_form.
Qed.

Lemma zoom_at_form (s s' : game) fx fy n :
  zoom_at s fx fy n = Ok s' ->
  s' = s \/
  exists ox oy, s' = with_offset_y (with_offset_x (with_cell_size s n) ox) oy.
Proof.
  unfold zoom_at, zoom_recompute.
  destruct (n =? cell_size s); [intros [= <-]; left; reflexivity|].
  destruct (PyFloat.int_truediv _ _); [|discriminate].
  destruct (PyFloat.int_truediv _ _); [|discriminate]. cbn [bind].
  destruct (zoom_offset _ _ _); [|discriminate]. cbn [bind].
  destruct (zoom_offset _ _ _); [|discriminate]. cbn [bind].
  intros [= <-]. right. eexists _, _. reflexivity.
Qed.

Lemma reset_form g s d r :
  reset g s d = Ok r ->
  exists g', fst r = with_paused (with_generation (with_grid s g') 0) true.
Proof.
  unfold reset. destruct (NpRandom.choice01 _ _ _ _ _) as [[a g']|]; [|discriminate].
  cbn [bind]. intros [= <-]. exists a. reflexivity.
Qed.

Lemma clear_form s s' :
  clear s = Ok s' ->
  exists g', s' = with_paused (with_generation (with_grid s g') 0) true.
Proof.
  unfold clear. destruct (Np.zeros _ _) as [a|]; [|discriminate].
  cbn [bind]. intros [= <-]. exists a. reflexivity.
Qed.

(** Every event, by the fields it may write. *)
Lemma handle_event_form (l l' : loop) (ev : event) :
  handle_event l ev = Ok l' ->
  let s := self l in
  let s' := self l' in
  s' = s
  \/ s' = with_running s false
  \/ s' = with_paused s (negb (paused s))
  \/ (exists g', s' = with_paused (with_generation (with_grid s g') 0) true)
  \/ s' = with_fps s (Z.min 60 (fps s + 5))
  \/ s' = with_fps s (Z.max 1 (fps s - 5))
  \/ (exists g', s' = with_grid s g')
  \/ (exists n ox oy,
        (n = Z.min (max_cell_size s) (cell_size s + 1)
         \/ n = Z.max (min_cell_size s) (cell_size s - 1)) /\
        s' = with_offset_y (with_offset_x (with_cell_size s n) ox) oy)
  \/ (exists ox oy, s' = with_offset_y (with_offset_x s ox) oy)
  \/ (exists ox, s' = with_offset_x s ox)
  \/ (exists oy, s' = with_offset_y s oy)
  \/ (exists w h ox oy,
        ev = VIDEORESIZE w h /\
        s' = with_offset_y (with_offset_x (with_screen s w h) ox) oy).
Proof.
  cbv zeta. unfold handle_event, handle_key. generalize default_density. intros d.
  destruct ev as [|k|pos|y [mx my]|w h| |pos|].
  - intros [= <-]. cbn [self]. auto.
  - destruct k.
    + intros [= <-]. cbn [self]. auto.
    + destruct (reset _ _ _) as [r|] eqn:Er; [|discriminate]. cbn [bind].
      intros [= <-]. cbn [self]. do 3 right. left. exact (reset_form _ _ _ _ Er).
    + destruct (clear _) as [c|] eqn:Ec; [|discriminate]. cbn [bind].
      intros [= <-]. cbn [self]. do 3 right. left. exact (clear_form _ _ Ec).
    + intros [= <-]. cbn [self]. auto 6.
    + intros [= <-]. cbn [self]. auto 6.
    + intros [= <-]. cbn [self]. auto 7.
    + intros [= <-]. cbn [self]. do 9 right. left. eexists. reflexivity.
    + intros [= <-]. cbn [self]. do 8 right. left. eexists _, _. reflexivity.
    + intros [= <-]. cbn [self]. do 10 right. left. eexists. reflexivity.
    + intros [= <-]. cbn [self]. do 8 right. left. eexists _, _. reflexivity.
    + intros [= <-]. auto.
  - destruct (handle_mouse _ _) as [m|] eqn:Em; [|discriminate]. cbn [bind].
    intros [= <-]. cbn [self].
    destruct (handle_mouse_form _ _ _ Em) as [->|Hg]; [auto|]. do 6 right. left. exact Hg.
  - destruct (zoom_at _ _ _ _) as [z|] eqn:Ez; [|discriminate]. cbn [bind].
    intros [= <-]. cbn [self].
    destruct (zoom_at_form _ _ _ _ _ Ez) as [->|(ox & oy & ->)]; [auto|].
    do 7 right. left. eexists _, ox, oy. split; [|reflexivity].
    destruct (0 <? y); [left|right]; reflexivity.
  - intros [= <-]. cbn [self]. do 11 right. eexists _, _, _, _.
    split; reflexivity.
  - intros [= <-]. cbn [self]. auto.
  - destruct (mouse_pressed l); [|intros [= <-]; auto].
    destruct (handle_mouse _ _) as [m|] eqn:Em; [|discriminate]. cbn [bind].
    intros [= <-]. cbn [self].
    destruct (handle_mouse_form _ _ _ Em) as [->|Hg]; [auto|]. do 6 right. left. exact Hg.
  - intros [= <-]. auto.
Qed.

(** ** Control state and zoom limits *)

Ltac by_form H :=
  apply handle_event_form in H; cbv zeta in H;
  repeat match type of H with
    | _ \/ _ => destruct H as [H|H]
    | exists _, _ => destruct H as [? H]
    | _ /\ _ => destruct H as [? H]
    end.

Lemma handle_event_control (l l' : loop) (ev : event) :
  control_inv (self l) -> handle_event l ev = Ok l' -> control_inv (self l').
Proof.
  intros [Hf Hg] Hev. by_form Hev; rewrite Hev; unfold control_inv; cbn; lia.
Qed.

Lemma handle_event_limits (l l' : loop) (ev : event) :
  limits_inv (self l) -> handle_event l ev = Ok l' -> limits_inv (self l').
Proof.
  intros (Hmin & Hmax & Hp & Hc) Hev.
  by_form Hev; rewrite Hev; unfold limits_inv; cbn; lia.
Qed.

Lemma init_fields g w h cs d s0 g0 :
  init g w h cs d = Ok (s0, g0) ->
  width s0 = w /\ height s0 = h /\ cell_size s0 = cs /\
  screen_width s0 = w * cs /\ screen_height s0 = h * cs + 50 /\
  running s0 = true /\ paused s0 = true /\ generation s0 = 0 /\ fps s0 = 10 /\
  offset_x s0 = 0 /\ offset_y s0 = 0 /\ pan_speed s0 = 32 /\
  min_cell_size s0 = 1 /\ max_cell_size s0 = 32.
Proof.
  unfold init. destruct (NpRandom.choice01 _ _ _ _ _); [|discriminate].
  cbn [bind]. intros [= <- _]. cbn. repeat split.
Qed.

(** X2: in every reachable state the frame rate lies in [[1, 60]] and
    the generation counter is not negative. *)
Theorem control_state_bounds (l : loop) :
  reachable l -> 1 <= fps (self l) <= 60 /\ 0 <= generation (self l).
Proof.
  induction 1 as [g w h cs d s0 g0 Hinit|l ev l' _ IH Hev|l _ IH].
  - cbn [self]. apply init_fields in Hinit. lia.
  - exact (handle_event_control _ _ _ IH Hev).
  - cbn [self]. unfold step; cbn. unfold control_inv in IH. lia.
Qed.

Lemma reachable_from_limits (l0 l : loop) :
  reachable_from l0 l -> limits_inv (self l0) -> limits_inv (self l).
Proof.
  intros Hr H0. induction Hr as [|l ev l' _ IH Hev|l _ IH].
  - exact H0.
  - exact (handle_event_limits _ _ _ IH Hev).
  - exact IH.
Qed.

(** X3: from an object constructed with a cell size in [[1, 32]], every
    state reached by events and steps has its cell size between
    [min_cell_size] = 1 and [max_cell_size] = 32. *)
Theorem cell_size_within_limits g w h cs d s0 g0 (l : loop) :
  init g w h cs d = Ok (s0, g0) -> 1 <= cs <= 32 ->
  reachable_from (Loop s0 false g0) l ->
  min_cell_size (self l) <= cell_size (self l) <= max_cell_size (self l) /\
  min_cell_size (self l) = 1 /\ max_cell_size (self l) = 32.
Proof.
  intros Hinit Hcs Hr.
  destruct (reachable_from_limits _ _ Hr) as (Hmin & Hmax & _ & Hc).
  - apply init_fields in Hinit. unfold limits_inv. cbn [self]. lia.
  - lia.
Qed.

(** ** Drawing *)

Lemma getZ_cell_at (g : Np.ndarray Z) (r c : Z) :
  Np.wf g -> 0 <= r < Z.of_nat (Np.nrows g) -> 0 <= c < Z.of_nat (Np.ncols g) ->
  Np.getZ g r c = Ok (cell_at g r c).
Proof.
  intros Hwf Hr Hc. unfold Np.getZ, cell_at.
  destruct (get_in_range g (Z.to_nat r) (Z.to_nat c) Hwf) as [v Hv]; [lia|lia|].
  rewrite Hv.
  destruct (Z.ltb_spec r 0), (Z.ltb_spec c 0); try lia. reflexivity.
Qed.

Lemma draw_row_spec (s : game) (y : Z) (xs : list Z) :
  game_wf s -> 0 <= y < height s ->
  (forall x, x ∈ xs -> 0 <= x < width s) ->
  exists rs, draw_row s y xs = Ok rs /\
    forall rc, rc ∈ rs <->
      exists x, x ∈ xs /\ cell_at (grid s) y x = ALIVE_CELL /\ rc = cell_rect s x y.
Proof.
  intros Hwf Hy. pose proof Hwf as (Ha & Hh & Hw & _).
  induction xs as [|x xs IH]; intros Hxs.
  - exists []. split; [reflexivity|]. intros rc. split.
    + intros H. inversion H.
    + intros (x & H & _). inversion H.
  - destruct IH as (rs & Ers & Hrs).
    { intros x' Hx'. apply Hxs. apply elem_of_cons. right. exact Hx'. }
    assert (Hx : 0 <= x < width s) by (apply Hxs, elem_of_cons; left; reflexivity).
    cbn [draw_row]. rewrite getZ_cell_at by (assumption || lia). cbn [bind].
    rewrite Ers. cbn [bind]. eexists. split; [reflexivity|].
    intros rc. unfold ALIVE_CELL.
    destruct (Z.eqb_spec (cell_at (grid s) y x) 1) as [E|E].
    + rewrite elem_of_cons, Hrs. split.
      * intros [->|(x' & Hin & Hal & ->)].
        -- exists x. split; [apply elem_of_cons; left; reflexivity|]. split; [exact E|reflexivity].
        -- exists x'. split; [apply elem_of_cons; right; exact Hin|]. split; [exact Hal|reflexivity].
      * intros (x' & Hin & Hal & ->). apply elem_of_cons in Hin as [->|Hin].
        -- left. reflexivity.
        -- right. exists x'. split; [exact Hin|]. split; [exact Hal|reflexivity].
    + rewrite Hrs. split.
      * intros (x' & Hin & Hal & ->).
        exists x'. split; [apply elem_of_cons; right; exact Hin|]. split; [exact Hal|reflexivity].
      * intros (x' & Hin & Hal & ->). apply elem_of_cons in Hin as [->|Hin].
        -- contradiction.
        -- exists x'. split; [exact Hin|]. split; [exact Hal|reflexivity].
Qed.

Lemma draw_rows_spec (s : game) (ys xs : list Z) :
  game_wf s ->
  (forall y, y ∈ ys -> 0 <= y < height s) ->
  (forall x, x ∈ xs -> 0 <= x < width s) ->
  exists rs, draw_rows s ys xs = Ok rs /\
    forall rc, rc ∈ rs <->
      exists x y, x ∈ xs /\ y ∈ ys /\ cell_at (grid s) y x = ALIVE_CELL /\
                  rc = cell_rect s x y.
Proof.
  intros Hwf Hys Hxs. induction ys as [|y ys IH].
  - exists []. split; [reflexivity|]. intros rc. split.
    + intros H. inversion H.
    + intros (x & y & _ & H & _). inversion H.
  - destruct IH as (rs & Ers & Hrs).
    { intros y' Hy'. apply Hys. apply elem_of_cons. right. exact Hy'. }
    destruct (draw_row_spec s y xs Hwf) as (row & Erow & Hrow);
      [apply Hys, elem_of_cons; left; reflexivity|exact Hxs|].
    cbn [draw_rows]. rewrite Erow. cbn [bind]. rewrite Ers. cbn [bind].
    eexists. split; [reflexivity|].
    intros rc. rewrite elem_of_app, Hrow, Hrs. split.
    + intros [(x & Hx & Hal & ->)|(x & y' & Hx & Hy' & Hal & ->)].
      * exists x, y. split; [exact Hx|]. split; [apply elem_of_cons; left; reflexivity|].
        split; [exact Hal|reflexivity].
      * exists x, y'. split; [exact Hx|]. split; [apply elem_of_cons; right; exact Hy'|].
        split; [exact Hal|reflexivity].
    + intros (x & y' & Hx & Hy' & Hal & ->). apply elem_of_cons in Hy' as [->|Hy'].
      * left. exists x. split; [exact Hx|]. split; [exact Hal|reflexivity].
      * right. exists x, y'. split; [exact Hx|]. split; [exact Hy'|].
        split; [exact Hal|reflexivity].
Qed.

Lemma elem_of_py_range (a b k : Z) : k ∈ py_range a b <-> a <= k < b.
Proof. unfold py_range. rewrite elem_of_seqZ. lia. Qed.

Lemma cell_rect_inj (s : game) (x y x' y' : Z) :
  cell_size s <> 0 -> cell_rect s x y = cell_rect s x' y' -> x = x' /\ y = y'.
Proof.
  intros Hcs. unfold cell_rect. intros [= Hx Hy].
  split; apply (Z.mul_cancel_r _ _ (cell_size s) Hcs); lia.
Qed.

(** No rectangle is drawn twice. *)
Lemma draw_row_NoDup (s : game) (y : Z) (xs : list Z) (rs : list rect) :
  cell_size s <> 0 -> NoDup xs -> draw_row s y xs = Ok rs ->
  (forall rc, rc ∈ rs -> exists x, x ∈ xs /\ rc = cell_rect s x y) /\ NoDup rs.
Proof.
  intros Hcs. revert rs. induction xs as [|x xs IH]; intros rs Hnd; cbn [draw_row].
  - intros [= <-]. split; [intros rc H; inversion H|apply NoDup_nil_2].
  - apply NoDup_cons in Hnd as [Hx Hnd].
    destruct (Np.getZ (grid s) y x) as [v|]; [|discriminate]. cbn [bind].
    destruct (draw_row s y xs) as [rest|]; [|discriminate]. cbn [bind].
    destruct (IH rest Hnd eq_refl) as [Hin Hrest].
    assert (Hin' : forall rc, rc ∈ rest ->
                     exists x0, x0 ∈ x :: xs /\ rc = cell_rect s x0 y).
    { intros rc Hrc. destruct (Hin rc Hrc) as (x0 & H0 & ->).
      exists x0. split; [apply elem_of_cons; right; exact H0|reflexivity]. }
    intros [= <-]. destruct (v =? 1).
    + split.
      * intros rc Hrc. apply elem_of_cons in Hrc as [->|Hrc]; [|apply Hin', Hrc].
        exists x. split; [apply elem_of_cons; left; reflexivity|reflexivity].
      * apply NoDup_cons. split; [|exact Hrest].
        intros Hrc. destruct (Hin _ Hrc) as (x0 & H0 & Heq).
        apply (cell_rect_inj s _ _ _ _ Hcs) in Heq as [-> _]. exact (Hx H0).
    + split; [exact Hin'|exact Hrest].
Qed.

Lemma draw_rows_NoDup (s : game) (ys xs : list Z) (rs : list rect) :
  cell_size s <> 0 -> NoDup ys -> NoDup xs -> draw_rows s ys xs = Ok rs ->
  (forall rc, rc ∈ rs ->
     exists x y, x ∈ xs /\ y ∈ ys /\ rc = cell_rect s x y) /\ NoDup rs.
Proof.
  intros Hcs Hys Hxs. revert rs Hys.
  induction ys as [|y ys IH]; intros rs Hys; cbn [draw_rows].
  - intros [= <-]. split; [intros rc H; inversion H|apply NoDup_nil_2].
  - apply NoDup_cons in Hys as [Hy Hys].
    destruct (draw_row s y xs) as [row|] eqn:Erow; [|discriminate]. cbn [bind].
    destruct (draw_rows s ys xs) as [rest|]; [|discriminate]. cbn [bind].
    destruct (draw_row_NoDup s y xs row Hcs Hxs Erow) as [Hrow Hndrow].
    destruct (IH rest Hys eq_refl) as [Hrest Hndrest].
    intros [= <-]. split.
    + intros rc Hrc. apply elem_of_app in Hrc as [Hrc|Hrc].
      * destruct (Hrow rc Hrc) as (x & Hx & ->). exists x, y.
        split; [exact Hx|]. split; [apply elem_of_cons; left; reflexivity|reflexivity].
      * destruct (Hrest rc Hrc) as (x & y' & Hx & Hy' & ->). exists x, y'.
        split; [exact Hx|]. split; [apply elem_of_cons; right; exact Hy'|reflexivity].
    + apply NoDup_app. split; [exact Hndrow|]. split; [|exact Hndrest].
      intros rc Hrc Hrc'. destruct (Hrow rc Hrc) as (x & _ & ->).
      destruct (Hrest _ Hrc') as (x' & y' & _ & Hy' & Heq).
      apply (cell_rect_inj s _ _ _ _ Hcs) in Heq as [_ ->]. exact (Hy Hy').
Qed.

Lemma NoDup_py_range (a b : Z) : NoDup (py_range a b).
Proof. apply NoDup_seqZ. Qed.

Lemma visible_range_ok (s : game) :
  cell_size s <> 0 ->
  visible_range s
  = Ok (Z.max 0 (offset_x s / cell_size s),
        Z.max 0 (offset_y s / cell_size s),
        Z.min (width s) ((offset_x s + screen_width s) / cell_size s + 1),
        Z.min (height s)
          ((offset_y s + (screen_height s - 50)) / cell_size s + 1)).
Proof.
  intros Hcs. unfold visible_range, floordiv.
  destruct (Z.eqb_spec (cell_size s) 0) as [?|_]; [contradiction|]. reflexivity.
Qed.

(** The visible range lies inside the grid, so no read of [draw_grid]
    is out of bounds. *)
Lemma draw_grid_ok (s : game) :
  game_wf s -> cell_size s <> 0 -> exists rects, draw_grid s = Ok rects.
Proof.
  intros Hwf Hcs. unfold draw_grid. rewrite (visible_range_ok s Hcs). cbn [bind].
  destruct (draw_rows_spec s
              (py_range (Z.max 0 (offset_y s / cell_size s))
                 (Z.min (height s)
                    ((offset_y s + (screen_height s - 50)) / cell_size s + 1)))
              (py_range (Z.max 0 (offset_x s / cell_size s))
                 (Z.min (width s) ((offset_x s + screen_width s) / cell_size s + 1)))
              Hwf) as (rects & Er & _).
  { intros y Hy. apply elem_of_py_range in Hy. lia. }
  { intros x Hx. apply elem_of_py_range in Hx. lia. }
  exists rects. exact Er.
Qed.

(** X5: on a well-formed object with a positive cell size [draw_grid]
    raises nothing and draws one rectangle for each ALIVE cell of its
    visible range, at the pixel of the cell and of side [cell_size - 1],
    no rectangle twice and no other rectangle; no ALIVE cell whose
    rectangle meets the grid area of the window is left out of that
    range. *)
Theorem draw_grid_spec (s : game) :
  game_wf s -> 0 < cell_size s ->
  exists c_left c_top c_right c_bottom rects,
    visible_range s = Ok (c_left, c_top, c_right, c_bottom) /\
    draw_grid s = Ok rects /\
    NoDup rects /\
    (forall rc, rc ∈ rects <->
       exists x y, c_left <= x < c_right /\ c_top <= y < c_bottom /\
                   cell_at (grid s) y x = ALIVE_CELL /\ rc = cell_rect s x y) /\
    (forall x y x' y', cell_rect s x y = cell_rect s x' y' -> x = x' /\ y = y') /\
    (forall x y, 0 <= x < width s -> 0 <= y < height s ->
       x * cell_size s - offset_x s < screen_width s ->
       0 < x * cell_size s - offset_x s + (cell_size s - 1) ->
       y * cell_size s - offset_y s < screen_height s - 50 ->
       0 < y * cell_size s - offset_y s + (cell_size s - 1) ->
       c_left <= x < c_right /\ c_top <= y < c_bottom).
Proof.
  intros Hwf Hcs.
  assert (Hcs0 : cell_size s <> 0) by lia.
  pose proof (visible_range_ok s Hcs0) as Hv.
  eexists _, _, _, _.
  destruct (draw_rows_spec s
              (py_range (Z.max 0 (offset_y s / cell_size s))
                 (Z.min (height s)
                    ((offset_y s + (screen_height s - 50)) / cell_size s + 1)))
              (py_range (Z.max 0 (offset_x s / cell_size s))
                 (Z.min (width s) ((offset_x s + screen_width s) / cell_size s + 1)))
              Hwf) as (rects & Er & Hr).
  { intros y Hy. apply elem_of_py_range in Hy. lia. }
  { intros x Hx. apply elem_of_py_range in Hx. lia. }
  exists rects. split; [exact Hv|]. split; [|split; [|split; [|split]]].
  - unfold draw_grid. rewrite Hv. cbn [bind]. exact Er.
  - exact (proj2 (draw_rows_NoDup s _ _ rects Hcs0 (NoDup_py_range _ _)
                    (NoDup_py_range _ _) Er)).
  - intros rc. rewrite Hr. split.
    + intros (x & y & Hx & Hy & H). apply elem_of_py_range in Hx, Hy.
      exists x, y. split; [exact Hx|]. split; [exact Hy|]. exact H.
    + intros (x & y & Hx & Hy & H). exists x, y.
      split; [apply elem_of_py_range; exact Hx|].
      split; [apply elem_of_py_range; exact Hy|]. exact H.
  - intros x y x' y'. apply cell_rect_inj, Hcs0.
  - intros x y Hx Hy Hx1 Hx2 Hy1 Hy2.
    assert (Hlo : forall o k, 0 < k * cell_size s - o + (cell_size s - 1) ->
                              o / cell_size s <= k).
    { intros o k H. apply Z.lt_succ_r. apply Z.div_lt_upper_bound; lia. }
    assert (Hhi : forall o w k, k * cell_size s - o < w ->
                                k < (o + w) / cell_size s + 1).
    { intros o w k H. apply Z.lt_succ_r. apply Z.div_le_lower_bound; lia. }
    pose proof (Hlo _ _ Hx2). pose proof (Hlo _ _ Hy2).
    pose proof (Hhi _ _ _ Hx1). pose proof (Hhi _ _ _ Hy1). lia.
Qed.

(** ** The loop raises nothing of its own *)

Lemma reset_default_ok g (s : game) :
  game_wf s -> exists r, reset g s default_density = Ok r.
Proof.
  intros Hwf. destruct (game_wf_dims s Hwf) as [Hh Hw].
  pose proof default_density_probability as Hp.
  destruct default_density as [q| |]; try contradiction.
  destruct (choice01_ok g (height s) (width s) q Hh Hw Hp) as (a & g' & f & Ea & _).
  unfold reset. rewrite Ea. cbn [bind]. eexists. reflexivity.
Qed.

Lemma clear_ok (s : game) : game_wf s -> exists s', clear s = Ok s'.
Proof.
  intros Hwf. destruct (game_wf_dims s Hwf) as [Hh Hw].
  destruct (zeros_shaped (height s) (width s) Hh Hw) as (a & Ea & _).
  unfold clear. rewrite Ea. cbn [bind]. eexists. reflexivity.
Qed.

Lemma toggle_cell_ok (s : game) gx gy :
  game_wf s -> exists s', toggle_cell s gx gy = Ok s'.
Proof.
  intros (Hwf & Hh & Hw & _). unfold toggle_cell.
  destruct (_ && _) eqn:Hin; [|eexists; reflexivity].
  apply andb_prop in Hin as [Hin H4]. apply andb_prop in Hin as [Hin H3].
  apply andb_prop in Hin as [H1 H2].
  destruct (get_in_range (grid s) (Z.to_nat gy) (Z.to_nat gx) Hwf) as [v Hv];
    [lia|lia|].
  destruct (set_in_range (grid s) gy gx (1 - v) Hwf) as (g' & Hset & _); [lia|lia|].
  unfold Np.getZ. rewrite Hv. cbn [bind]. rewrite Hset. cbn [bind].
  eexists. reflexivity.
Qed.

Lemma handle_mouse_ok (s : game) pos :
  game_wf s -> cell_size s <> 0 -> exists s', handle_mouse s pos = Ok s'.
Proof.
  intros Hwf Hcs. destruct pos as [x y]. unfold handle_mouse.
  destruct (y <? _); [|eexists; reflexivity].
  unfold screen_to_grid, floordiv.
  destruct (Z.eqb_spec (cell_size s) 0) as [?|_]; [contradiction|]. cbn [bind].
  apply toggle_cell_ok, Hwf.
Qed.

Lemma zoom_recompute_ok (s : game) (fx fy n : Z) :
  1 <= cell_size s -> 1 <= n ->
  0 <= fx -> 0 <= fy -> 0 <= offset_x s -> 0 <= offset_y s ->
  (fx + offset_x s + 1) * n < 2 ^ 53 -> (fy + offset_y s + 1) * n < 2 ^ 53 ->
  exists t, zoom_recompute s fx fy n = Ok t.
Proof.
  intros Hold Hn Hfx Hfy Hox Hoy Hbx Hby.
  destruct (zoom_axis fx (offset_x s) (cell_size s) n) as (g1 & o1 & Eg1 & Eo1 & _);
    try assumption.
  destruct (zoom_axis fy (offset_y s) (cell_size s) n) as (g2 & o2 & Eg2 & Eo2 & _);
    try assumption.
  unfold zoom_recompute. rewrite Eg1, Eg2. cbn [bind].
  cbn [cell_size with_cell_size with_offset_x]. rewrite Eo1. cbn [bind].
  rewrite Eo2. eexists. reflexivity.
Qed.

Lemma safe_offsets (s : game) :
  safe_inv s ->
  0 <= offset_x s < 2 ^ 46 /\ 0 <= offset_y s < 2 ^ 46 /\ 1 <= cell_size s <= 32.
Proof.
  intros (Hwf & (Hmin & Hmax & Hp & Hc) & [Hx Hy] & Hsw & Hsh & Hw & Hh).
  destruct (game_wf_dims s Hwf) as [Hh0 Hw0].
  unfold max_x, max_y in *.
  assert (width s * cell_size s <= 2 ^ 40 * 32) by nia.
  assert (height s * cell_size s <= 2 ^ 40 * 32) by nia.
  lia.
Qed.

Lemma handle_event_ok (l : loop) (ev : event) :
  safe_inv (self l) -> event_wf ev -> exists l', handle_event l ev = Ok l'.
Proof.
  intros Hsafe Hev. pose proof (safe_offsets _ Hsafe) as (Hox & Hoy & Hcs).
  pose proof Hsafe as (Hwf & (Hmin & Hmax & _ & _) & _).
  unfold handle_event. destruct ev as [|k|pos|y [mx my]|w h| |pos|].
  - eexists. reflexivity.
  - unfold handle_key.
    destruct k;
      [ | destruct (reset_default_ok (gen l) (self l) Hwf) as [r ->]
        | destruct (clear_ok (self l) Hwf) as [c ->] | .. ];
      eexists; reflexivity.
  - destruct (handle_mouse_ok (self l) pos Hwf) as [m ->]; [lia|]. eexists. reflexivity.
  - cbn [event_wf] in Hev. destruct Hev as [Hmx Hmy].
    set (n := if 0 <? y then Z.min (max_cell_size (self l)) (cell_size (self l) + 1)
              else Z.max (min_cell_size (self l)) (cell_size (self l) - 1)).
    assert (Hn : 1 <= n <= 32) by (unfold n; destruct (0 <? y); lia).
    assert (Hbound : forall f o, 0 <= f < 2 ^ 40 -> 0 <= o < 2 ^ 46 ->
                                 (f + o + 1) * n < 2 ^ 53).
    { intros f o Hf Ho.
      apply Z.le_lt_trans with ((2 ^ 40 + 2 ^ 46) * 32); [|reflexivity].
      apply Z.mul_le_mono_nonneg; lia. }
    unfold zoom_at. destruct (n =? cell_size (self l)); [eexists; reflexivity|].
    destruct (zoom_recompute_ok (self l) mx my n) as [t ->];
      [lia|lia|lia|lia|lia|lia|apply Hbound; lia|apply Hbound; lia|].
    eexists. reflexivity.
  - eexists. reflexivity.
  - eexists. reflexivity.
  - destruct (mouse_pressed l); [|eexists; reflexivity].
    destruct (handle_mouse_ok (self l) pos Hwf) as [m ->]; [lia|]. eexists. reflexivity.
  - eexists. reflexivity.
Qed.

Lemma handle_event_safe (l l' : loop) (ev : event) :
  safe_inv (self l) -> event_wf ev -> handle_event l ev = Ok l' ->
  safe_inv (self l').
Proof.
  intros Hsafe Hwfev Hev.
  pose proof Hsafe as (Hwf & Hlim & Hoff & Hsw & Hsh & Hw & Hh).
  split; [exact (handle_event_wf _ _ _ Hwf Hev)|].
  split; [exact (handle_event_limits _ _ _ Hlim Hev)|].
  split.
  { apply (handle_event_inv l l' ev); [|exact Hev].
    split; [|exact Hoff]. destruct Hlim as (_ & _ & -> & _). lia. }
  by_form Hev; rewrite Hev; cbn; try lia.
  subst ev. cbn [event_wf] in Hwfev. lia.
Qed.

Lemma step_safe (s : game) : safe_inv s -> safe_inv (step s).
Proof.
  intros (Hwf & Hlim & Hoff & Hrest).
  split; [apply step_wf, Hwf|]. split; [exact Hlim|]. split; [exact Hoff|].
  exact Hrest.
Qed.

Lemma handle_events_ok (evs : list event) (l : loop) :
  safe_inv (self l) -> Forall event_wf evs ->
  exists l', handle_events l evs = Ok l' /\ safe_inv (self l').
Proof.
  revert l. induction evs as [|ev evs IH]; intros l Hsafe Hall; cbn [handle_events].
  - exists l. split; [reflexivity|exact Hsafe].
  - apply Forall_cons in Hall as [Hev Hall].
    destruct (handle_event_ok l ev Hsafe Hev) as [m Em]. rewrite Em. cbn [bind].
    apply IH; [|exact Hall]. exact (handle_event_safe _ _ _ Hsafe Hev Em).
Qed.

Lemma frame_ok (l : loop) (evs : list event) :
  safe_inv (self l) -> Forall event_wf evs ->
  exists l', frame l evs = Ok l' /\ safe_inv (self l').
Proof.
  intros Hsafe Hevs. unfold frame.
  destruct (handle_events_ok evs l Hsafe Hevs) as (m & Em & Hm). rewrite Em.
  cbn [bind]. cbv zeta.
  set (m' := if paused (self m) then m
             else Loop (step (self m)) (mouse_pressed m) (gen m)).
  assert (Hm' : safe_inv (self m')).
  { unfold m'. destruct (paused (self m)); [exact Hm|].
    cbn [self]. apply step_safe, Hm. }
  destruct (draw_grid_ok (self m')) as [rects Er];
    [apply Hm'|pose proof (safe_offsets _ Hm'); lia|].
  rewrite Er. cbn [bind]. exists m'. split; [reflexivity|exact Hm'].
Qed.

Lemma run_loop_ok (frames : list (list event)) (l : loop) :
  safe_inv (self l) -> Forall (Forall event_wf) frames ->
  exists l', run_loop l frames = Ok l' /\ safe_inv (self l').
Proof.
  revert l. induction frames as [|evs frames IH]; intros l Hsafe Hall; cbn [run_loop].
  - exists l. split; [reflexivity|exact Hsafe].
  - apply Forall_cons in Hall as [Hevs Hall].
    destruct (running (self l)); [|exists l; split; [reflexivity|exact Hsafe]].
    destruct (frame_ok l evs Hsafe Hevs) as (m & Em & Hm). rewrite Em.
    cbn [bind]. apply IH; assumption.
Qed.

Lemma init_safe g w h cs d s0 g0 :
  init g w h cs d = Ok (s0, g0) ->
  1 <= cs <= 32 -> w < 2 ^ 40 -> h < 2 ^ 40 -> safe_inv s0.
Proof.
  intros Hinit Hcs Hw Hh.
  pose proof (init_wf _ _ _ _ _ _ _ Hinit) as Hwf.
  pose proof (init_fields _ _ _ _ _ _ _ Hinit)
    as (Ew & Eh & Ec & Esw & Esh & _ & _ & _ & _ & Eox & Eoy & Ep & Emin & Emax).
  destruct (game_wf_dims s0 Hwf) as [Hh0 Hw0].
  split; [exact Hwf|]. split; [unfold limits_inv; lia|].
  split; [unfold offsets_in_range, max_x, max_y; lia|]. nia.
Qed.

(** X4: from an object constructed with a cell size in [[1, 32]] and a
    width and height below 2^40, no frame of [run] raises, drawing
    included, whatever the frames of events, as long as wheel events
    come with a mouse position in [[0, 2^40)] and resize events with a
    non-negative size: the loop is left or still going in a state [l],
    and the only exception of [run] is the SystemExit of its own
    [sys.exit()], raised exactly when [running] has been cleared. *)
Theorem run_raises_only_SystemExit g w h cs d s0 g0 (frames : list (list event)) :
  init g w h cs d = Ok (s0, g0) ->
  1 <= cs <= 32 -> w < 2 ^ 40 -> h < 2 ^ 40 ->
  Forall (Forall event_wf) frames ->
  exists l, run_loop (Loop s0 false g0) frames = Ok l /\
    (running (self l) = true /\ run g0 s0 frames = Ok l \/
     running (self l) = false /\ run g0 s0 frames = Raise SystemExit).
Proof.
  intros Hinit Hcs Hw Hh Hall.
  destruct (run_loop_ok frames (Loop s0 false g0)) as (l & El & _);
    [exact (init_safe _ _ _ _ _ _ _ Hinit Hcs Hw Hh)|exact Hall|].
  exists l. split; [exact El|]. unfold run. rewrite El. cbn [bind].
  destruct (running (self l)); [left|right]; split; reflexivity.
Qed.

(** ** The grid engine *)

Lemma alive_neighbors_range (g : Np.ndarray Z) (r c : Z) :
  0 <= alive_neighbors g r c <= 8.
Proof.
  unfold alive_neighbors.
  pose proof (List.filter_length_le
    (fun d => cell_at g (r + fst d) (c + snd d) =? ALIVE_CELL) moore) as H.
  change (length moore) with 8%nat in H. lia.
Qed.

Lemma cell_at_outside (g : Np.ndarray Z) (r c : Z) :
  Np.wf g ->
  r < 0 \/ Z.of_nat (Np.nrows g) <= r \/ c < 0 \/ Z.of_nat (Np.ncols g) <= c ->
  cell_at g r c = DEAD_CELL.
Proof.
  intros Hwf Hout. rewrite (cell_at_shaped g _ _ _ r c (wf_shaped g Hwf)).
  destruct (Z.leb_spec 0 r), (Z.ltb_spec r (Z.of_nat (Np.nrows g))),
    (Z.leb_spec 0 c), (Z.ltb_spec c (Z.of_nat (Np.ncols g))); try reflexivity; lia.
Qed.

(** X8: on a well-formed object [count_neighbors] returns an array of
    the shape of the grid whose cell [(r, c)] is the number of ALIVE
    Moore neighbours; it lies in [[0, 8]], is at most 5 on an edge and at
    most 3 in a corner. *)
Theorem count_neighbors_counts (s : game) :
  game_wf s ->
  Np.wf (count_neighbors s (grid s)) /\
  Np.nrows (count_neighbors s (grid s)) = Np.nrows (grid s) /\
  Np.ncols (count_neighbors s (grid s)) = Np.ncols (grid s) /\
  forall r c, 0 <= r < height s -> 0 <= c < width s ->
    let n := alive_neighbors (grid s) r c in
    Np.get (count_neighbors s (grid s)) (Z.to_nat r) (Z.to_nat c) = Some n /\
    0 <= n <= 8 /\
    (r = 0 \/ r = height s - 1 \/ c = 0 \/ c = width s - 1 -> n <= 5) /\
    ((r = 0 \/ r = height s - 1) /\ (c = 0 \/ c = width s - 1) -> n <= 3).
Proof.
  intros (Hwf & Hh & Hw & Hbin).
  pose proof (wf_shaped (grid s) Hwf) as Hg.
  pose proof (count_neighbors_shaped s (grid s) _ _ _ Hg (eq_sym Hh) (eq_sym Hw)) as Hn.
  pose proof Hn as (Hnr & Hnc & _).
  split; [exact (shaped_wf _ _ _ _ Hn)|]. split; [exact Hnr|]. split; [exact Hnc|].
  intros r c Hr Hc. cbv zeta.
  rewrite (shaped_get _ _ _ _ (Z.to_nat r) (Z.to_nat c) Hn) by lia.
  rewrite !Z2Nat.id by lia.
  rewrite (neighbor_sum_alive _ _ _ Hbin).
  split; [reflexivity|]. split; [apply alive_neighbors_range|].
  rewrite <- (neighbor_sum_alive _ _ _ Hbin). unfold neighbor_sum.
  assert (Hb : forall a b, 0 <= cell_at (grid s) a b <= 1).
  { intros a b. destruct (cell_at_binary (grid s) a b Hbin) as [-> | ->];
      unfold DEAD_CELL, ALIVE_CELL; lia. }
  assert (Hout : forall a b,
            a < 0 \/ height s <= a \/ b < 0 \/ width s <= b ->
            cell_at (grid s) a b = 0).
  { intros a b Hab. apply cell_at_outside; [exact Hwf|]. lia. }
  pose proof (Hb (r - 1) (c - 1)). pose proof (Hb (r - 1) c).
  pose proof (Hb (r - 1) (c + 1)). pose proof (Hb r (c - 1)).
  pose proof (Hb r (c + 1)). pose proof (Hb (r + 1) (c - 1)).
  pose proof (Hb (r + 1) c). pose proof (Hb (r + 1) (c + 1)).
  split.
  - intros [E|[E|[E|E]]].
    + rewrite (Hout (r - 1) (c - 1)), (Hout (r - 1) c), (Hout (r - 1) (c + 1)) by lia. lia.
    + rewrite (Hout (r + 1) (c - 1)), (Hout (r + 1) c), (Hout (r + 1) (c + 1)) by lia. lia.
    + rewrite (Hout (r - 1) (c - 1)), (Hout r (c - 1)), (Hout (r + 1) (c - 1)) by lia. lia.
    + rewrite (Hout (r - 1) (c + 1)), (Hout r (c + 1)), (Hout (r + 1) (c + 1)) by lia. lia.
  - intros [[E|E] [F|F]].
    + rewrite (Hout (r - 1) (c - 1)), (Hout (r - 1) c), (Hout (r - 1) (c + 1)),
        (Hout r (c - 1)), (Hout (r + 1) (c - 1)) by lia. lia.
    + rewrite (Hout (r - 1) (c - 1)), (Hout (r - 1) c), (Hout (r - 1) (c + 1)),
        (Hout r (c + 1)), (Hout (r + 1) (c + 1)) by lia. lia.
    + rewrite (Hout (r + 1) (c - 1)), (Hout (r + 1) c), (Hout (r + 1) (c + 1)),
        (Hout r (c - 1)), (Hout (r - 1) (c - 1)) by lia. lia.
    + rewrite (Hout (r + 1) (c - 1)), (Hout (r + 1) c), (Hout (r + 1) (c + 1)),
        (Hout r (c + 1)), (Hout (r - 1) (c + 1)) by lia. lia.
Qed.

(** X6: a grid with every cell DEAD stays so under [step]. *)
Theorem step_all_dead (s : game) :
  game_wf s -> all_dead (grid s) -> all_dead (grid (step s)).
Proof.
  intros (Hwf & Hh & Hw & Hbin) Hdead r c.
  pose proof (wf_shaped (grid s) Hwf) as Hg.
  pose proof (step_grid_shaped s _ _ _ Hg (eq_sym Hh) (eq_sym Hw)) as Hs.
  rewrite (cell_at_shaped _ _ _ _ r c Hs).
  pose proof (Hdead r c) as Hv. rewrite (cell_at_shaped _ _ _ _ r c Hg) in Hv.
  destruct (_ && _); [|reflexivity].
  rewrite Hv. unfold neighbor_sum. rewrite !Hdead. reflexivity.
Qed.

(** ** Toggling twice *)

Lemma set_back {A} (a a1 : Np.ndarray A) (r c : Z) (v v1 : A) :
  Np.get a (Z.to_nat r) (Z.to_nat c) = Some v ->
  Np.set a r c v1 = Ok a1 ->
  Np.get a1 (Z.to_nat r) (Z.to_nat c) = Some v1 /\ Np.set a1 r c v = Ok a.
Proof.
  unfold Np.get, Np.set. intros Hv.
  destruct (Np.rows a !! Z.to_nat r) as [row|] eqn:Hrow; [|discriminate].
  assert (Hr : (Z.to_nat r < length (Np.rows a))%nat)
    by (eapply lookup_lt_Some; eauto).
  assert (Hc : (Z.to_nat c < length row)%nat)
    by (eapply lookup_lt_Some; eauto).
  destruct (Nat.ltb_spec (Z.to_nat c) (length row)) as [_|?]; [|lia].
  intros [= <-]. cbn [Np.rows Np.nrows Np.ncols].
  rewrite list_lookup_insert_eq by exact Hr.
  rewrite list_lookup_insert_eq by exact Hc. split; [reflexivity|].
  rewrite length_insert.
  destruct (Nat.ltb_spec (Z.to_nat c) (length row)) as [_|?]; [|lia].
  rewrite !list_insert_insert_eq.
  rewrite (list_insert_id row _ v Hv), (list_insert_id _ _ row Hrow).
  destruct a; reflexivity.
Qed.

Lemma with_grid_back (s : game) (g : Np.ndarray Z) :
  with_grid (with_grid s g) (grid s) = s.
Proof. destruct s; reflexivity. Qed.

Lemma toggle_cell_twice (s : game) (gx gy : Z) :
  game_wf s ->
  exists s', toggle_cell s gx gy = Ok s' /\ toggle_cell s' gx gy = Ok s /\
             viewport_of s' = viewport_of s.
Proof.
  intros (Hwf & Hh & Hw & Hbin). unfold toggle_cell.
  destruct (_ && _) eqn:Hin.
  - pose proof Hin as Hin'.
    apply andb_prop in Hin as [Hin H4]. apply andb_prop in Hin as [Hin H3].
    apply andb_prop in Hin as [H1 H2].
    destruct (get_in_range (grid s) (Z.to_nat gy) (Z.to_nat gx) Hwf) as [v Hv];
      [lia|lia|].
    destruct (set_in_range (grid s) gy gx (1 - v) Hwf) as (g' & Hset & _); [lia|lia|].
    destruct (set_back _ _ _ _ _ _ Hv Hset) as [Hv' Hset'].
    unfold Np.getZ. rewrite Hv. cbn [bind]. rewrite Hset. cbn [bind].
    eexists. split; [reflexivity|].
    cbn [width height grid with_grid]. rewrite Hin'. rewrite Hv'. cbn [bind].
    replace (1 - (1 - v)) with v by lia. rewrite Hset'. cbn [bind].
    rewrite with_grid_back. split; reflexivity.
  - exists s. rewrite Hin. repeat split.
Qed.

(** X7: two clicks at the same pixel cancel: the second [handle_mouse]
    returns the object the first one received (a drag that lingers on a
    cell toggles it back). *)
Theorem handle_mouse_twice (s : game) (pos : Z * Z) :
  game_wf s -> cell_size s <> 0 ->
  exists s', handle_mouse s pos = Ok s' /\ handle_mouse s' pos = Ok s.
Proof.
  intros Hwf Hcs. destruct pos as [x y]. unfold handle_mouse.
  destruct (y <? screen_height s - 50) eqn:Hy.
  - unfold screen_to_grid, floordiv.
    destruct (Z.eqb_spec (cell_size s) 0) as [?|_]; [contradiction|]. cbn [bind fst snd].
    destruct (toggle_cell_twice s ((x + offset_x s) / cell_size s)
                ((y + offset_y s) / cell_size s) Hwf) as (s' & E1 & E2 & Hv).
    exists s'. split; [exact E1|].
    unfold viewport_of in Hv. injection Hv as _ _ Ecs _ Esh Eox Eoy _.
    rewrite Esh, Hy, Ecs, Eox, Eoy.
    destruct (Z.eqb_spec (cell_size s) 0) as [?|_]; [contradiction|]. cbn [bind fst snd].
    exact E2.
  - exists s. rewrite Hy. split; reflexivity.
Qed.

(** ** Requests at a boundary *)

Lemma loop_eta (l : loop) : Loop (self l) (mouse_pressed l) (gen l) = l.
Proof. destruct l; reflexivity. Qed.

Lemma with_offset_x_id (s : game) : with_offset_x s (offset_x s) = s.
Proof. destruct s; reflexivity. Qed.

Lemma with_offset_y_id (s : game) : with_offset_y s (offset_y s) = s.
Proof. destruct s; reflexivity. Qed.

Lemma clamp_offsets_id (s : game) : offsets_in_range s -> clamp_offsets s = s.
Proof.
  unfold offsets_in_range, max_x, max_y, clamp_offsets, with_offset_x, with_offset_y.
  intros [Hx Hy]. destruct s; simpl in *. f_equal; lia.
Qed.

(** X9: requests at a limit change nothing: a wheel step up at
    [max_cell_size] or down at [min_cell_size], a pan left or up at
    offset 0, a pan right or down at the largest offset. *)
Theorem boundary_requests_ignored (l : loop) :
  let s := self l in
  (forall y pos, 0 < y -> max_cell_size s <= cell_size s ->
     cell_size s <= max_cell_size s ->
     handle_event l (MOUSEWHEEL y pos) = Ok l) /\
  (forall y pos, y <= 0 -> cell_size s <= min_cell_size s ->
     min_cell_size s <= cell_size s ->
     handle_event l (MOUSEWHEEL y pos) = Ok l) /\
  (0 <= pan_speed s -> offset_x s = 0 ->
     handle_event l (KEYDOWN K_LEFT) = Ok l) /\
  (0 <= pan_speed s -> offset_y s = 0 ->
     handle_event l (KEYDOWN K_UP) = Ok l) /\
  (0 <= pan_speed s -> offsets_in_range s -> offset_x s = max_x s ->
     handle_event l (KEYDOWN K_RIGHT) = Ok l) /\
  (0 <= pan_speed s -> offsets_in_range s -> offset_y s = max_y s ->
     handle_event l (KEYDOWN K_DOWN) = Ok l).
Proof.
  cbv zeta. repeat split.
  - intros y [mx my] Hy H1 H2. unfold handle_event.
    destruct (Z.ltb_spec 0 y) as [_|?]; [|lia].
    replace (Z.min (max_cell_size (self l)) (cell_size (self l) + 1))
      with (cell_size (self l)) by lia.
    unfold zoom_at. rewrite Z.eqb_refl. cbn [bind]. rewrite loop_eta. reflexivity.
  - intros y [mx my] Hy H1 H2. unfold handle_event.
    destruct (Z.ltb_spec 0 y) as [?|_]; [lia|].
    replace (Z.max (min_cell_size (self l)) (cell_size (self l) - 1))
      with (cell_size (self l)) by lia.
    unfold zoom_at. rewrite Z.eqb_refl. cbn [bind]. rewrite loop_eta. reflexivity.
  - intros Hp H0. unfold handle_event, handle_key.
    replace (Z.max 0 (offset_x (self l) - pan_speed (self l)))
      with (offset_x (self l)) by lia.
    rewrite with_offset_x_id, loop_eta. reflexivity.
  - intros Hp H0. unfold handle_event, handle_key.
    replace (Z.max 0 (offset_y (self l) - pan_speed (self l)))
      with (offset_y (self l)) by lia.
    rewrite with_offset_y_id, loop_eta. reflexivity.
  - intros Hp Hr Hx. unfold handle_event, handle_key.
    replace (clamp_offsets (with_offset_x (self l) (offset_x (self l) + pan_speed (self l))))
      with (clamp_offsets (self l)).
    + rewrite clamp_offsets_id by exact Hr. rewrite loop_eta. reflexivity.
    + destruct Hr as [Hrx Hry].
      unfold clamp_offsets, max_x, max_y, with_offset_x, with_offset_y in *.
      destruct (self l); simpl in *. f_equal; lia.
  - intros Hp Hr Hy. unfold handle_event, handle_key.
    replace (clamp_offsets (with_offset_y (self l) (offset_y (self l) + pan_speed (self l))))
      with (clamp_offsets (self l)).
    + rewrite clamp_offsets_id by exact Hr. rewrite loop_eta. reflexivity.
    + destruct Hr as [Hrx Hry].
      unfold clamp_offsets, max_x, max_y, with_offset_x, with_offset_y in *.
      destruct (self l); simpl in *. f_equal; lia.
Qed.

(** ** Panning there and back *)

(** X13: a pan right followed by a pan left, or down followed by up,
    restores the state when the first pan is not cut by the clamp. *)
Theorem pan_round_trip (l : loop) :
  let s := self l in
  0 <= pan_speed s -> offsets_in_range s ->
  (offset_x s + pan_speed s <= max_x s ->
     handle_events l [KEYDOWN K_RIGHT; KEYDOWN K_LEFT] = Ok l) /\
  (offset_y s + pan_speed s <= max_y s ->
     handle_events l [KEYDOWN K_DOWN; KEYDOWN K_UP] = Ok l).
Proof.
  cbv zeta. intros Hp [Hx Hy]. unfold max_x, max_y in *.
  split; intros Hfit; cbn [handle_events handle_event handle_key bind self
                             mouse_pressed gen];
    destruct l as [s mp g]; cbn [self mouse_pressed gen] in *;
    f_equal; f_equal; unfold clamp_offsets, with_offset_x, with_offset_y;
    destruct s; simpl in *; f_equal; lia.
Qed.

(** ** Quitting *)

Lemma handle_event_stays_stopped (l l' : loop) (ev : event) :
  running (self l) = false -> handle_event l ev = Ok l' ->
  running (self l') = false.
Proof.
  intros Hr Hev. by_form Hev; rewrite Hev; cbn; exact Hr || reflexivity.
Qed.

Lemma handle_events_stays_stopped (evs : list event) (l l' : loop) :
  running (self l) = false -> handle_events l evs = Ok l' ->
  running (self l') = false.
Proof.
  revert l. induction evs as [|ev evs IH]; intros l Hr; cbn [handle_events].
  - intros [= <-]. exact Hr.
  - destruct (handle_event l ev) as [m|] eqn:Em; [|discriminate]. cbn [bind].
    apply IH. exact (handle_event_stays_stopped _ _ _ Hr Em).
Qed.

Lemma handle_events_quit (evs : list event) (l l' : loop) :
  In QUIT evs -> handle_events l evs = Ok l' -> running (self l') = false.
Proof.
  revert l. induction evs as [|ev evs IH]; intros l Hin; [destruct Hin|].
  cbn [handle_events].
  destruct (handle_event l ev) as [m|] eqn:Em; [|discriminate]. cbn [bind].
  destruct Hin as [->|Hin].
  - apply handle_events_stays_stopped. cbn in Em. injection Em as <-. reflexivity.
  - apply IH, Hin.
Qed.

Lemma frame_stops (l l' : loop) (evs : list event) :
  In QUIT evs -> frame l evs = Ok l' -> running (self l') = false.
Proof.
  intros Hin. unfold frame.
  destruct (handle_events l evs) as [m|] eqn:Em; [|discriminate]. cbn [bind].
  cbv zeta. pose proof (handle_events_quit _ _ _ Hin Em) as Hm.
  destruct (paused (self m));
    (destruct (draw_grid _); [|discriminate]); cbn [bind]; intros [= <-];
    exact Hm.
Qed.

(** X10: in a state where every event is safe to handle, a frame that
    holds a QUIT event is carried out to its end, drawing included, and
    ends with [running] cleared whatever follows QUIT in it; the loop
    is then left, no later frame is handled, and [run] raises the
    SystemExit of its [sys.exit()]. *)
Theorem quit_ends_run g (s : game) (pressed : bool) (evs : list event)
    (rest : list (list event)) :
  safe_inv s -> Forall event_wf evs -> In QUIT evs -> running s = true ->
  exists l', frame (Loop s pressed g) evs = Ok l' /\
             running (self l') = false /\
             run_loop (Loop s pressed g) (evs :: rest) = Ok l' /\
             run g s (evs :: rest) = Raise SystemExit.
Proof.
  intros Hsafe Hevs Hin Hrun.
  assert (Hloop : forall b, exists l',
            frame (Loop s b g) evs = Ok l' /\ running (self l') = false /\
            run_loop (Loop s b g) (evs :: rest) = Ok l').
  { intros b. destruct (frame_ok (Loop s b g) evs Hsafe Hevs) as (l' & El & _).
    pose proof (frame_stops _ _ _ Hin El) as Hstop.
    exists l'. split; [exact El|]. split; [exact Hstop|].
    cbn [run_loop self]. rewrite Hrun, El. cbn [bind].
    destruct rest as [|evs' rest']; cbn [run_loop]; [reflexivity|].
    rewrite Hstop. reflexivity. }
  destruct (Hloop pressed) as (l' & El & Hstop & Erun).
  exists l'. split; [exact El|]. split; [exact Hstop|]. split; [exact Erun|].
  destruct (Hloop false) as (l0 & _ & Hstop0 & Erun0).
  unfold run. rewrite Erun0. cbn [bind]. rewrite Hstop0. reflexivity.
Qed.

(** ** Frames without events *)

(** X12: on a running, well-formed object with a non-zero cell size,
    n frames without events are carried out, drawing included; a paused
    object is left as it is, an unpaused one is stepped n times, its
    generation counter growing by n; [mouse_pressed] and the random
    generator are left as they are. *)
Theorem idle_frames (n : nat) (l : loop) :
  running (self l) = true -> game_wf (self l) -> cell_size (self l) <> 0 ->
  exists l', run_loop l (replicate n []) = Ok l' /\
    self l' = (if paused (self l) then self l else Nat.iter n step (self l)) /\
    generation (self l')
    = generation (self l) + (if paused (self l) then 0 else Z.of_nat n) /\
    mouse_pressed l' = mouse_pressed l /\ gen l' = gen l.
Proof.
  revert l. induction n as [|n IH]; intros l Hrun Hwf Hcs.
  - exists l. cbn [replicate run_loop]. split; [reflexivity|].
    destruct (paused (self l)); cbn [Nat.iter Z.of_nat]; repeat split; lia.
  - cbn [replicate run_loop]. rewrite Hrun. unfold frame.
    cbn [handle_events bind]. cbv zeta.
    destruct (paused (self l)) eqn:Hp.
    + destruct (draw_grid_ok (self l) Hwf Hcs) as [rects Er].
      rewrite Er. cbn [bind].
      destruct (IH l Hrun Hwf Hcs) as (l' & El & Es & Eg & Em & Egen).
      rewrite Hp in Es, Eg. exists l'.
      split; [exact El|]. split; [exact Es|]. split; [exact Eg|].
      split; [exact Em|exact Egen].
    + set (l1 := Loop (step (self l)) (mouse_pressed l) (gen l)).
      destruct (draw_grid_ok (self l1)) as [rects Er];
        [apply step_wf, Hwf|exact Hcs|].
      rewrite Er. cbn [bind].
      destruct (IH l1) as (l' & El & Es & Eg & Em & Egen);
        [exact Hrun|apply step_wf, Hwf|exact Hcs|].
      assert (Hp1 : paused (self l1) = false) by exact Hp.
      rewrite Hp1 in Es, Eg. exists l'.
      split; [exact El|]. split; [|split; [|split; [exact Em|exact Egen]]].
      * rewrite Es. unfold l1. cbn [self]. symmetry. apply Nat.iter_succ_r.
      * rewrite Eg. unfold l1.
        cbn [self generation step with_generation with_grid]. lia.
Qed.

(** ** The engine and the viewport *)

(** X14: pans, zooms and resizes leave the grid, its dimensions, the
    generation counter and the pause flag as they are; clicks, drags,
    reset and clear leave the viewport as it is; every other event
    leaves both. *)
Theorem engine_viewport_separate (l l' : loop) (ev : event) :
  handle_event l ev = Ok l' ->
  match ev with
  | KEYDOWN K_LEFT | KEYDOWN K_RIGHT | KEYDOWN K_UP | KEYDOWN K_DOWN
  | MOUSEWHEEL _ _ | VIDEORESIZE _ _ =>
      engine_of (self l') = engine_of (self l) /\
      generation (self l') = generation (self l) /\
      paused (self l') = paused (self l)
  | MOUSEBUTTONDOWN _ | MOUSEMOTION _ | KEYDOWN K_r | KEYDOWN K_c =>
      viewport_of (self l') = viewport_of (self l)
  | _ =>
      engine_of (self l') = engine_of (self l) /\
      viewport_of (self l') = viewport_of (self l)
  end.
Proof.
  unfold handle_event, handle_key. generalize default_density. intros d.
  destruct ev as [|k|pos|y [mx my]|w h| |pos|].
  - intros [= <-]. split; reflexivity.
  - destruct k.
    + intros [= <-]. split; reflexivity.
    + destruct (reset _ _ _) as [r|] eqn:Er; [|discriminate]. cbn [bind].
      intros [= <-]. exact (reset_viewport _ _ _ _ Er).
    + destruct (clear _) as [c|] eqn:Ec; [|discriminate]. cbn [bind].
      intros [= <-]. exact (clear_viewport _ _ Ec).
    + intros [= <-]. split; reflexivity.
    + intros [= <-]. split; reflexivity.
    + intros [= <-]. split; reflexivity.
    + intros [= <-]. repeat split.
    + intros [= <-]. repeat split.
    + intros [= <-]. repeat split.
    + intros [= <-]. repeat split.
    + intros [= <-]. split; reflexivity.
  - destruct (handle_mouse _ _) as [m|] eqn:Em; [|discriminate]. cbn [bind].
    intros [= <-]. exact (handle_mouse_viewport _ _ _ Em).
  - destruct (zoom_at _ _ _ _) as [z|] eqn:Ez; [|discriminate]. cbn [bind].
    intros [= <-]. cbn [self]. split; [exact (zoom_at_engine _ _ _ _ _ Ez)|].
    destruct (zoom_at_form _ _ _ _ _ Ez) as [->|(ox & oy & ->)]; split; reflexivity.
  - intros [= <-]. repeat split.
  - intros [= <-]. split; reflexivity.
  - destruct (mouse_pressed l); [|intros [= <-]; reflexivity].
    destruct (handle_mouse _ _) as [m|] eqn:Em; [|discriminate]. cbn [bind].
    intros [= <-]. exact (handle_mouse_viewport _ _ _ Em).
  - intros [= <-]. split; reflexivity.
Qed.

(** ** The extreme densities *)

Lemma random_sample_range (g : NpRandom.rng) (i : nat) :
  exists u, NpRandom.random_sample g i = PyFloat.Fin u /\ (0 <= u)%Q /\ (u < 1)%Q.
Proof.
  unfold NpRandom.random_sample. eexists. split; [reflexivity|].
  pose proof (Z.mod_pos_bound (Z.of_N (g i)) (2 ^ 53) ltac:(lia)) as [H0 H1].
  set (k := Z.of_N (g i) mod 2 ^ 53) in *.
  assert (HD : (0 < inject_Z (2 ^ 53))%Q) by (rewrite <- (Zlt_Qlt 0); lia).
  split.
  - apply Qle_shift_div_l; [exact HD|]. rewrite Qmult_0_l.
    rewrite <- (Zle_Qle 0). exact H0.
  - apply Qlt_shift_div_r; [exact HD|]. rewrite Qmult_1_l.
    rewrite <- Zlt_Qlt. exact H1.
Qed.

(** The cell [np.random.choice] draws at [(r, c)]. *)
Lemma choice01_cells g h w p0 p1 a g' :
  NpRandom.choice01 g h w p0 p1 = Ok (a, g') ->
  shaped a (Z.to_nat h) (Z.to_nat w)
    (fun r c =>
       if PyFloat.leb (PyFloat.div p0 (PyFloat.add p0 p1))
            (NpRandom.random_sample g (r * Z.to_nat w + c))
       then 1 else 0).
Proof.
  unfold NpRandom.choice01.
  destruct (PyFloat.isnan _); [discriminate|].
  destruct (_ || _); [discriminate|].
  destruct (PyFloat.ltb NpRandom.atol _); [discriminate|].
  destruct ((h <? 0) || (w <? 0)); [discriminate|].
  intros [= <- _].
  split; [reflexivity|]. split; [reflexivity|].
  eexists. split; [apply tab_seq_map|]. intros r _. apply tab_seq_map.
Qed.

Lemma choice01_all_dead :
  PyFloat.div (PyFloat.sub (PyFloat.Fin 1) (PyFloat.Fin 0))
    (PyFloat.add (PyFloat.sub (PyFloat.Fin 1) (PyFloat.Fin 0)) (PyFloat.Fin 0))
  = PyFloat.Fin (PyFloat.RN 1).
Proof. vm_compute. reflexivity. Qed.

Lemma choice01_all_alive :
  PyFloat.div (PyFloat.sub (PyFloat.Fin 1) (PyFloat.Fin 1))
    (PyFloat.add (PyFloat.sub (PyFloat.Fin 1) (PyFloat.Fin 1)) (PyFloat.Fin 1))
  = PyFloat.Fin 0.
Proof. vm_compute. reflexivity. Qed.

Lemma RN_one : (PyFloat.RN 1 == 1)%Q.
Proof. vm_compute. reflexivity. Qed.

(** X11: with density 0 every cell of the constructed grid is DEAD and
    with density 1 every cell is ALIVE, whatever the generator draws. *)
Theorem init_density_extremes g (w h cs : Z) :
  0 <= h -> 0 <= w ->
  (exists s g', init g w h cs (PyFloat.Fin 0) = Ok (s, g') /\
     forall r c, (r < Z.to_nat h)%nat -> (c < Z.to_nat w)%nat ->
                 Np.get (grid s) r c = Some DEAD_CELL) /\
  (exists s g', init g w h cs (PyFloat.Fin 1) = Ok (s, g') /\
     forall r c, (r < Z.to_nat h)%nat -> (c < Z.to_nat w)%nat ->
                 Np.get (grid s) r c = Some ALIVE_CELL).
Proof.
  intros Hh Hw. split.
  - destruct (choice01_ok g h w 0 Hh Hw) as (a & g' & f & Ea & _ & _);
      [split; discriminate|].
    unfold init. rewrite Ea. cbn [bind fst snd].
    eexists _, _. split; [reflexivity|]. cbn [grid].
    intros r c Hr Hc.
    rewrite (shaped_get _ _ _ _ r c (choice01_cells _ _ _ _ _ _ _ Ea)) by assumption.
    rewrite choice01_all_dead.
    destruct (random_sample_range g (r * Z.to_nat w + c)) as (u & -> & H0 & H1).
    cbn [PyFloat.leb].
    destruct (Qle_bool (PyFloat.RN 1) u) eqn:E; [|reflexivity].
    apply Qle_bool_iff in E. rewrite RN_one in E. lra.
  - destruct (choice01_ok g h w 1 Hh Hw) as (a & g' & f & Ea & _ & _);
      [split; discriminate|].
    unfold init. rewrite Ea. cbn [bind fst snd].
    eexists _, _. split; [reflexivity|]. cbn [grid].
    intros r c Hr Hc.
    rewrite (shaped_get _ _ _ _ r c (choice01_cells _ _ _ _ _ _ _ Ea)) by assumption.
    rewrite choice01_all_alive.
    destruct (random_sample_range g (r * Z.to_nat w + c)) as (u & -> & H0 & H1).
    cbn [PyFloat.leb].
    destruct (Qle_bool 0 u) eqn:E; [reflexivity|].
    apply Qle_bool_iff in H0. congruence.
Qed.

(** ** A cell size of zero *)

Lemma zoom_at_zero (s : game) (fx fy n : Z) :
  cell_size s = 0 -> n <> 0 -> zoom_at s fx fy n = Raise ZeroDivisionError.
Proof.
  intros Hcs Hn. unfold zoom_at. rewrite Hcs.
  destruct (Z.eqb_spec n 0) as [?|_]; [contradiction|].
  unfold zoom_recompute, PyFloat.int_truediv. rewrite Hcs. reflexivity.
Qed.

Lemma handle_mouse_zero (s : game) (pos : Z * Z) :
  cell_size s = 0 ->
  handle_mouse s pos
  = (if snd pos <? screen_height s - 50 then Raise ZeroDivisionError else Ok s).
Proof.
  intros Hcs. destruct pos as [x y]. unfold handle_mouse. cbn [snd].
  destruct (y <? _); [|reflexivity].
  unfold screen_to_grid, floordiv. rewrite Hcs. reflexivity.
Qed.

Lemma draw_grid_zero (s : game) :
  cell_size s = 0 -> draw_grid s = Raise ZeroDivisionError.
Proof.
  intros Hcs. unfold draw_grid, visible_range, floordiv. rewrite Hcs. reflexivity.
Qed.

Lemma wheel_zero (l : loop) (y : Z) (pos : Z * Z) :
  zero_inv (self l) -> handle_event l (MOUSEWHEEL y pos) = Raise ZeroDivisionError.
Proof.
  intros (_ & Hcs & Hmin & Hmax). destruct pos as [mx my]. unfold handle_event.
  rewrite zoom_at_zero; [reflexivity|exact Hcs|].
  rewrite Hcs, Hmin, Hmax. destruct (0 <? y); lia.
Qed.

(** With a cell size of 0 an event is handled without a change of the
    cell size or of the zoom limits, or it raises ZeroDivisionError. *)
Lemma handle_event_zero (l : loop) (ev : event) :
  zero_inv (self l) ->
  (exists l', handle_event l ev = Ok l' /\ zero_inv (self l')) \/
  handle_event l ev = Raise ZeroDivisionError.
Proof.
  intros Hz. pose proof Hz as (Hwf & Hcs & Hmin & Hmax).
  assert (Hkeep : forall l', handle_event l ev = Ok l' ->
            cell_size (self l') = cell_size (self l) ->
            min_cell_size (self l') = min_cell_size (self l) ->
            max_cell_size (self l') = max_cell_size (self l) ->
            exists l'', handle_event l ev = Ok l'' /\ zero_inv (self l'')).
  { intros l' Ev E1 E2 E3. exists l'. split; [exact Ev|].
    split; [exact (handle_event_wf _ _ _ Hwf Ev)|]. rewrite E1, E2, E3.
    split; [exact Hcs|]. split; [exact Hmin|exact Hmax]. }
  destruct ev as [|k|pos|y pos|w h| |pos|].
  - left. eapply Hkeep; reflexivity.
  - left. destruct k;
      [eapply Hkeep; reflexivity| | |eapply Hkeep; reflexivity ..].
    + destruct (reset_default_ok (gen l) (self l) Hwf) as [r Er].
      pose proof (reset_form _ _ _ _ Er) as [g' Eg].
      eapply Hkeep; [cbn [handle_event handle_key]; rewrite Er; reflexivity|..];
        cbn [self bind]; rewrite Eg; reflexivity.
    + destruct (clear_ok (self l) Hwf) as [c Ec].
      pose proof (clear_form _ _ Ec) as [g' Eg].
      eapply Hkeep; [cbn [handle_event handle_key]; rewrite Ec; reflexivity|..];
        cbn [self bind]; rewrite Eg; reflexivity.
  - cbn [handle_event]. rewrite (handle_mouse_zero _ _ Hcs).
    destruct (snd pos <? _); [right; reflexivity|left].
    eexists. split; [reflexivity|exact Hz].
  - right. apply wheel_zero, Hz.
  - left. eapply Hkeep; reflexivity.
  - left. eapply Hkeep; reflexivity.
  - cbn [handle_event]. destruct (mouse_pressed l) eqn:Hm.
    + rewrite (handle_mouse_zero _ _ Hcs).
      destruct (snd pos <? _); [right; reflexivity|left].
      eexists. split; [reflexivity|exact Hz].
    + left. eexists. split; [reflexivity|exact Hz].
  - left. eexists. split; [reflexivity|exact Hz].
Qed.

Lemma handle_events_zero (evs : list event) (l : loop) :
  zero_inv (self l) ->
  (exists l', handle_events l evs = Ok l' /\ zero_inv (self l')) \/
  handle_events l evs = Raise ZeroDivisionError.
Proof.
  revert l. induction evs as [|ev evs IH]; intros l Hz; cbn [handle_events].
  - left. exists l. split; [reflexivity|exact Hz].
  - destruct (handle_event_zero l ev Hz) as [(m & Em & Hm)|Er].
    + rewrite Em. cbn [bind]. apply IH, Hm.
    + right. rewrite Er. reflexivity.
Qed.

Lemma step_zero (s : game) : zero_inv s -> zero_inv (step s).
Proof.
  intros (Hwf & Hrest). split; [apply step_wf, Hwf|exact Hrest].
Qed.

(** With a cell size of 0 no frame comes to its end. *)
Lemma frame_zero (l : loop) (evs : list event) :
  zero_inv (self l) -> frame l evs = Raise ZeroDivisionError.
Proof.
  intros Hz. unfold frame.
  destruct (handle_events_zero evs l Hz) as [(m & Em & Hm)|Er];
    [|rewrite Er; reflexivity].
  rewrite Em. cbn [bind]. cbv zeta.
  rewrite draw_grid_zero; [reflexivity|].
  destruct (paused (self m)); [apply Hm|cbn [self]; apply (step_zero _ Hm)].
Qed.

(** X15: a cell size of 0 is accepted by [__init__], but the object
    cannot be shown: [draw_grid] raises ZeroDivisionError, so [run]
    raises it in its first frame whatever the events; every wheel event
    raises it, and so does a click above the strip once the window has
    been resized (the window [__init__] asks for is the 50-pixel strip
    alone). *)
Theorem zero_cell_size_raises g (w h : Z) (q : Q) (evs : list event)
    (rest : list (list event)) :
  0 <= h -> 0 <= w -> (0 <= q <= 1)%Q ->
  exists s g',
    init g w h 0 (PyFloat.Fin q) = Ok (s, g') /\
    cell_size s = 0 /\ screen_height s = 50 /\
    draw_grid s = Raise ZeroDivisionError /\
    (forall pressed y pos,
       handle_event (Loop s pressed g') (MOUSEWHEEL y pos)
       = Raise ZeroDivisionError) /\
    (forall pressed sw sh x y, y < sh - 50 ->
       handle_events (Loop s pressed g') [VIDEORESIZE sw sh; MOUSEBUTTONDOWN (x, y)]
       = Raise ZeroDivisionError) /\
    run g' s (evs :: rest) = Raise ZeroDivisionError.
Proof.
  intros Hh Hw Hq.
  destruct (choice01_ok g h w q Hh Hw Hq) as (a & g' & f & Ea & _).
  assert (Hinit : init g w h 0 (PyFloat.Fin q)
                  = Ok (Game w h 0 a (w * 0) (h * 0 + 50)
                          true true 0 10 0 0 32 1 32, g')).
  { unfold init. rewrite Ea. reflexivity. }
  pose proof (init_wf _ _ _ _ _ _ _ Hinit) as Hwf.
  set (s := Game w h 0 a (w * 0) (h * 0 + 50) true true 0 10 0 0 32 1 32) in *.
  assert (Hz : zero_inv s) by (split; [exact Hwf|repeat split]).
  exists s, g'. split; [exact Hinit|]. split; [reflexivity|].
  split; [unfold s; cbn [screen_height]; lia|].
  split; [apply draw_grid_zero; reflexivity|].
  split; [intros pressed y pos; apply wheel_zero; exact Hz|].
  split.
  - intros pressed sw sh x y Hy. cbn [handle_events handle_event bind self].
    rewrite handle_mouse_zero by reflexivity. cbn [snd].
    replace (y <? screen_height (clamp_offsets (with_screen s sw sh)) - 50)
      with true; [reflexivity|].
    symmetry. apply Z.ltb_lt. exact Hy.
  - unfold run. cbn [run_loop self]. change (running s) with true. cbv iota.
    rewrite (frame_zero (Loop s false g') evs Hz). reflexivity.
Qed.

(** ** Concrete instances *)

Lemma grid_well_formed_witness : game_wf (blank 3 2 8).
Proof.
  apply (proj1 grid_well_formed (Loop (blank 3 2 8) false zeros_rng)).
  apply (reach_init zeros_rng 3 2 8 (PyFloat.Fin (1 # 2))).
  vm_compute. reflexivity.
Defined.

Lemma control_state_bounds_witness :
  1 <= fps (blank 3 2 8) <= 60 /\ 0 <= generation (blank 3 2 8).
Proof.
  apply (control_state_bounds (Loop (blank 3 2 8) false zeros_rng)).
  apply (reach_init zeros_rng 3 2 8 (PyFloat.Fin (1 # 2))).
  vm_compute. reflexivity.
Defined.

Lemma cell_size_within_limits_witness :
  min_cell_size (blank 3 2 8) <= cell_size (blank 3 2 8) <= max_cell_size (blank 3 2 8)
  /\ min_cell_size (blank 3 2 8) = 1 /\ max_cell_size (blank 3 2 8) = 32.
Proof.
  apply (cell_size_within_limits zeros_rng 3 2 8 (PyFloat.Fin (1 # 2))
           (blank 3 2 8) zeros_rng (Loop (blank 3 2 8) false zeros_rng)).
  - vm_compute. reflexivity.
  - lia.
  - apply from_here.
Defined.

Lemma run_raises_only_SystemExit_witness :
  exists l,
    run_loop (Loop (blank 3 2 8) false zeros_rng)
      [[MOUSEWHEEL 1 (3, 4); KEYDOWN K_r]; [VIDEORESIZE 20 30; QUIT]; [KEYDOWN K_c]]
    = Ok l /\
    (running (self l) = true /\
     run zeros_rng (blank 3 2 8)
       [[MOUSEWHEEL 1 (3, 4); KEYDOWN K_r]; [VIDEORESIZE 20 30; QUIT]; [KEYDOWN K_c]]
     = Ok l \/
     running (self l) = false /\
     run zeros_rng (blank 3 2 8)
       [[MOUSEWHEEL 1 (3, 4); KEYDOWN K_r]; [VIDEORESIZE 20 30; QUIT]; [KEYDOWN K_c]]
     = Raise SystemExit).
Proof.
  apply (run_raises_only_SystemExit zeros_rng 3 2 8 (PyFloat.Fin (1 # 2))).
  - vm_compute. reflexivity.
  - lia.
  - lia.
  - lia.
  - repeat constructor; cbn; lia.
Defined.

Lemma draw_grid_spec_witness :
  exists c_left c_top c_right c_bottom rects,
    visible_range blinker = Ok (c_left, c_top, c_right, c_bottom) /\
    draw_grid blinker = Ok rects /\
    NoDup rects /\
    (forall rc, rc ∈ rects <->
       exists x y, c_left <= x < c_right /\ c_top <= y < c_bottom /\
                   cell_at (grid blinker) y x = ALIVE_CELL /\ rc = cell_rect blinker x y) /\
    (forall x y x' y',
       cell_rect blinker x y = cell_rect blinker x' y' -> x = x' /\ y = y') /\
    (forall x y, 0 <= x < width blinker -> 0 <= y < height blinker ->
       x * cell_size blinker - offset_x blinker < screen_width blinker ->
       0 < x * cell_size blinker - offset_x blinker + (cell_size blinker - 1) ->
       y * cell_size blinker - offset_y blinker < screen_height blinker - 50 ->
       0 < y * cell_size blinker - offset_y blinker + (cell_size blinker - 1) ->
       c_left <= x < c_right /\ c_top <= y < c_bottom).
Proof.
  apply (draw_grid_spec blinker); [concrete_wf|cbn; lia].
Defined.

Lemma step_all_dead_witness : all_dead (grid (step (fixture 1 1 8 [[0]]))).
Proof.
  apply (step_all_dead (fixture 1 1 8 [[0]])).
  - concrete_wf.
  - intros r c. unfold cell_at, Np.get. cbn [grid fixture Np.rows].
    destruct ((r <? 0) || (c <? 0)); [reflexivity|].
    destruct (Z.to_nat r) as [|n]; [|reflexivity].
    destruct (Z.to_nat c) as [|m]; reflexivity.
Defined.

Lemma handle_mouse_twice_witness :
  exists s', handle_mouse blinker (17, 20) = Ok s' /\
             handle_mouse s' (17, 20) = Ok blinker.
Proof.
  apply (handle_mouse_twice blinker (17, 20)).
  - concrete_wf.
  - cbn. lia.
Defined.

Lemma count_neighbors_counts_witness :
  Np.wf (count_neighbors blinker (grid blinker)) /\
  Np.nrows (count_neighbors blinker (grid blinker)) = Np.nrows (grid blinker) /\
  Np.ncols (count_neighbors blinker (grid blinker)) = Np.ncols (grid blinker) /\
  forall r c, 0 <= r < height blinker -> 0 <= c < width blinker ->
    let n := alive_neighbors (grid blinker) r c in
    Np.get (count_neighbors blinker (grid blinker)) (Z.to_nat r) (Z.to_nat c) = Some n /\
    0 <= n <= 8 /\
    (r = 0 \/ r = height blinker - 1 \/ c = 0 \/ c = width blinker - 1 -> n <= 5) /\
    ((r = 0 \/ r = height blinker - 1) /\ (c = 0 \/ c = width blinker - 1) -> n <= 3).
Proof. apply (count_neighbors_counts blinker). concrete_wf. Defined.

Lemma boundary_requests_ignored_witness :
  handle_event blinker_loop (KEYDOWN K_LEFT) = Ok blinker_loop.
Proof.
  apply (proj1 (proj2 (proj2 (boundary_requests_ignored blinker_loop)))).
  - cbn. lia.
  - reflexivity.
Defined.

Lemma quit_ends_run_witness :
  exists l',
    frame (Loop blinker_playing true zeros_rng) [QUIT; KEYDOWN K_RIGHT] = Ok l' /\
    running (self l') = false /\
    run_loop (Loop blinker_playing true zeros_rng)
      [[QUIT; KEYDOWN K_RIGHT]; [KEYDOWN K_SPACE]] = Ok l' /\
    run zeros_rng blinker_playing [[QUIT; KEYDOWN K_RIGHT]; [KEYDOWN K_SPACE]]
    = Raise SystemExit.
Proof.
  apply (quit_ends_run zeros_rng blinker_playing true [QUIT; KEYDOWN K_RIGHT]
           [[KEYDOWN K_SPACE]]).
  - split; [concrete_wf|].
    unfold limits_inv, offsets_in_range, max_x, max_y. cbn. lia.
  - repeat constructor.
  - left. reflexivity.
  - reflexivity.
Defined.

Lemma init_density_extremes_witness :
  (exists s g', init zeros_rng 3 2 8 (PyFloat.Fin 0) = Ok (s, g') /\
     forall r c, (r < Z.to_nat 2)%nat -> (c < Z.to_nat 3)%nat ->
                 Np.get (grid s) r c = Some DEAD_CELL) /\
  (exists s g', init zeros_rng 3 2 8 (PyFloat.Fin 1) = Ok (s, g') /\
     forall r c, (r < Z.to_nat 2)%nat -> (c < Z.to_nat 3)%nat ->
                 Np.get (grid s) r c = Some ALIVE_CELL).
Proof. apply (init_density_extremes zeros_rng 3 2 8); lia. Defined.

Lemma idle_frames_witness :
  exists l',
    run_loop (Loop blinker_playing false zeros_rng) (replicate 3 []) = Ok l' /\
    self l' = Nat.iter 3 step blinker_playing /\
    generation (self l') = generation blinker_playing + Z.of_nat 3 /\
    mouse_pressed l' = false /\ gen l' = zeros_rng.
Proof.
  apply (idle_frames 3 (Loop blinker_playing false zeros_rng)).
  - reflexivity.
  - concrete_wf.
  - cbn. lia.
Defined.

Lemma pan_round_trip_witness :
  handle_events (Loop panned false zeros_rng) [KEYDOWN K_RIGHT; KEYDOWN K_LEFT]
  = Ok (Loop panned false zeros_rng).
Proof.
  apply (proj1 (pan_round_trip (Loop panned false zeros_rng)
                  ltac:(cbn; lia)
                  ltac:(unfold offsets_in_range, max_x, max_y; cbn; lia))).
  unfold max_x. cbn. lia.
Defined.

Lemma engine_viewport_separate_witness :
  engine_of (clamp_offsets (with_offset_x blinker 32)) = engine_of blinker /\
  generation (clamp_offsets (with_offset_x blinker 32)) = generation blinker /\
  paused (clamp_offsets (with_offset_x blinker 32)) = paused blinker.
Proof.
  apply (engine_viewport_separate blinker_loop
           (Loop (clamp_offsets (with_offset_x blinker 32)) false zeros_rng)
           (KEYDOWN K_RIGHT)).
  reflexivity.
Defined.

Lemma zero_cell_size_raises_witness :
  exists s g',
    init zeros_rng 3 2 0 (PyFloat.Fin (1 # 2)) = Ok (s, g') /\
    cell_size s = 0 /\ screen_height s = 50 /\
    draw_grid s = Raise ZeroDivisionError /\
    (forall pressed y pos,
       handle_event (Loop s pressed g') (MOUSEWHEEL y pos)
       = Raise ZeroDivisionError) /\
    (forall pressed sw sh x y, y < sh - 50 ->
       handle_events (Loop s pressed g') [VIDEORESIZE sw sh; MOUSEBUTTONDOWN (x, y)]
       = Raise ZeroDivisionError) /\
    run g' s [[KEYDOWN K_SPACE]; [QUIT]] = Raise ZeroDivisionError.
Proof.
  apply (zero_cell_size_raises zeros_rng 3 2 (1 # 2) [KEYDOWN K_SPACE] [[QUIT]]).
  - lia.
  - lia.
  - split; discriminate.
Defined.
